(** * Page interactions of the hackathon landing page (hackathon/script.js)

    A shallow embedding of the script: the DOM is a heap of elements with
    parent pointers, handlers are state transformers over a page state
    (DOM, localStorage, pending timers, registered listeners), and a thrown
    [Error] is an abrupt completion that keeps every effect made before it. *)

From Stdlib Require Import Ascii QArith Lqa Sorted.
From stdpp Require Import base list gmap strings.

Open Scope string_scope.
Open Scope list_scope.
Open Scope nat_scope.

(** ** JavaScript string operations used by the script *)

Module JsString.

Definition utf8 (bytes : list nat) : string :=
  String.string_of_list_ascii (map Ascii.ascii_of_nat bytes).

(** [s.replace("#", "")]: a string pattern replaces its first occurrence only. *)
Fixpoint replace_hash (s : string) : string :=
  match s with
  | EmptyString => EmptyString
  | String c r => if Ascii.eqb c "#"%char then r else String c (replace_hash r)
  end.

(** [s.startsWith("#")] *)
Definition startsWith_hash (s : string) : bool :=
  match s with
  | String c _ => Ascii.eqb c "#"%char
  | EmptyString => false
  end.

(** [s.slice(1)]: drops the first code unit (one byte for every string
    that passed [startsWith_hash]). *)
Definition slice1 (s : string) : string :=
  match s with
  | String _ r => r
  | EmptyString => EmptyString
  end.

(** WhiteSpace and LineTerminator code points of ECMAScript, UTF-8 encoded:
    TAB LF VT FF CR SP, U+00A0, U+1680, U+2000..U+200A, U+2028, U+2029,
    U+202F, U+205F, U+3000, U+FEFF. *)
Definition white_space : list string :=
  map utf8
    [ [9]; [10]; [11]; [12]; [13]; [32]; [194; 160]; [225; 154; 128];
      [226; 128; 128]; [226; 128; 129]; [226; 128; 130]; [226; 128; 131];
      [226; 128; 132]; [226; 128; 133]; [226; 128; 134]; [226; 128; 135];
      [226; 128; 136]; [226; 128; 137]; [226; 128; 138];
      [226; 128; 168]; [226; 128; 169]; [226; 128; 175];
      [226; 129; 159]; [227; 128; 128]; [239; 187; 191] ]%nat.

Fixpoint strip_prefix (p s : string) : option string :=
  match p, s with
  | EmptyString, _ => Some s
  | String a p', String b s' => if Ascii.eqb a b then strip_prefix p' s' else None
  | String _ _, EmptyString => None
  end.

Fixpoint strip_any (ps : list string) (s : string) : option string :=
  match ps with
  | [] => None
  | p :: ps' =>
      match strip_prefix p s with
      | Some r => Some r
      | None => strip_any ps' s
      end
  end.

Fixpoint strip_all (fuel : nat) (ps : list string) (s : string) : string :=
  match fuel with
  | O => s
  | S fuel' =>
      match strip_any ps s with
      | Some r => strip_all fuel' ps r
      | None => s
      end
  end.

Definition trimStart (s : string) : string :=
  strip_all (String.length s) white_space s.

Definition trimEnd (s : string) : string :=
  String.rev (strip_all (String.length s) (map String.rev white_space) (String.rev s)).

(** [s.trim()] *)
Definition trim (s : string) : string := trimEnd (trimStart s).

(** The key under which initTocSpy indexes a link:
    [(a.getAttribute("href") || "").replace("#", "").trim()] *)
Definition href_key (href : option string) : string :=
  trim (replace_hash (default "" href)).

End JsString.

(** ** The DOM: a heap of elements *)

Module Dom.

(** An element handle is its index in the heap.  The heap lists the
    elements of the parsed markup in document order (a parent before its
    children, siblings left to right); elements created later get the
    next free index. *)
Record Element := mkElement {
  tagName : string;                 (* local name, lower case *)
  isHTMLElement : bool;             (* [el instanceof HTMLElement] *)
  parentElement : option nat;
  attributes : gmap string string;  (* all content attributes but class and hidden *)
  classList : list string;
  hidden : bool;
  textContent : string;
  value : string
}.

Abbreviation Dom := (list Element).

Definition with_parent (p : option nat) (e : Element) : Element :=
  mkElement (tagName e) (isHTMLElement e) p (attributes e) (classList e)
            (hidden e) (textContent e) (value e).

Definition with_attributes (a : gmap string string) (e : Element) : Element :=
  mkElement (tagName e) (isHTMLElement e) (parentElement e) a (classList e)
            (hidden e) (textContent e) (value e).

Definition with_classList (c : list string) (e : Element) : Element :=
  mkElement (tagName e) (isHTMLElement e) (parentElement e) (attributes e) c
            (hidden e) (textContent e) (value e).

Definition with_hidden (b : bool) (e : Element) : Element :=
  mkElement (tagName e) (isHTMLElement e) (parentElement e) (attributes e)
            (classList e) b (textContent e) (value e).

Definition with_textContent (t : string) (e : Element) : Element :=
  mkElement (tagName e) (isHTMLElement e) (parentElement e) (attributes e)
            (classList e) (hidden e) t (value e).

Definition with_value (v : string) (e : Element) : Element :=
  mkElement (tagName e) (isHTMLElement e) (parentElement e) (attributes e)
            (classList e) (hidden e) (textContent e) v.

(** *** Reading through a handle *)

Definition parentOf (d : Dom) (h : nat) : option nat :=
  d !! h ≫= parentElement.

Definition getAttribute (d : Dom) (h : nat) (name : string) : option string :=
  d !! h ≫= λ e, attributes e !! name.

(** [el.id]: the id attribute, the empty string when there is none. *)
Definition idOf (d : Dom) (h : nat) : string :=
  default "" (getAttribute d h "id").

Definition isHidden (d : Dom) (h : nat) : bool :=
  from_option hidden false (d !! h).

Definition textOf (d : Dom) (h : nat) : string :=
  from_option textContent "" (d !! h).

Definition classContains (d : Dom) (h : nat) (c : string) : bool :=
  from_option (λ e, bool_decide (c ∈ classList e)) false (d !! h).

Definition instanceofHTMLElement (d : Dom) (h : nat) : bool :=
  from_option isHTMLElement false (d !! h).

Definition instanceofHTMLButtonElement (d : Dom) (h : nat) : bool :=
  from_option (λ e, isHTMLElement e && String.eqb (tagName e) "button") false (d !! h).

(** *** Writing through a handle *)

Definition setAttribute (h : nat) (name v : string) (d : Dom) : Dom :=
  alter (λ e, with_attributes (<[name := v]> (attributes e)) e) h d.

Definition setHidden (h : nat) (b : bool) (d : Dom) : Dom :=
  alter (with_hidden b) h d.

(** The element children of [h] leave the tree; each keeps its own subtree. *)
Definition detachChildren (h : nat) (d : Dom) : Dom :=
  (λ e, if bool_decide (parentElement e = Some h) then with_parent None e else e) <$> d.

(** [el.textContent = t] replaces all children of the element by one text
    node: its element children are removed from the tree, and the text is
    what the model keeps of the child nodes that are not elements. *)
Definition setTextContent (h : nat) (t : string) (d : Dom) : Dom :=
  alter (with_textContent t) h (detachChildren h d).

Definition setValue (h : nat) (v : string) (d : Dom) : Dom :=
  alter (with_value v) h d.

(** [el.classList.remove(c)] *)
Definition classList_remove (h : nat) (c : string) (d : Dom) : Dom :=
  alter (λ e, with_classList (filter (λ x, x ≠ c) (classList e)) e) h d.

(** [el.classList.add(c)] *)
Definition classList_add (h : nat) (c : string) (d : Dom) : Dom :=
  alter (λ e, if bool_decide (c ∈ classList e) then e
              else with_classList (classList e ++ [c]) e) h d.

(** *** The tree: ancestors, connectedness, document order *)

(** The chain of proper ancestors of [h], nearest first. *)
Fixpoint ancestors_fuel (fuel : nat) (d : Dom) (h : nat) : list nat :=
  match fuel with
  | O => []
  | S fuel' =>
      match parentOf d h with
      | Some p => p :: ancestors_fuel fuel' d p
      | None => []
      end
  end.

Definition ancestors (d : Dom) (h : nat) : list nat :=
  ancestors_fuel (length d) d h.

(** The document element is the heap's first slot; an element is in the
    document when the document element is the element itself or one of its
    ancestors. *)
Definition documentElement (d : Dom) : option nat :=
  if d is _ :: _ then Some 0 else None.

Definition isConnected (d : Dom) (h : nat) : bool :=
  bool_decide (h < length d) && bool_decide (0 ∈ h :: ancestors d h).

(** [anc.contains(h)] for [h ≠ anc]: [anc] is a proper ancestor of [h]. *)
Definition isDescendant (d : Dom) (anc h : nat) : bool :=
  bool_decide (anc ∈ ancestors d h).

(** *** Selectors of the script *)

Inductive Selector :=
| SelId (id : string)                (* "#id" *)
| SelTag (tag : string)              (* "a" *)
| SelAttr (name : string)            (* "[name]" *)
| SelTagClass (tag cls : string).    (* "tag.cls" *)

Definition selector_text (s : Selector) : string :=
  match s with
  | SelId i => "#" +:+ i
  | SelTag t => t
  | SelAttr a => "[" +:+ a +:+ "]"
  | SelTagClass t c => t +:+ "." +:+ c
  end.

Definition matches (s : Selector) (e : Element) : bool :=
  match s with
  | SelId i => bool_decide (attributes e !! "id" = Some i)
  | SelTag t => String.eqb (tagName e) t
  | SelAttr a => bool_decide (is_Some (attributes e !! a))
  | SelTagClass t c => String.eqb (tagName e) t && bool_decide (c ∈ classList e)
  end.

Definition matchesAt (s : Selector) (d : Dom) (h : nat) : bool :=
  from_option (matches s) false (d !! h).

Definition handles (d : Dom) : list nat := seq 0 (length d).

(** [document.querySelectorAll(s)], in document order *)
Definition querySelectorAll (s : Selector) (d : Dom) : list nat :=
  filter (λ h, isConnected d h && matchesAt s d h) (handles d).

(** [document.querySelector(s)] *)
Definition querySelector (s : Selector) (d : Dom) : option nat :=
  head (querySelectorAll s d).

(** [root.querySelectorAll(s)]: the descendants of [root] that match *)
Definition querySelectorAll_in (root : nat) (s : Selector) (d : Dom) : list nat :=
  filter (λ h, isDescendant d root h && matchesAt s d h) (handles d).

(** [document.getElementById(id)]; no element has the empty id. *)
Definition getElementById (id : string) (d : Dom) : option nat :=
  if bool_decide (id = "") then None else querySelector (SelId id) d.

(** [el.closest(s)]: the nearest inclusive ancestor that matches *)
Definition closest (s : Selector) (d : Dom) (h : nat) : option nat :=
  head (filter (λ a, matchesAt s d a) (h :: ancestors d h)).

(** [el.nextElementSibling]: the first later element with the same parent *)
Definition nextElementSibling (d : Dom) (h : nat) : option nat :=
  match parentOf d h with
  | None => None
  | Some p =>
      head (filter (λ j, bool_decide (h < j) && bool_decide (parentOf d j = Some p))
                   (handles d))
  end.

(** [document.body]: the body child of the document element *)
Definition body (d : Dom) : option nat :=
  head (filter (λ h, bool_decide (parentOf d h = Some 0) && matchesAt (SelTag "body") d h)
               (handles d)).

(** *** Creating, attaching and detaching *)

(** [document.createElement(tag)]: a fresh detached HTML element *)
Definition createElement (tag : string) (d : Dom) : nat * Dom :=
  (length d, d ++ [mkElement tag true None ∅ [] false "" ""]).

(** [parent.appendChild(child)] for a detached [child] that is the newest
    element and a [parent] whose subtree ends the document, as
    [document.body] does: the child becomes the last element in document
    order. *)
Definition appendChild (parent child : nat) (d : Dom) : Dom :=
  alter (with_parent (Some parent)) child d.

(** [parent.removeChild(child)]: [None] stands for the NotFoundError
    raised when [child] is not a child of [parent]. *)
Definition removeChild (parent child : nat) (d : Dom) : option Dom :=
  if bool_decide (parentOf d child = Some parent)
  then Some (alter (with_parent None) child d)
  else None.

(** The children of [p], in document order *)
Definition childrenOf (d : Dom) (p : nat) : list nat :=
  filter (λ h, bool_decide (parentOf d h = Some p)) (handles d).

End Dom.

(** ** The JavaScript [Map] of the section spy

    Keys keep the order of their first insertion; [set] on a present key
    replaces its value in place. *)

Module JsMap.

Fixpoint set {V : Type} (k : string) (v : V) (m : list (string * V)) : list (string * V) :=
  match m with
  | [] => [(k, v)]
  | (k', v') :: r => if String.eqb k' k then (k', v) :: r else (k', v') :: set k v r
  end.

Fixpoint get {V : Type} (k : string) (m : list (string * V)) : option V :=
  match m with
  | [] => None
  | (k', v') :: r => if String.eqb k' k then Some v' else get k r
  end.

Definition keys {V : Type} (m : list (string * V)) : list string := m.*1.

End JsMap.

(** ** Page state *)

Import Dom.

(** [CopyTarget] of the script: the text to copy and the toast label. *)
Record CopyTarget := mkCopyTarget { text : string; label : string }.

(** What initTocSpy's closures capture. *)
Record TocSpy := mkTocSpy {
  toc : nat;
  links : list nat;
  idToLink : list (string * nat);
  sections : list nat
}.

Inductive Handler :=
| OnThemeClick
| OnTocClick (spy : TocSpy)
| OnAccordionClick
| OnCopyClick (target : CopyTarget)
| OnCopyAllClick
| OnScrollFlowClick
| OnBackTopClick.

(** [el.addEventListener("click", handler)] *)
Record Listener := mkListener { listensOn : nat; handler : Handler }.

(** The IntersectionObserver of initTocSpy with the elements it observes. *)
Record Observer := mkObserver {
  io_spy : TocSpy;
  io_threshold : list Q;
  io_observed : list nat
}.

(** A pending timeout; the script's only callback hides one element. *)
Record Timer := mkTimer { timer_id : nat; timer_due : nat; timer_hides : nat }.

Inductive Scroll :=
| ScrollIntoView (el : nat) (behavior block : string)
| ScrollTo (top : nat) (behavior : string).

(** The changes made to the tree, in the order they were made. *)
Inductive DomChange :=
| Created (el : nat) (tag : string)
| Appended (parent child : nat)
| Removed (parent child : nat).

Record Page := mkPage {
  dom : Dom;
  localStorage : gmap string string;
  matchMedia_light : option bool;  (* [None]: no window.matchMedia *)
  timers : list Timer;
  next_timer : nat;                (* timeout handles are fresh and positive *)
  toast_t : nat;                   (* [toast._t] *)
  clock : nat;                     (* milliseconds *)
  listeners : list Listener;
  observers : list Observer;
  scrolls : list Scroll;
  domLog : list DomChange
}.

Definition with_dom (f : Dom → Dom) (p : Page) : Page :=
  mkPage (f (dom p)) (localStorage p) (matchMedia_light p) (timers p) (next_timer p)
         (toast_t p) (clock p) (listeners p) (observers p) (scrolls p) (domLog p).

Definition with_localStorage (f : gmap string string → gmap string string) (p : Page) : Page :=
  mkPage (dom p) (f (localStorage p)) (matchMedia_light p) (timers p) (next_timer p)
         (toast_t p) (clock p) (listeners p) (observers p) (scrolls p) (domLog p).

Definition with_timers (f : list Timer → list Timer) (p : Page) : Page :=
  mkPage (dom p) (localStorage p) (matchMedia_light p) (f (timers p)) (next_timer p)
         (toast_t p) (clock p) (listeners p) (observers p) (scrolls p) (domLog p).

Definition with_next_timer (n : nat) (p : Page) : Page :=
  mkPage (dom p) (localStorage p) (matchMedia_light p) (timers p) n
         (toast_t p) (clock p) (listeners p) (observers p) (scrolls p) (domLog p).

Definition with_toast_t (t : nat) (p : Page) : Page :=
  mkPage (dom p) (localStorage p) (matchMedia_light p) (timers p) (next_timer p)
         t (clock p) (listeners p) (observers p) (scrolls p) (domLog p).

Definition with_clock (c : nat) (p : Page) : Page :=
  mkPage (dom p) (localStorage p) (matchMedia_light p) (timers p) (next_timer p)
         (toast_t p) c (listeners p) (observers p) (scrolls p) (domLog p).

Definition with_listeners (f : list Listener → list Listener) (p : Page) : Page :=
  mkPage (dom p) (localStorage p) (matchMedia_light p) (timers p) (next_timer p)
         (toast_t p) (clock p) (f (listeners p)) (observers p) (scrolls p) (domLog p).

Definition with_observers (f : list Observer → list Observer) (p : Page) : Page :=
  mkPage (dom p) (localStorage p) (matchMedia_light p) (timers p) (next_timer p)
         (toast_t p) (clock p) (listeners p) (f (observers p)) (scrolls p) (domLog p).

Definition with_domLog (f : list DomChange → list DomChange) (p : Page) : Page :=
  mkPage (dom p) (localStorage p) (matchMedia_light p) (timers p) (next_timer p)
         (toast_t p) (clock p) (listeners p) (observers p) (scrolls p) (f (domLog p)).

Definition with_scrolls (f : list Scroll → list Scroll) (p : Page) : Page :=
  mkPage (dom p) (localStorage p) (matchMedia_light p) (timers p) (next_timer p)
         (toast_t p) (clock p) (listeners p) (observers p) (f (scrolls p)) (domLog p).

(** The page as the script finds it when it is loaded: the parsed markup,
    the stored data, no timer, no listener, and [toast._t = 0]. *)
Definition load (d : Dom) (store : gmap string string) (mm : option bool) : Page :=
  mkPage d store mm [] 1 0 0 [] [] [] [].

(** ** Computations: state and thrown errors *)

Inductive Completion (A : Type) :=
| Normal (a : A)
| Throw (e : string).
Arguments Normal {A} a.
Arguments Throw {A} e.

Definition Js (A : Type) : Type := Page → Completion A * Page.

#[global] Instance Js_ret : MRet Js := λ A a p, (Normal a, p).

#[global] Instance Js_bind : MBind Js := λ A B f m p,
  match m p with
  | (Normal a, p') => f a p'
  | (Throw e, p') => (Throw e, p')
  end.

Definition throw {A : Type} (e : string) : Js A := λ p, (Throw e, p).

(** [try { m } catch (_) { h }] *)
Definition try_catch {A : Type} (m h : Js A) : Js A := λ p,
  match m p with
  | (Normal a, p') => (Normal a, p')
  | (Throw _, p') => h p'
  end.

Definition gets {A : Type} (f : Page → A) : Js A := λ p, (Normal (f p), p).

Definition modify (f : Page → Page) : Js unit := λ p, (Normal (), f p).

Definition modify_dom (f : Dom → Dom) : Js unit := modify (with_dom f).

(** A property access on [null] *)
Definition nonNull {A : Type} (what : string) (o : option A) : Js A :=
  match o with
  | Some a => mret a
  | None => throw ("TypeError: " +:+ what +:+ " is null")
  end.

Definition addEventListener (el : nat) (h : Handler) : Js unit :=
  modify (with_listeners (λ ls, ls ++ [mkListener el h])).

(** ** The script *)

(** *** mustQuery *)

Definition mustQuery (sel : Selector) : Js nat := λ p,
  match querySelector sel (dom p) with
  | Some el => (Normal el, p)
  | None => (Throw ("Missing element: " +:+ selector_text sel), p)
  end.

(** *** toast and its timer *)

(** [window.clearTimeout(id)]: nothing happens for a handle that is not pending. *)
Definition clearTimeout (id : nat) : Js unit :=
  modify (with_timers (filter (λ t, timer_id t ≠ id))).

(** [window.setTimeout(() => { el.hidden = true; }, delay)] *)
Definition setTimeout (el delay : nat) : Js nat := λ p,
  (Normal (next_timer p),
   with_next_timer (S (next_timer p))
     (with_timers (λ ts, ts ++ [mkTimer (next_timer p) (clock p + delay) el]) p)).

Definition toast (message : string) : Js unit :=
  el ← mustQuery (SelId "toast");
  modify_dom (setTextContent el message);;
  modify_dom (setHidden el false);;
  t ← gets toast_t;
  clearTimeout t;;
  t' ← setTimeout el 2200;
  modify (with_toast_t t').

(** The event loop runs the callback of a pending timeout that is due. *)
Definition fireTimer (id : nat) : Js unit := λ p,
  match filter (λ t, bool_decide (timer_id t = id) && bool_decide (timer_due t ≤ clock p))
               (timers p) with
  | t :: _ =>
      (Normal (),
       with_dom (setHidden (timer_hides t) true)
         (with_timers (filter (λ t', timer_id t' ≠ id)) p))
  | [] => (Normal (), p)
  end.

Definition advance (ms : nat) : Js unit :=
  modify (λ p, with_clock (clock p + ms) p).

(** *** copyToClipboard *)

(** How [navigator.clipboard.writeText] ends; a missing clipboard API throws
    inside the same [try] and is a rejection too. *)
Inductive WriteText := Resolved | Rejected.

(** [document.createElement(tag)] *)
Definition document_createElement (tag : string) : Js nat := λ p,
  let '(h, d) := createElement tag (dom p) in
  (Normal h, with_domLog (λ l, l ++ [Created h tag]) (with_dom (λ _, d) p)).

(** [parent.appendChild(child)] *)
Definition Node_appendChild (parent child : nat) : Js unit :=
  modify (λ p, with_domLog (λ l, l ++ [Appended parent child])
                 (with_dom (appendChild parent child) p)).

(** [parent.removeChild(child)] *)
Definition Node_removeChild (parent child : nat) : Js unit := λ p,
  match removeChild parent child (dom p) with
  | Some d =>
      (Normal (), with_domLog (λ l, l ++ [Removed parent child]) (with_dom (λ _, d) p))
  | None => (Throw "NotFoundError", p)
  end.

(** What the platform does at [ta.select(); document.execCommand("copy")]:
    the command answers whether it copied, or one of the two calls throws
    (a document without execCommand throws a TypeError there). *)
Inductive ExecCommand := Returns (ok : bool) | Throws (e : string).

Definition document_execCommand (x : ExecCommand) : Js bool := λ p,
  match x with
  | Returns ok => (Normal ok, p)
  | Throws e => (Throw e, p)
  end.

(** The [catch] block.  Nothing guards the calls between appendChild and
    removeChild: when they throw, the function ends there. *)
Definition legacyCopy (target : CopyTarget) (x : ExecCommand) : Js unit :=
  ta ← document_createElement "textarea";
  modify_dom (setValue ta (text target));;
  modify_dom (setAttribute ta "style" "position: fixed;");;
  modify_dom (setAttribute ta "style" "position: fixed; left: -9999px;");;
  b ← (λ p, nonNull "document.body" (body (dom p)) p);
  Node_appendChild b ta;;
  ok ← document_execCommand x;
  Node_removeChild b ta;;
  toast (if ok : bool then label target +:+ "：已复制"
         else label target +:+ "：复制失败（请手动复制）").

(** The body of copyToClipboard from the point where the awaited write has
    settled; before that point the function changes nothing.  An error that
    leaves the [catch] block rejects the promise the function returned. *)
Definition copyToClipboard (target : CopyTarget) (w : WriteText) (x : ExecCommand) : Js unit :=
  try_catch
    ((if w is Resolved then mret () else throw "NotAllowedError");;
     toast (label target +:+ "：已复制"))
    (legacyCopy target x).

(** *** Theme *)

Definition theme_key : string := "hacksong_theme".

Definition getTheme (p : Page) : string :=
  let v := localStorage p !! theme_key in
  if bool_decide (v = Some "light") then "light" else "dark".

Definition setTheme (theme : string) : Js unit :=
  root ← (λ p, nonNull "document.documentElement" (documentElement (dom p)) p);
  modify_dom (setAttribute root "data-theme" theme);;
  modify (with_localStorage (<[theme_key := theme]>));;
  toast (if String.eqb theme "light" then "主题：亮色" else "主题：暗色").

Definition onThemeClick : Js unit :=
  t ← gets getTheme;
  let next := if String.eqb t "dark" then "light" else "dark" in
  setTheme next.

(** [!saved]: [null] and the empty string are falsy. *)
Definition falsy (v : option string) : bool :=
  match v with
  | None => true
  | Some s => bool_decide (s = "")
  end.

Definition initThemeToggle : Js unit :=
  saved ← gets (λ p, localStorage p !! theme_key);
  root ← (λ p, nonNull "document.documentElement" (documentElement (dom p)) p);
  (if falsy saved then
     mm ← gets matchMedia_light;
     let prefersLight := default false mm in
     modify_dom (setAttribute root "data-theme" (if prefersLight then "light" else "dark"))
   else
     t ← gets getTheme;
     modify_dom (setAttribute root "data-theme" t));;
  d ← gets dom;
  match getElementById "toggleTheme" d with
  | Some btn =>
      if instanceofHTMLButtonElement d btn then addEventListener btn OnThemeClick
      else mret ()
  | None => mret ()
  end.

(** [document.documentElement.dataset.theme] *)
Definition appliedTheme (p : Page) : option string :=
  documentElement (dom p) ≫= λ root, getAttribute (dom p) root "data-theme".

(** *** Section spy *)

(** [Array.prototype.sort(cmp)]: a stable sort; [a] goes before [b] when
    [cmp a b < 0] and elements that compare equal keep their order. *)
Fixpoint sort_insert {A : Type} (cmp : A → A → Q) (x : A) (l : list A) : list A :=
  match l with
  | [] => [x]
  | y :: r => if Qle_bool (cmp x y) 0 then x :: y :: r else y :: sort_insert cmp x r
  end.

Definition Array_sort {A : Type} (cmp : A → A → Q) (l : list A) : list A :=
  foldr (sort_insert cmp) [] l.

(** An IntersectionObserverEntry *)
Record Entry := mkEntry {
  isIntersecting : bool;
  intersectionRatio : Q;
  target : nat
}.

(** [x || 0] on a number: zero is the falsy one. *)
Definition or0 (x : Q) : Q := if Qeq_bool x 0 then 0%Q else x.

Definition byRatioDesc (a b : Entry) : Q :=
  (or0 (intersectionRatio b) - or0 (intersectionRatio a))%Q.

Definition indexLink (d : Dom) (m : list (string * nat)) (a : nat) : list (string * nat) :=
  let id := JsString.href_key (getAttribute d a "href") in
  if bool_decide (id = "") then m else JsMap.set id a m.

(** The constants that initTocSpy computes from the document. *)
Definition tocSpy (tocEl : nat) (d : Dom) : TocSpy :=
  let links := querySelectorAll_in tocEl (SelTag "a") d in
  let idToLink := foldl (indexLink d) [] links in
  let sections := omap (λ id, getElementById id d) (JsMap.keys idToLink) in
  mkTocSpy tocEl links idToLink sections.

Definition setActive (spy : TocSpy) (activeId : string) (d : Dom) : Dom :=
  let d' := foldl (λ d a, classList_remove a "is-active" d) d (links spy) in
  match JsMap.get activeId (idToLink spy) with
  | Some active => classList_add active "is-active" d'
  | None => d'
  end.

(** The IntersectionObserver callback *)
Definition onIntersect (spy : TocSpy) (entries : list Entry) (d : Dom) : Dom :=
  let visible := Array_sort byRatioDesc (filter (λ e, isIntersecting e = true) entries) in
  match visible with
  | top :: _ =>
      let id := idOf d (target top) in
      if bool_decide (id = "") then d else setActive spy id d
  | [] => d
  end.

Definition thresholds : list Q := [15 # 100; 25 # 100; 35 # 100; 5 # 10; 65 # 100]%Q.

(** The click listener of the table of contents; the result tells whether
    [e.preventDefault()] was called. *)
Definition onTocClick (spy : TocSpy) (tgt : nat) : Js bool :=
  d ← gets dom;
  let a := if instanceofHTMLElement d tgt then closest (SelTag "a") d tgt else None in
  match a with
  | None => mret false
  | Some a =>
      let href := default "" (getAttribute d a "href") in
      if negb (JsString.startsWith_hash href) then mret false
      else
        let id := JsString.slice1 href in
        match getElementById id d with
        | None => mret false
        | Some section =>
            modify (with_scrolls (λ s, s ++ [ScrollIntoView section "smooth" "start"]));;
            modify_dom (setActive spy id);;
            mret true
        end
  end.

Definition initTocSpy : Js unit :=
  tocEl ← mustQuery (SelId "toc");
  d ← gets dom;
  let spy := tocSpy tocEl d in
  modify (with_observers (λ os, os ++ [mkObserver spy thresholds (sections spy)]));;
  addEventListener tocEl (OnTocClick spy).

(** *** Accordion *)

Definition onAccordionClick (tgt : nat) : Js unit :=
  d ← gets dom;
  let btn := if instanceofHTMLElement d tgt
             then closest (SelTagClass "button" "acc__item") d tgt else None in
  match btn with
  | None => mret ()
  | Some btn =>
      match nextElementSibling d btn with
      | None => mret ()
      | Some panel =>
          if negb (instanceofHTMLElement d panel) then mret ()
          else
            let expanded := bool_decide (getAttribute d btn "aria-expanded" = Some "true") in
            modify_dom (setAttribute btn "aria-expanded" (if expanded then "false" else "true"));;
            modify_dom (setHidden panel expanded)
      end
  end.

Definition initAccordion : Js unit :=
  d ← gets dom;
  match querySelector (SelAttr "data-accordion") d with
  | None => mret ()
  | Some root => addEventListener root OnAccordionClick
  end.

(** *** Copy buttons *)

Definition bind (id label : string) : Js unit :=
  d ← gets dom;
  match getElementById id d with
  | Some btn =>
      if instanceofHTMLButtonElement d btn then
        let text := default "" (getAttribute d btn "data-copy") in
        addEventListener btn (OnCopyClick (mkCopyTarget text label))
      else mret ()
  | None => mret ()
  end.

Definition newline : string := String (Ascii.ascii_of_nat 10) EmptyString.

(** [lines.join("\n")] *)
Fixpoint join (sep : string) (l : list string) : string :=
  match l with
  | [] => ""
  | [x] => x
  | x :: r => x +:+ sep +:+ join sep r
  end.

Definition allLinks : CopyTarget :=
  let lines :=
    [ "【报名链接占位】";
      "【项目仓库占位】";
      "【资料链接占位：赛题/规则/资源】";
      "【交流渠道占位：群/飞书/Discord】" ] in
  mkCopyTarget (join newline lines) "链接占位合集".

Definition initCopyButtons : Js unit :=
  bind "copySignup" "报名入口";;
  bind "copyRepo" "模板仓库";;
  bind "copyChecklist" "交付清单";;
  d ← gets dom;
  match getElementById "copyAllLinks" d with
  | Some all =>
      if instanceofHTMLButtonElement d all then addEventListener all OnCopyAllClick
      else mret ()
  | None => mret ()
  end.

(** *** Quick scroll *)

Definition onScrollFlowClick : Js unit :=
  d ← gets dom;
  match getElementById "flow" d with
  | None => mret ()
  | Some flow => modify (with_scrolls (λ s, s ++ [ScrollIntoView flow "smooth" "start"]))
  end.

Definition onBackTopClick : Js unit :=
  modify (with_scrolls (λ s, s ++ [ScrollTo 0 "smooth"])).

Definition initQuickScroll : Js unit :=
  d ← gets dom;
  (match getElementById "scrollFlow" d with
   | Some scrollFlow =>
       if instanceofHTMLButtonElement d scrollFlow
       then addEventListener scrollFlow OnScrollFlowClick else mret ()
   | None => mret ()
   end);;
  match getElementById "backTop" d with
  | Some backTop =>
      if instanceofHTMLButtonElement d backTop
      then addEventListener backTop OnBackTopClick else mret ()
  | None => mret ()
  end.

(** *** Entry point *)

Definition main : Js unit :=
  initThemeToggle;;
  initTocSpy;;
  initAccordion;;
  initCopyButtons;;
  initQuickScroll.

(** ** Vocabulary of the statements *)

(** An element without its text, value and hidden flag: its tag,
    interface, parent, attributes and classes. *)
Definition skeleton (e : Element) :
    string * bool * option nat * gmap string string * list string :=
  (tagName e, isHTMLElement e, parentElement e, attributes e, classList e).

(** What can happen to the toast: a call, time passing, the event loop
    running the callback of a timeout. *)
Inductive ToastEvent :=
| CallToast (message : string)
| TimePasses (ms : nat)
| TimerFires (id : nat).

Definition toastStep (p : Page) (ev : ToastEvent) : Page :=
  match ev with
  | CallToast message => (toast message p).2
  | TimePasses ms => (advance ms p).2
  | TimerFires id => (fireTimer id p).2
  end.

Definition toastRun (evs : list ToastEvent) (p : Page) : Page :=
  foldl toastStep p evs.

(** At most one timeout is pending, and it is the one [toast._t] names. *)
Definition oneTimer (p : Page) : Prop :=
  toast_t p < next_timer p ∧
  (timers p = [] ∨ ∃ due el, timers p = [mkTimer (toast_t p) due el]).

(** The textarea as the fallback leaves it when execCommand has returned:
    filled, styled, detached. *)
Definition usedTextarea (target : CopyTarget) : Element :=
  mkElement "textarea" true None {["style" := "position: fixed; left: -9999px;"]}
            [] false "" (text target).

(** The textarea as the fallback leaves it when execCommand has thrown:
    still a child of the body. *)
Definition attachedTextarea (b : nat) (target : CopyTarget) : Element :=
  with_parent (Some b) (usedTextarea target).

(** The part of an element that no assignment of textContent touches, be it
    the element assigned to or one of its children. *)
Definition shape (e : Element) : string * bool * gmap string string * list string :=
  (tagName e, isHTMLElement e, attributes e, classList e).

(** Parents come before their children in the heap: so the parser lays the
    markup out, and so appendChild keeps it for an element created later. *)
Definition wellFormed (d : Dom) : Prop :=
  ∀ h a, parentOf d h = Some a → a < h.

(** What the section spy reacts to: an observer callback or a click
    inside the table of contents. *)
Inductive SpyEvent :=
| Intersection (entries : list Entry)
| TocClick (tgt : nat).

Definition spyStep (spy : TocSpy) (p : Page) (ev : SpyEvent) : Page :=
  match ev with
  | Intersection entries => with_dom (onIntersect spy entries) p
  | TocClick tgt => (onTocClick spy tgt p).2
  end.

(** [a.classList.contains("is-active")] *)
Definition isActive (d : Dom) (l : nat) : bool := classContains d l "is-active".

(** The links of the table of contents that carry the active marker *)
Definition activeLinks (spy : TocSpy) (d : Dom) : list nat :=
  filter (λ l, isActive d l = true) (links spy).




(** What the section spy reads of an element *)
Definition spyView (e : Element) : string * option nat * option string * option string :=
  (tagName e, parentElement e, attributes e !! "id", attributes e !! "href").

(** Everything of the page but its listeners and observers *)
Definition quiet (p p' : Page) : Prop :=
  dom p' = dom p ∧ localStorage p' = localStorage p ∧
  matchMedia_light p' = matchMedia_light p ∧ timers p' = timers p ∧
  next_timer p' = next_timer p ∧ toast_t p' = toast_t p ∧ clock p' = clock p ∧
  scrolls p' = scrolls p ∧ domLog p' = domLog p.

(** The ids and labels initCopyButtons binds *)
Definition copyButtons : list (string * string) :=
  [("copySignup", "报名入口"); ("copyRepo", "模板仓库"); ("copyChecklist", "交付清单")].

(** A listener sits where its initializer looks its element up in [d]. *)
Definition registered (d : Dom) (l : Listener) : Prop :=
  let el := listensOn l in
  match handler l with
  | OnThemeClick =>
      getElementById "toggleTheme" d = Some el ∧ instanceofHTMLButtonElement d el = true
  | OnTocClick spy =>
      querySelector (SelId "toc") d = Some el ∧ spy = tocSpy el d
  | OnAccordionClick =>
      querySelector (SelAttr "data-accordion") d = Some el
  | OnCopyClick target =>
      ∃ id, (id, label target) ∈ copyButtons ∧
            getElementById id d = Some el ∧ instanceofHTMLButtonElement d el = true ∧
            text target = default "" (getAttribute d el "data-copy")
  | OnCopyAllClick =>
      getElementById "copyAllLinks" d = Some el ∧ instanceofHTMLButtonElement d el = true
  | OnScrollFlowClick =>
      getElementById "scrollFlow" d = Some el ∧ instanceofHTMLButtonElement d el = true
  | OnBackTopClick =>
      getElementById "backTop" d = Some el ∧ instanceofHTMLButtonElement d el = true
  end.

(** The toast element, when there is one, holds no element and is not the
    body: so the markup of the page has it, an empty box for the message. *)
Definition toastLeaf (d : Dom) : Prop :=
  ∀ el, querySelector (SelId "toast") d = Some el →
        body d ≠ Some el ∧ ∀ h, parentOf d h ≠ Some el.

(** A page the handlers are written for: a well-formed, non-empty heap, at
    most the toast's timer pending, and the toast element an empty box. *)
Definition pageOk (p : Page) : Prop :=
  wellFormed (dom p) ∧ dom p ≠ [] ∧ oneTimer p ∧ toastLeaf (dom p).

(** One settled clipboard write: the target, how the write ended, and what
    the legacy command does if it is reached *)
Definition CopyCall : Type := CopyTarget * WriteText * ExecCommand.

Definition copyStep (p : Page) (c : CopyCall) : Page :=
  (copyToClipboard c.1.1 c.1.2 c.2 p).2.

(** The toast text copyToClipboard ends with when the write ended as [w]
    and execCommand, if reached, answered [ok] *)
Definition copyMessage (target : CopyTarget) (w : WriteText) (ok : bool) : string :=
  match w, ok with
  | Rejected, false => label target +:+ "：复制失败（请手动复制）"
  | _, _ => label target +:+ "：已复制"
  end.

(** What the copy needs of the page and keeps: a page as above with its
    body and its toast element. *)
Definition copyReady (b el : nat) (p : Page) : Prop :=
  pageOk p ∧ body (dom p) = Some b ∧ querySelector (SelId "toast") (dom p) = Some el.

(** What setActive does to one element: the marker is taken from a link
    and given to the link indexed under the id. *)
Definition unmark (e : Element) : Element :=
  with_classList (filter (λ x, x ≠ "is-active") (classList e)) e.

Definition mark (e : Element) : Element :=
  if bool_decide ("is-active" ∈ classList e) then e
  else with_classList (classList e ++ ["is-active"]) e.

(** A string that neither starts nor ends with white space *)
Definition cleanEnds (s : string) : Prop :=
  JsString.strip_any JsString.white_space s = None ∧
  JsString.strip_any (map String.rev JsString.white_space) (String.rev s) = None.

(** Everything that can run after startup: the handlers the script has
    registered, the continuation of a copy, and the toast's timer. *)
Inductive PageEvent :=
| ThemeClicked
| TocClicked (tgt : nat)
| Intersected (entries : list Entry)
| AccordionClicked (tgt : nat)
| CopySettled (c : CopyCall)
| ScrollFlowClicked
| BackTopClicked
| ToastTimerFired (id : nat)
| TimePassed (ms : nat).

Definition pageStep (spy : TocSpy) (p : Page) (ev : PageEvent) : Page :=
  match ev with
  | ThemeClicked => (onThemeClick p).2
  | TocClicked tgt => (onTocClick spy tgt p).2
  | Intersected entries => with_dom (onIntersect spy entries) p
  | AccordionClicked tgt => (onAccordionClick tgt p).2
  | CopySettled c => copyStep p c
  | ScrollFlowClicked => (onScrollFlowClick p).2
  | BackTopClicked => (onBackTopClick p).2
  | ToastTimerFired id => (fireTimer id p).2
  | TimePassed ms => (advance ms p).2
  end.

(** The scroll requests the script makes *)
Definition smooth (s : Scroll) : Prop :=
  match s with
  | ScrollIntoView _ behavior block => behavior = "smooth" ∧ block = "start"
  | ScrollTo top behavior => top = 0 ∧ behavior = "smooth"
  end.

(** What a step keeps of a page, relative to the table-of-contents
    element [t]: the listeners and observers always, and on a page the
    handlers are written for also its being one, its body and toast
    element, the index of the section spy, and of every element it had the
    tag, the parent, the id and the href. *)
Definition keeps (t : nat) (p p' : Page) : Prop :=
  listeners p' = listeners p ∧ observers p' = observers p ∧
  matchMedia_light p' = matchMedia_light p ∧
  (pageOk p →
   pageOk p' ∧ body (dom p') = body (dom p) ∧
   querySelector (SelId "toast") (dom p') = querySelector (SelId "toast") (dom p) ∧
   tocSpy t (dom p') = tocSpy t (dom p) ∧
   spyView <$> take (length (dom p)) (dom p') = spyView <$> dom p).

(** How the heap can differ after a step: it never shrinks; an element it
    had keeps its tag, id and href, and its parent or none at all; an
    element it has gained is a textarea without a parent or with a body
    element as its parent. *)
Definition grows (d d' : Dom) : Prop :=
  length d ≤ length d' ∧
  (∀ h e, d !! h = Some e →
     ∃ e', d' !! h = Some e' ∧ tagName e' = tagName e ∧
           attributes e' !! "id" = attributes e !! "id" ∧
           attributes e' !! "href" = attributes e !! "href" ∧
           (parentElement e' = parentElement e ∨ parentElement e' = None)) ∧
  (∀ h e', length d ≤ h → d' !! h = Some e' →
     tagName e' = "textarea" ∧
     (parentElement e' = None ∨
      ∃ b, parentElement e' = Some b ∧ matchesAt (SelTag "body") d' b = true)).

(** ** A sample page

    The markup the script is written for, cut down to one element of each
    kind it looks for; handles are the positions in the list. *)

Module Sample.

Definition el (tag : string) (parent : option nat) (attrs : list (string * string))
    (cls : list string) (hid : bool) : Element :=
  mkElement tag true parent (list_to_map attrs) cls hid "" "".

Definition page : Dom :=
  [ (* 0 *) el "html" None [] [] false;
    (* 1 *) el "head" (Some 0) [] [] false;
    (* 2 *) el "body" (Some 0) [] [] false;
    (* 3 *) el "nav" (Some 2) [("id", "toc")] [] false;
    (* 4 *) el "a" (Some 3) [("href", "#intro")] ["is-active"] false;
    (* 5 *) el "a" (Some 3) [("href", "#flow")] [] false;
    (* 6 *) el "a" (Some 3) [("href", "https://example.org/")] [] false;
    (* 7 *) el "section" (Some 2) [("id", "intro")] [] false;
    (* 8 *) el "section" (Some 2) [("id", "flow")] [] false;
    (* 9 *) el "section" (Some 2) [("id", "faq"); ("data-accordion", "")] [] false;
    (* 10 *) el "button" (Some 9) [("aria-expanded", "false")] ["acc__item"] false;
    (* 11 *) el "div" (Some 9) [] ["acc__panel"] true;
    (* 12 *) el "button" (Some 2) [("id", "toggleTheme")] [] false;
    (* 13 *) el "button" (Some 2)
               [("id", "copySignup"); ("data-copy", "https://example.org/signup")] [] false;
    (* 14 *) el "div" (Some 2) [("id", "toast")] [] true ].

(** The same page without its toast element *)
Definition page_without_toast : Dom := take 14 page.

(** A document that is only its root element *)
Definition bare : Dom := [el "html" None [] [] false].

Definition spy : TocSpy := tocSpy 3 page.

(** A table of contents with a link to a section, a link whose fragment
    names no element, and a link to another site *)
Definition toc_page : Dom :=
  [ (* 0 *) el "html" None [] [] false;
    (* 1 *) el "body" (Some 0) [] [] false;
    (* 2 *) el "nav" (Some 1) [("id", "toc")] [] false;
    (* 3 *) el "a" (Some 2) [("href", "#intro")] [] false;
    (* 4 *) el "a" (Some 2) [("href", "#missing")] [] false;
    (* 5 *) el "a" (Some 2) [("href", "https://example.org/")] [] false;
    (* 6 *) el "section" (Some 1) [("id", "intro")] [] false ].

(** A table of contents that links the same section twice *)
Definition twice_page : Dom :=
  [ (* 0 *) el "html" None [] [] false;
    (* 1 *) el "body" (Some 0) [] [] false;
    (* 2 *) el "nav" (Some 1) [("id", "toc")] [] false;
    (* 3 *) el "a" (Some 2) [("href", "#intro")] [] false;
    (* 4 *) el "a" (Some 2) [("href", "#intro")] [] false;
    (* 5 *) el "section" (Some 1) [("id", "intro")] [] false ].

(** A link of the table of contents and an accordion trigger that each
    hold an svg icon, which is an element but not an HTMLElement *)
Definition icon_page : Dom :=
  [ (* 0 *) el "html" None [] [] false;
    (* 1 *) el "body" (Some 0) [] [] false;
    (* 2 *) el "nav" (Some 1) [("id", "toc")] [] false;
    (* 3 *) el "a" (Some 2) [("href", "#faq")] [] false;
    (* 4 *) mkElement "svg" false (Some 3) ∅ [] false "" "";
    (* 5 *) el "section" (Some 1) [("id", "faq"); ("data-accordion", "")] [] false;
    (* 6 *) el "button" (Some 5) [("aria-expanded", "false")] ["acc__item"] false;
    (* 7 *) mkElement "svg" false (Some 6) ∅ [] false "" "";
    (* 8 *) el "div" (Some 5) [] ["acc__panel"] true ].

(** Markup that marks two links of the table of contents as active *)
Definition two_marked_page : Dom :=
  [ (* 0 *) el "html" None [] [] false;
    (* 1 *) el "body" (Some 0) [] [] false;
    (* 2 *) el "nav" (Some 1) [("id", "toc")] [] false;
    (* 3 *) el "a" (Some 2) [("href", "#intro")] ["is-active"] false;
    (* 4 *) el "a" (Some 2) [("href", "#flow")] ["is-active"] false;
    (* 5 *) el "a" (Some 2) [("href", "https://example.org/")] [] false;
    (* 6 *) el "section" (Some 1) [("id", "intro")] [] false;
    (* 7 *) el "section" (Some 1) [("id", "flow")] [] false ].

End Sample.

(** * Verification *)

(** ** Facts about the DOM model *)

Section DomFacts.

Implicit Types (d : Dom) (h i : nat) (e x : Element).

(** What a query sees of the heap: the parent pointers and, per selector,
    which elements match. *)
Lemma parentOf_ext d d' h :
  parentElement <$> d = parentElement <$> d' → parentOf d h = parentOf d' h.
Proof.
  intros H. unfold parentOf.
  assert (Hi : (parentElement <$> d) !! h = (parentElement <$> d') !! h) by (by rewrite H).
  rewrite !list_lookup_fmap in Hi.
  destruct (d !! h), (d' !! h); simpl in *; congruence.
Qed.

Lemma length_ext {B : Type} (f : Element → B) d d' :
  f <$> d = f <$> d' → length d = length d'.
Proof. intros H. by rewrite <- (length_fmap f d), H, length_fmap. Qed.

Lemma ancestors_fuel_ext n d d' h :
  parentElement <$> d = parentElement <$> d' →
  ancestors_fuel n d h = ancestors_fuel n d' h.
Proof.
  intros H. revert h. induction n as [|n IH]; intros h; simpl; [done|].
  rewrite (parentOf_ext d d' h H). destruct (parentOf d' h); [|done].
  by rewrite IH.
Qed.

Lemma ancestors_ext d d' h :
  parentElement <$> d = parentElement <$> d' → ancestors d h = ancestors d' h.
Proof.
  intros H. unfold ancestors. rewrite (length_ext _ _ _ H).
  by apply ancestors_fuel_ext.
Qed.

Lemma matchesAt_ext s d d' h :
  matches s <$> d = matches s <$> d' → matchesAt s d h = matchesAt s d' h.
Proof.
  intros H. unfold matchesAt.
  assert (Hi : (matches s <$> d) !! h = (matches s <$> d') !! h) by (by rewrite H).
  rewrite !list_lookup_fmap in Hi.
  destruct (d !! h), (d' !! h); simpl in *; congruence.
Qed.

Lemma isConnected_ext d d' h :
  parentElement <$> d = parentElement <$> d' → isConnected d h = isConnected d' h.
Proof.
  intros H. unfold isConnected.
  by rewrite (length_ext _ _ _ H), (ancestors_ext _ _ _ H).
Qed.

Lemma querySelectorAll_ext s d d' :
  parentElement <$> d = parentElement <$> d' →
  matches s <$> d = matches s <$> d' →
  querySelectorAll s d = querySelectorAll s d'.
Proof.
  intros Hp Hm. unfold querySelectorAll, handles.
  rewrite (length_ext _ _ _ Hp).
  apply list_filter_iff. intros h.
  by rewrite (isConnected_ext _ _ _ Hp), (matchesAt_ext _ _ _ _ Hm).
Qed.

Lemma querySelector_ext s d d' :
  parentElement <$> d = parentElement <$> d' →
  matches s <$> d = matches s <$> d' →
  querySelector s d = querySelector s d'.
Proof. intros Hp Hm. unfold querySelector. by rewrite (querySelectorAll_ext s d d'). Qed.

(** An update through a handle leaves alone every projection it does not touch. *)
Lemma fmap_alter_inv {B : Type} (proj : Element → B) (f : Element → Element) h d :
  (∀ e, proj (f e) = proj e) → proj <$> alter f h d = proj <$> d.
Proof.
  intros Hf. apply list_eq. intros i.
  rewrite !list_lookup_fmap.
  destruct (decide (h = i)) as [->|Hne].
  - rewrite list_lookup_alter_eq. destruct (d !! i); simpl; [by rewrite Hf|done].
  - by rewrite list_lookup_alter_ne.
Qed.

Lemma skeleton_proj {B : Type} (g : _ → B) d d' :
  skeleton <$> d = skeleton <$> d' → (g ∘ skeleton) <$> d = (g ∘ skeleton) <$> d'.
Proof. intros H. by rewrite !(list_fmap_compose skeleton g), H. Qed.

Lemma skeleton_attributes d d' :
  skeleton <$> d = skeleton <$> d' → attributes <$> d = attributes <$> d'.
Proof. exact (skeleton_proj (λ s, s.1.2) d d'). Qed.

Lemma skeleton_parent d d' :
  skeleton <$> d = skeleton <$> d' → parentElement <$> d = parentElement <$> d'.
Proof. exact (skeleton_proj (λ s, s.1.1.2) d d'). Qed.

Lemma skeleton_matches s d d' :
  skeleton <$> d = skeleton <$> d' → matches s <$> d = matches s <$> d'.
Proof.
  destruct s; simpl.
  - exact (skeleton_proj (λ s, bool_decide (s.1.2 !! "id" = Some id)) d d').
  - exact (skeleton_proj (λ s, String.eqb s.1.1.1.1 tag) d d').
  - exact (skeleton_proj (λ s, bool_decide (is_Some (s.1.2 !! name))) d d').
  - exact (skeleton_proj (λ s, String.eqb s.1.1.1.1 tag && bool_decide (cls ∈ s.2)) d d').
Qed.

Lemma getAttribute_ext d d' h n :
  attributes <$> d = attributes <$> d' → getAttribute d h n = getAttribute d' h n.
Proof.
  intros H. unfold getAttribute.
  assert (Hi : (attributes <$> d) !! h = (attributes <$> d') !! h) by (by rewrite H).
  rewrite !list_lookup_fmap in Hi.
  destruct (d !! h), (d' !! h); simpl in *; congruence.
Qed.

Lemma getAttribute_setAttribute d h n v :
  h < length d → getAttribute (setAttribute h n v d) h n = Some v.
Proof.
  intros Hlt. unfold getAttribute, setAttribute.
  rewrite list_lookup_alter_eq.
  destruct (lookup_lt_is_Some_2 d h Hlt) as [e ->]. simpl.
  by rewrite lookup_insert_eq.
Qed.

Lemma filter_iff_in {A : Type} (P Q : A → Prop) `{∀ a, Decision (P a)} `{∀ a, Decision (Q a)}
    (l : list A) :
  (∀ a, a ∈ l → (P a ↔ Q a)) → filter P l = filter Q l.
Proof.
  induction l as [|a l IH]; intros Hl; [done|].
  rewrite !filter_cons.
  rewrite IH by (intros b Hb; apply Hl; by right).
  destruct (decide (P a)) as [HP|HP], (decide (Q a)) as [HQ|HQ]; try done.
  - apply Hl in HP; [done|by left].
  - apply Hl in HQ; [done|by left].
Qed.

Lemma alter_snoc (f : Element → Element) d x :
  alter f (length d) (d ++ [x]) = d ++ [f x].
Proof.
  replace (length d) with (length d + 0) by lia.
  by rewrite alter_app_r.
Qed.

Lemma parentOf_snoc d x h :
  parentOf (d ++ [x]) h =
  if decide (h = length d) then parentElement x else parentOf d h.
Proof.
  unfold parentOf. destruct (decide (h = length d)) as [->|Hne].
  - by rewrite list_lookup_middle.
  - destruct (decide (h < length d)).
    + by rewrite lookup_app_l.
    + rewrite !lookup_ge_None_2; [done|lia|rewrite length_app; simpl; lia].
Qed.

Lemma matchesAt_snoc s d x h :
  h < length d → matchesAt s (d ++ [x]) h = matchesAt s d h.
Proof. intros Hlt. unfold matchesAt. by rewrite lookup_app_l. Qed.

Lemma handles_snoc d x : handles (d ++ [x]) = handles d ++ [length d].
Proof. unfold handles. rewrite length_app. simpl. by rewrite seq_app. Qed.

Lemma body_snoc_detached d x :
  parentElement x = None → body (d ++ [x]) = body d.
Proof.
  intros Hx. unfold body. rewrite handles_snoc, filter_app, filter_singleton; [|exact []].
  rewrite decide_False.
  - rewrite app_nil_r. f_equal. apply filter_iff_in. intros h Hh.
    apply elem_of_seq in Hh.
    rewrite parentOf_snoc, decide_False by lia.
    by rewrite matchesAt_snoc by lia.
  - rewrite parentOf_snoc, decide_True, Hx by done. simpl. tauto.
Qed.

Lemma childrenOf_snoc_detached d x b :
  parentElement x = None → childrenOf (d ++ [x]) b = childrenOf d b.
Proof.
  intros Hx. unfold childrenOf. rewrite handles_snoc, filter_app, filter_singleton; [|exact []].
  rewrite decide_False.
  - rewrite app_nil_r. apply filter_iff_in. intros h Hh.
    apply elem_of_seq in Hh.
    by rewrite parentOf_snoc, decide_False by lia.
  - rewrite parentOf_snoc, decide_True, Hx by done. simpl. tauto.
Qed.

Lemma childrenOf_ext d d' b :
  parentElement <$> d = parentElement <$> d' → childrenOf d b = childrenOf d' b.
Proof.
  intros H. unfold childrenOf, handles. rewrite (length_ext _ _ _ H).
  apply list_filter_iff. intros h. by rewrite (parentOf_ext _ _ _ H).
Qed.

Lemma body_lt d b : body d = Some b → b < length d.
Proof.
  unfold body, handles. intros H.
  apply head_Some_elem_of, list_elem_of_filter in H as [_ Hin].
  apply elem_of_seq in Hin. lia.
Qed.

Lemma isConnected_detached d h :
  0 < h → parentOf d h = None → isConnected d h = false.
Proof.
  intros Hpos Hp. unfold isConnected.
  apply andb_false_iff. right. apply bool_decide_eq_false_2.
  unfold ancestors. destruct (length d) as [|n]; simpl; [|rewrite Hp];
    intros H; apply list_elem_of_singleton in H; lia.
Qed.

(** Under [wellFormed] the fuel of [ancestors] never runs out: the chain
    ends at an element without a parent. *)
Lemma ancestors_fuel_enough d n m h :
  wellFormed d → h < n → h < m → ancestors_fuel n d h = ancestors_fuel m d h.
Proof.
  intros Hwf. revert n m. induction h as [h IH] using lt_wf_ind. intros n m Hn Hm.
  destruct n as [|n], m as [|m]; try lia. simpl.
  destruct (parentOf d h) as [a|] eqn:Ha; [|done].
  pose proof (Hwf _ _ Ha). f_equal. apply IH; lia.
Qed.

Lemma ancestors_complete d h :
  wellFormed d → h < length d →
  ∃ top, last (h :: ancestors d h) = Some top ∧ parentOf d top = None.
Proof.
  intros Hwf Hlt. unfold ancestors.
  rewrite (ancestors_fuel_enough d (length d) (S h) h Hwf) by lia.
  clear Hlt. induction h as [h IH] using lt_wf_ind. simpl.
  destruct (parentOf d h) as [a|] eqn:Ha.
  - pose proof (Hwf _ _ Ha) as Hlt. destruct (IH a Hlt) as (top & Hl & Ht).
    exists top. split; [|done].
    rewrite (ancestors_fuel_enough d h (S a) a Hwf) by lia.
    by rewrite last_cons_cons.
  - by exists h.
Qed.

Lemma sample_wellFormed : wellFormed Sample.page.
Proof.
  intros h a. do 15 (destruct h as [|h]; [vm_compute; intros [= <-]; lia|]).
  unfold parentOf. rewrite lookup_ge_None_2; [done|simpl; lia].
Qed.

(** *** Assigning textContent *)

Lemma shape_proj {B : Type} (g : _ → B) d d' :
  shape <$> d = shape <$> d' → (g ∘ shape) <$> d = (g ∘ shape) <$> d'.
Proof. intros H. by rewrite !(list_fmap_compose shape g), H. Qed.

Lemma shape_attributes d d' :
  shape <$> d = shape <$> d' → attributes <$> d = attributes <$> d'.
Proof. exact (shape_proj (λ s, s.1.2) d d'). Qed.

Lemma shape_matches s d d' :
  shape <$> d = shape <$> d' → matches s <$> d = matches s <$> d'.
Proof.
  destruct s; simpl.
  - exact (shape_proj (λ s, bool_decide (s.1.2 !! "id" = Some id)) d d').
  - exact (shape_proj (λ s, String.eqb s.1.1.1 tag) d d').
  - exact (shape_proj (λ s, bool_decide (is_Some (s.1.2 !! name))) d d').
  - exact (shape_proj (λ s, String.eqb s.1.1.1 tag && bool_decide (cls ∈ s.2)) d d').
Qed.

Lemma skeleton_shape d d' :
  skeleton <$> d = skeleton <$> d' → shape <$> d = shape <$> d'.
Proof. exact (skeleton_proj (λ s, (s.1.1.1.1, s.1.1.1.2, s.1.2, s.2)) d d'). Qed.

Lemma length_setTextContent h t d : length (setTextContent h t d) = length d.
Proof. unfold setTextContent, detachChildren. by rewrite length_alter, length_fmap. Qed.

Lemma setTextContent_lookup h t d i :
  setTextContent h t d !! i =
  (λ e, let e1 := if bool_decide (parentElement e = Some h) then with_parent None e else e in
        if decide (i = h) then with_textContent t e1 else e1) <$> d !! i.
Proof.
  unfold setTextContent, detachChildren.
  destruct (decide (i = h)) as [->|Hne].
  - rewrite list_lookup_alter_eq, list_lookup_fmap. by destruct (d !! h).
  - rewrite list_lookup_alter_ne, list_lookup_fmap by done. by destruct (d !! i).
Qed.

Lemma shape_setTextContent h t d : shape <$> setTextContent h t d = shape <$> d.
Proof.
  apply list_eq. intros i. rewrite !list_lookup_fmap, setTextContent_lookup.
  destruct (d !! i) as [e|]; simpl; [|done]. f_equal.
  destruct (decide (i = h)); case_bool_decide; by destruct e.
Qed.

Lemma parentOf_setTextContent h t d i :
  parentOf (setTextContent h t d) i =
  if decide (parentOf d i = Some h) then None else parentOf d i.
Proof.
  unfold parentOf. rewrite setTextContent_lookup.
  destruct (d !! i) as [e|]; simpl; [|try case_decide; done].
  destruct (decide (i = h)); case_bool_decide; try case_decide; simpl in *; congruence.
Qed.

(** An element without element children only gets its text replaced. *)
Lemma setTextContent_leaf h t d :
  (∀ i, parentOf d i ≠ Some h) → setTextContent h t d = alter (with_textContent t) h d.
Proof.
  intros Hleaf. unfold setTextContent. f_equal. unfold detachChildren.
  apply list_eq. intros i. rewrite list_lookup_fmap.
  specialize (Hleaf i). unfold parentOf in Hleaf.
  destruct (d !! i) as [e|]; simpl in *; [|done].
  by rewrite bool_decide_eq_false_2.
Qed.

(** *** Connectedness when parent pointers are removed *)

Lemma ancestors_fuel_mono d h m n :
  m ≤ n → ancestors_fuel m d h `prefix_of` ancestors_fuel n d h.
Proof.
  revert h n. induction m as [|m IH]; intros h n Hmn; [apply prefix_nil|].
  destruct n as [|n]; [lia|]. simpl.
  destruct (parentOf d h) as [a|]; [|done].
  apply prefix_cons, IH. lia.
Qed.

Lemma ancestors_fuel_cut d d' n h :
  (∀ j, parentOf d' j = parentOf d j ∨ parentOf d' j = None) →
  ancestors_fuel n d' h `prefix_of` ancestors_fuel n d h.
Proof.
  intros Hpar. revert h. induction n as [|n IH]; intros h; simpl; [done|].
  destruct (Hpar h) as [-> | ->]; [|apply prefix_nil].
  destruct (parentOf d h) as [a|]; [|done]. apply prefix_cons, IH.
Qed.

Lemma isConnected_cut d d' h :
  length d' = length d →
  (∀ j, parentOf d' j = parentOf d j ∨ parentOf d' j = None) →
  isConnected d' h = true → isConnected d h = true.
Proof.
  intros Hlen Hpar. unfold isConnected, ancestors. rewrite Hlen.
  intros H. apply andb_true_iff in H as [H1 H2].
  rewrite H1. simpl. apply bool_decide_eq_true in H2. apply bool_decide_eq_true.
  apply elem_of_cons in H2 as [->|H2]; [by left|]. right.
  eapply elem_of_prefix; [exact H2|]. by apply ancestors_fuel_cut.
Qed.

Section Detach.

Context (d d' : Dom) (el : nat).
Hypothesis Hel : el ≠ 0.
Hypothesis Hpar : ∀ j, parentOf d' j = if decide (parentOf d j = Some el) then None
                                       else parentOf d j.

(** A chain that reaches the document element either does so without
    passing [el], or a shorter one from [el] does. *)
Lemma reach_or_shorter n h :
  0 ∈ ancestors_fuel n d h →
  0 ∈ ancestors_fuel n d' h ∨ ∃ m, m < n ∧ 0 ∈ ancestors_fuel m d el.
Proof.
  revert h. induction n as [|n IH]; intros h; simpl; [by intros H%elem_of_nil|].
  rewrite Hpar. destruct (parentOf d h) as [a|] eqn:Ha; [|by intros H%elem_of_nil].
  intros H. destruct (decide (a = el)) as [->|Hne].
  - right. exists n. split; [lia|]. apply elem_of_cons in H as [?|H]; [done|exact H].
  - rewrite decide_False by congruence.
    apply elem_of_cons in H as [<-|H]; [left; by left|].
    destruct (IH a H) as [H'|(m & Hm & H')].
    + left. by right.
    + right. exists m. split; [lia|done].
Qed.

(** The element whose children are removed stays where it is. *)
Lemma reach_detached n : 0 ∈ ancestors_fuel n d el → 0 ∈ ancestors_fuel n d' el.
Proof.
  induction n as [n IH] using lt_wf_ind. intros H.
  destruct (reach_or_shorter n el H) as [H'|(m & Hm & H')]; [done|].
  eapply elem_of_prefix; [exact (IH m Hm H')|]. apply ancestors_fuel_mono. lia.
Qed.

End Detach.

Lemma head_filter_narrow {A : Type} (P Q : A → Prop)
    `{∀ a, Decision (P a)} `{∀ a, Decision (Q a)} (l : list A) (z : A) :
  head (filter P l) = Some z → Q z → (∀ y, y ∈ l → Q y → P y) →
  head (filter Q l) = Some z.
Proof.
  induction l as [|a l IH]; intros Hh Hx Himp; [done|].
  rewrite filter_cons in Hh |- *.
  destruct (decide (P a)) as [HP|HP].
  - injection Hh as ->. by rewrite decide_True.
  - rewrite decide_False.
    + apply IH; [done..|]. intros y Hy. apply Himp. by right.
    + intros HQ. apply HP, Himp; [by left|done].
Qed.

(** The first match of a selector is still the first match after its
    element children have been removed. *)
Lemma querySelector_detach s d d' el :
  length d' = length d →
  (∀ j, parentOf d' j = if decide (parentOf d j = Some el) then None else parentOf d j) →
  (∀ j, matchesAt s d' j = matchesAt s d j) →
  querySelector s d = Some el → querySelector s d' = Some el.
Proof.
  intros Hlen Hpar Hm Hq.
  assert (Hcut : ∀ j, parentOf d' j = parentOf d j ∨ parentOf d' j = None).
  { intros j. rewrite Hpar. case_decide; auto. }
  unfold querySelector, querySelectorAll, handles in *. rewrite Hlen.
  eapply head_filter_narrow; [exact Hq| |].
  - apply head_Some_elem_of, list_elem_of_filter in Hq as [Hp _].
    apply andb_prop_elim in Hp as [H1 H2]. apply andb_prop_intro. split; [|by rewrite Hm].
    apply Is_true_eq_true in H1. apply Is_true_eq_left.
    unfold isConnected, ancestors in *. rewrite Hlen.
    apply andb_true_iff in H1 as [H1 H3]. rewrite H1. simpl.
    apply bool_decide_eq_true in H3. apply bool_decide_eq_true.
    destruct (decide (el = 0)) as [->|Hne]; [by left|].
    apply elem_of_cons in H3 as [->|H3]; [by left|]. right.
    by apply (reach_detached d d' el Hne Hpar).
  - intros y _ Hy. apply andb_prop_elim in Hy as [H1 H2].
    apply andb_prop_intro. split; [|by rewrite <- Hm].
    apply Is_true_eq_left. apply (isConnected_cut d d'); [done..|].
    by apply Is_true_eq_true.
Qed.

End DomFacts.

(** ** Well-formed heaps and elements created later *)

Section WellFormedFacts.

Implicit Types (d : Dom) (h : nat) (x : Element) (p q : Page).

Lemma wellFormed_ext d d' :
  parentElement <$> d = parentElement <$> d' → wellFormed d → wellFormed d'.
Proof.
  intros H Hwf h a Ha. apply Hwf. by rewrite (parentOf_ext d d' h H).
Qed.

Lemma wellFormed_snoc d x :
  wellFormed d → (∀ a, parentElement x = Some a → a < length d) → wellFormed (d ++ [x]).
Proof.
  intros Hwf Hx h a. rewrite parentOf_snoc. case_decide; [subst; apply Hx|apply Hwf].
Qed.

Lemma ancestors_fuel_snoc n d x h :
  wellFormed d → h < length d →
  ancestors_fuel n (d ++ [x]) h = ancestors_fuel n d h.
Proof.
  intros Hwf. revert h. induction n as [|n IH]; intros h Hh; simpl; [done|].
  rewrite parentOf_snoc, decide_False by lia.
  destruct (parentOf d h) as [a|] eqn:Ha; [|done].
  pose proof (Hwf _ _ Ha). rewrite IH by lia. done.
Qed.

Lemma ancestors_snoc d x h :
  wellFormed d → h < length d → ancestors (d ++ [x]) h = ancestors d h.
Proof.
  intros Hwf Hh. unfold ancestors. rewrite length_app. simpl.
  rewrite ancestors_fuel_snoc by done.
  apply ancestors_fuel_enough; [done|lia..].
Qed.

Lemma isConnected_snoc d x h :
  wellFormed d → h < length d → isConnected (d ++ [x]) h = isConnected d h.
Proof.
  intros Hwf Hh. unfold isConnected. rewrite ancestors_snoc by done.
  rewrite length_app. simpl.
  rewrite (bool_decide_eq_true_2 (h < length d + 1)) by lia.
  by rewrite (bool_decide_eq_true_2 (h < length d)) by lia.
Qed.

(** A new element that a selector does not match is not in its result. *)
Lemma querySelectorAll_snoc s d x :
  wellFormed d → matches s x = false →
  querySelectorAll s (d ++ [x]) = querySelectorAll s d.
Proof.
  intros Hwf Hx. unfold querySelectorAll.
  rewrite handles_snoc, filter_app, filter_singleton; [|exact []].
  rewrite decide_False.
  - rewrite app_nil_r. apply filter_iff_in. intros h Hh.
    apply elem_of_seq in Hh.
    rewrite isConnected_snoc by (assumption || lia).
    by rewrite matchesAt_snoc by lia.
  - unfold matchesAt. rewrite list_lookup_middle by done. simpl. rewrite Hx.
    rewrite andb_false_r. simpl. tauto.
Qed.

Lemma querySelector_snoc s d x :
  wellFormed d → matches s x = false →
  querySelector s (d ++ [x]) = querySelector s d.
Proof. intros. unfold querySelector. by rewrite querySelectorAll_snoc. Qed.

Lemma getElementById_snoc id d x :
  wellFormed d → attributes x !! "id" = None →
  getElementById id (d ++ [x]) = getElementById id d.
Proof.
  intros Hwf Hx. unfold getElementById. case_bool_decide; [done|].
  apply querySelector_snoc; [done|]. simpl. rewrite Hx. by apply bool_decide_eq_false_2.
Qed.

Lemma body_snoc d x :
  tagName x ≠ "body" → body (d ++ [x]) = body d.
Proof.
  intros Hx. unfold body. rewrite handles_snoc, filter_app, filter_singleton; [|exact []].
  rewrite decide_False.
  - rewrite app_nil_r. f_equal. apply filter_iff_in. intros h Hh.
    apply elem_of_seq in Hh.
    rewrite parentOf_snoc, decide_False by lia.
    by rewrite matchesAt_snoc by lia.
  - unfold matchesAt. rewrite list_lookup_middle by done. simpl.
    destruct (String.eqb_spec (tagName x) "body"); [done|].
    rewrite andb_false_r. simpl. tauto.
Qed.

Lemma body_ext d d' :
  parentElement <$> d = parentElement <$> d' →
  matches (SelTag "body") <$> d = matches (SelTag "body") <$> d' →
  body d = body d'.
Proof.
  intros Hp Hm. unfold body, handles. rewrite (length_ext _ _ _ Hp). f_equal.
  apply list_filter_iff. intros h.
  by rewrite (parentOf_ext _ _ _ Hp), (matchesAt_ext _ _ _ _ Hm).
Qed.

Lemma body_tag d b : body d = Some b → matchesAt (SelTag "body") d b = true.
Proof.
  unfold body. intros H.
  apply head_Some_elem_of, list_elem_of_filter in H as [Hp _].
  apply andb_prop_elim in Hp as [_ H2]. by apply Is_true_eq_true.
Qed.

End WellFormedFacts.

(** ** Toast *)

Section ToastFacts.

Implicit Types (d : Dom) (h : nat) (e : Element) (p : Page).

Lemma toast_eq msg p :
  toast msg p =
  match querySelector (SelId "toast") (dom p) with
  | None => (Throw "Missing element: #toast", p)
  | Some el =>
      (Normal (),
       mkPage (setHidden el false (setTextContent el msg (dom p)))
              (localStorage p) (matchMedia_light p)
              (filter (λ t, timer_id t ≠ toast_t p) (timers p)
                 ++ [mkTimer (next_timer p) (clock p + 2200) el])
              (S (next_timer p)) (next_timer p) (clock p)
              (listeners p) (observers p) (scrolls p) (domLog p))
  end.
Proof.
  unfold toast, mustQuery, mbind, Js_bind.
  destruct (querySelector (SelId "toast") (dom p)); reflexivity.
Qed.

(** toast touches the text and the hidden flag of one element, the parent
    pointers of its children, the timers and [toast._t], and nothing else. *)
Lemma toast_frame msg p :
  let p' := (toast msg p).2 in
  shape <$> dom p' = shape <$> dom p ∧
  localStorage p' = localStorage p ∧
  listeners p' = listeners p ∧ scrolls p' = scrolls p ∧ domLog p' = domLog p.
Proof.
  rewrite toast_eq. destruct (querySelector _ _); simpl; [|done].
  split; [|done]. unfold setHidden.
  by rewrite fmap_alter_inv, shape_setTextContent.
Qed.

Lemma toast_rest msg p :
  let p' := (toast msg p).2 in
  length (dom p') = length (dom p) ∧ observers p' = observers p ∧
  matchMedia_light p' = matchMedia_light p ∧ clock p' = clock p.
Proof.
  rewrite toast_eq. destruct (querySelector _ _); simpl; [|done].
  split; [|done]. unfold setHidden. by rewrite length_alter, length_setTextContent.
Qed.

Lemma toast_parentOf msg p el i :
  querySelector (SelId "toast") (dom p) = Some el →
  parentOf (dom (toast msg p).2) i =
  if decide (parentOf (dom p) i = Some el) then None else parentOf (dom p) i.
Proof.
  intros Hq. rewrite toast_eq, Hq. simpl. rewrite <- (parentOf_setTextContent el msg).
  apply parentOf_ext. unfold setHidden. by apply fmap_alter_inv.
Qed.

(** On a toast element without element children, toast changes no parent. *)
Lemma toast_leaf msg p :
  toastLeaf (dom p) → skeleton <$> dom (toast msg p).2 = skeleton <$> dom p.
Proof.
  intros Hleaf. rewrite toast_eq.
  destruct (querySelector _ _) as [el|] eqn:Hq; simpl; [|done].
  destruct (Hleaf el Hq) as [_ Hno].
  rewrite setTextContent_leaf by done. unfold setHidden.
  by rewrite !fmap_alter_inv.
Qed.

Lemma querySelector_Some s d el :
  querySelector s d = Some el →
  el < length d ∧ isConnected d el = true ∧ matchesAt s d el = true.
Proof.
  unfold querySelector, querySelectorAll, handles. intros H.
  apply head_Some_elem_of, list_elem_of_filter in H as [Hp Hin].
  apply elem_of_seq in Hin. apply andb_prop_elim in Hp as [H1 H2].
  repeat split; [lia| |]; by apply Is_true_eq_true.
Qed.

Lemma oneTimer_load d store mm : oneTimer (load d store mm).
Proof. split; simpl; [lia|by left]. Qed.

Lemma toast_timers msg p el :
  oneTimer p → querySelector (SelId "toast") (dom p) = Some el →
  timers (toast msg p).2 = [mkTimer (next_timer p) (clock p + 2200) el] ∧
  toast_t (toast msg p).2 = next_timer p ∧
  next_timer (toast msg p).2 = S (next_timer p).
Proof.
  intros [Hlt Ht] Hq. rewrite toast_eq, Hq. simpl.
  destruct Ht as [-> | (due & el' & ->)]; [done|].
  rewrite filter_cons, filter_nil. simpl.
  by rewrite decide_False by (intros H; by apply H).
Qed.

Lemma oneTimer_step p ev : oneTimer p → oneTimer (toastStep p ev).
Proof.
  intros Hinv. destruct ev as [msg|ms|id]; simpl.
  - destruct (querySelector (SelId "toast") (dom p)) as [el|] eqn:Hq.
    + destruct (toast_timers msg p el Hinv Hq) as (Ht & Hid & Hn).
      split; [lia|]. right. exists (clock p + 2200), el. by rewrite Ht, Hid.
    + by rewrite toast_eq, Hq.
  - exact Hinv.
  - destruct Hinv as [Hlt Ht]. unfold fireTimer.
    destruct Ht as [E | (due & el & E)]; rewrite E.
    + split; [done|]. left. done.
    + rewrite filter_cons, filter_nil. destruct (decide _) as [Hd|Hd]; simpl.
      * split; [done|]. left. simpl. rewrite E, filter_cons, filter_nil. simpl in *.
        apply andb_prop_elim in Hd as [Hd _]. apply bool_decide_unpack in Hd.
        by rewrite decide_False by (intros H; by apply H).
      * split; [done|]. right. eauto.
Qed.

Lemma oneTimer_run evs p : oneTimer p → oneTimer (toastRun evs p).
Proof.
  revert p. induction evs as [|ev evs IH]; intros p Hinv; simpl; [done|].
  apply IH. by apply oneTimer_step.
Qed.

Lemma toast_keeps_query msg p s :
  toastLeaf (dom p) →
  querySelector s (dom (toast msg p).2) = querySelector s (dom p).
Proof.
  intros Hleaf. pose proof (toast_leaf msg p Hleaf) as Hs.
  apply querySelector_ext; [by apply skeleton_parent|by apply skeleton_matches].
Qed.

(** toast finds its element again, whatever that element held. *)
Lemma toast_keeps_toast msg p el :
  querySelector (SelId "toast") (dom p) = Some el →
  querySelector (SelId "toast") (dom (toast msg p).2) = Some el.
Proof.
  intros Hq. destruct (toast_frame msg p) as (Hs & _).
  destruct (toast_rest msg p) as (Hlen & _).
  apply (querySelector_detach _ (dom p) _ el); [done| | |done].
  - intros j. by apply toast_parentOf.
  - intros j. apply matchesAt_ext. by apply shape_matches.
Qed.

Lemma textOf_toast d el msg :
  el < length d →
  textOf (setHidden el false (setTextContent el msg d)) el = msg ∧
  isHidden (setHidden el false (setTextContent el msg d)) el = false.
Proof.
  intros Hlt. unfold textOf, isHidden, setHidden.
  rewrite !list_lookup_alter_eq, setTextContent_lookup.
  destruct (lookup_lt_is_Some_2 d el Hlt) as [e ->]. simpl.
  rewrite decide_True by done. by case_bool_decide.
Qed.

Lemma fireTimer_pending p t :
  timers p = [t] → timer_due t ≤ clock p →
  fireTimer (timer_id t) p =
  (Normal (), with_dom (setHidden (timer_hides t) true)
                (with_timers (filter (λ t', timer_id t' ≠ timer_id t)) p)) ∧
  timers (fireTimer (timer_id t) p).2 = [].
Proof.
  intros E Hdue. unfold fireTimer. rewrite E, filter_cons, filter_nil.
  rewrite decide_True.
  - split; [done|]. simpl. rewrite E, filter_cons, filter_nil.
    by rewrite decide_False by (intros H; by apply H).
  - apply andb_prop_intro. split; by apply bool_decide_pack.
Qed.

Lemma fireTimer_idle p t id :
  timers p = [t] → timer_id t ≠ id ∨ clock p < timer_due t →
  fireTimer id p = (Normal (), p).
Proof.
  intros E Hno. unfold fireTimer. rewrite E, filter_cons, filter_nil.
  rewrite decide_False; [done|].
  intros H. apply andb_prop_elim in H as [H1 H2].
  apply bool_decide_unpack in H1, H2. destruct Hno; [done|lia].
Qed.

(** C9: however toast calls, the passing of time and timer callbacks
    interleave after the page is loaded, at most one auto-hide timeout is
    pending and it is the one of the latest call.  A call cancels the
    timeout of the call before (which then never fires), shows its own
    message, and starts one timeout of 2200 ms; that timeout does nothing
    before the delay has passed and hides the toast, once, after it. *)
Theorem toast_single_timer d store mm evs :
  let p := toastRun evs (load d store mm) in
  (length (timers p) ≤ 1 ∧ ∀ t, t ∈ timers p → timer_id t = toast_t p) ∧
  ∀ msg el, querySelector (SelId "toast") (dom p) = Some el →
    let p' := (toast msg p).2 in
    let hide := mkTimer (toast_t p') (clock p + 2200) el in
    timers p' = [hide] ∧
    (∀ t, t ∈ timers p →
       timer_id t ≠ toast_t p' ∧ fireTimer (timer_id t) p' = (Normal (), p')) ∧
    querySelector (SelId "toast") (dom p') = Some el ∧
    textOf (dom p') el = msg ∧
    isHidden (dom p') el = false ∧
    (∀ ms, ms < 2200 →
       fireTimer (timer_id hide) (advance ms p').2 = (Normal (), (advance ms p').2)) ∧
    (∀ ms, 2200 ≤ ms →
       let p'' := (fireTimer (timer_id hide) (advance ms p').2).2 in
       isHidden (dom p'') el = true ∧ textOf (dom p'') el = msg ∧ timers p'' = []).
Proof.
  intros p.
  assert (Hinv : oneTimer p) by apply oneTimer_run, oneTimer_load.
  split.
  { destruct Hinv as [_ [E | (due & el & E)]]; rewrite E; simpl.
    - split; [lia|]. intros t Ht. by apply elem_of_nil in Ht.
    - split; [lia|]. intros t Ht. apply list_elem_of_singleton in Ht. by subst. }
  intros msg el Hq p' hide.
  destruct (toast_timers msg p el Hinv Hq) as (Ht & Hid & Hn). fold p' in Ht, Hid, Hn.
  destruct (querySelector_Some _ _ _ Hq) as (Hlt & _).
  assert (Hdom : dom p' = setHidden el false (setTextContent el msg (dom p))).
  { unfold p'. by rewrite toast_eq, Hq. }
  assert (Hclock : clock p' = clock p).
  { unfold p'. by rewrite toast_eq, Hq. }
  assert (Hhide : timers p' = [hide]) by (unfold hide; by rewrite Hid, Ht).
  destruct (textOf_toast (dom p) el msg Hlt) as (Htext & Hhid).
  split; [done|]. split; [|split; [|split; [|split; [|split]]]].
  - intros t Hin. destruct Hinv as [Hlt' [E | (due & el' & E)]]; rewrite E in Hin.
    + by apply elem_of_nil in Hin.
    + apply list_elem_of_singleton in Hin. subst t. simpl.
      split; [lia|]. apply (fireTimer_idle p' hide); [done|]. left. simpl. lia.
  - unfold p'. by apply toast_keeps_toast.
  - by rewrite Hdom.
  - by rewrite Hdom.
  - intros ms Hms. apply (fireTimer_idle _ hide); [done|]. right. simpl. lia.
  - intros ms Hms p''.
    destruct (fireTimer_pending (advance ms p').2 hide) as (E & Hnil); [done|simpl; lia|].
    unfold p''. rewrite Hnil. rewrite E. simpl. rewrite Hdom.
    unfold isHidden, textOf, setHidden.
    rewrite !list_lookup_alter_eq, setTextContent_lookup.
    destruct (lookup_lt_is_Some_2 (dom p) el Hlt) as [e ->]. simpl.
    rewrite decide_True by done. by case_bool_decide.
Qed.

Lemma toast_single_timer_witness :
  let p := toastRun [CallToast "a"; TimePasses 100] (load Sample.page ∅ None) in
  timers (toast "b" p).2 = [mkTimer 2 2300 14] ∧ textOf (dom (toast "b" p).2) 14 = "b".
Proof.
  intros p.
  destruct (proj2 (toast_single_timer Sample.page ∅ None [CallToast "a"; TimePasses 100])
              "b" 14) as (H1 & _ & _ & H2 & _).
  - vm_compute. reflexivity.
  - split; [exact H1|exact H2].
Defined.

End ToastFacts.

(** ** Clipboard copy *)

Section CopyFacts.

Implicit Types (d : Dom) (h : nat) (e : Element) (p : Page) (x : ExecCommand).

Lemma Page_ext (p q : Page) :
  dom p = dom q → localStorage p = localStorage q →
  matchMedia_light p = matchMedia_light q → timers p = timers q →
  next_timer p = next_timer q → toast_t p = toast_t q → clock p = clock q →
  listeners p = listeners q → observers p = observers q → scrolls p = scrolls q →
  domLog p = domLog q → p = q.
Proof. destruct p, q; simpl; intros; by subst. Qed.

Local Ltac run_fallback Hb :=
  unfold legacyCopy, mbind, Js_bind, document_createElement, createElement,
    Node_appendChild, Node_removeChild, document_execCommand, modify_dom, modify,
    nonNull, setValue, setAttribute, appendChild, removeChild;
  repeat first
    [ rewrite alter_snoc
    | rewrite body_snoc_detached by done
    | rewrite Hb
    | rewrite parentOf_snoc, decide_True by done
    | rewrite bool_decide_eq_true_2 by done
    | progress cbn [mret Js_ret throw fst snd with_value with_attributes with_parent
        tagName isHTMLElement parentElement attributes classList hidden textContent
        value dom with_dom with_domLog domLog localStorage matchMedia_light timers
        next_timer toast_t clock listeners observers scrolls] ].

(** The fallback when execCommand returns: the textarea is appended and
    removed, then toast runs. *)
Lemma legacyCopy_eq target ok p b :
  body (dom p) = Some b →
  legacyCopy target (Returns ok) p =
  toast (if ok then label target +:+ "：已复制"
         else label target +:+ "：复制失败（请手动复制）")
    (with_domLog (λ l, l ++ [Created (length (dom p)) "textarea";
                             Appended b (length (dom p));
                             Removed b (length (dom p))])
       (with_dom (λ _, dom p ++ [usedTextarea target]) p)).
Proof.
  intros Hb. run_fallback Hb.
  rewrite insert_insert_eq, insert_empty.
  match goal with
  | |- toast ?m ?P1 = toast ?m ?P2 => cut (P1 = P2); [intros ->; reflexivity|]
  end.
  apply Page_ext; try reflexivity.
  cbn [domLog with_domLog with_dom]. by rewrite <- !app_assoc.
Qed.

(** The fallback when execCommand throws: it ends there, with the textarea
    in the body. *)
Lemma legacyCopy_throws target err p b :
  body (dom p) = Some b →
  legacyCopy target (Throws err) p =
  (Throw err,
   with_domLog (λ l, l ++ [Created (length (dom p)) "textarea"; Appended b (length (dom p))])
     (with_dom (λ _, dom p ++ [attachedTextarea b target]) p)).
Proof.
  intros Hb. run_fallback Hb. f_equal.
  apply Page_ext; try reflexivity.
  - cbn [dom with_dom with_domLog]. rewrite ?alter_snoc.
    cbn [with_value with_attributes with_parent attributes tagName isHTMLElement
         parentElement classList hidden textContent value].
    by rewrite insert_insert_eq, insert_empty.
  - cbn [domLog with_domLog with_dom]. by rewrite <- !app_assoc.
Qed.

(** The fallback in a document without a body ends at [document.body.appendChild]. *)
Lemma legacyCopy_nobody target x p :
  body (dom p) = None →
  legacyCopy target x p =
  (Throw "TypeError: document.body is null",
   with_domLog (λ l, l ++ [Created (length (dom p)) "textarea"])
     (with_dom (λ _, dom p ++ [usedTextarea target]) p)).
Proof.
  intros Hb. run_fallback Hb. f_equal.
  apply Page_ext; try reflexivity.
  cbn [dom with_dom with_domLog]. rewrite !alter_snoc.
  cbn [with_value with_attributes attributes]. unfold usedTextarea.
  by rewrite insert_insert_eq, insert_empty.
Qed.

Lemma copy_rejected target x p :
  copyToClipboard target Rejected x p = legacyCopy target x p.
Proof. reflexivity. Qed.

(** When the write resolves and the toast element is there, the fallback
    does not run and nothing is created. *)
Lemma copy_resolved target x p el :
  querySelector (SelId "toast") (dom p) = Some el →
  copyToClipboard target Resolved x p = toast (label target +:+ "：已复制") p.
Proof.
  intros Hq. unfold copyToClipboard, try_catch, mbind, Js_bind. cbn [mret Js_ret].
  by rewrite toast_eq, Hq.
Qed.

(** A resolved write whose toast finds no element falls into the fallback. *)
Lemma copy_resolved_no_toast target x p :
  querySelector (SelId "toast") (dom p) = None →
  copyToClipboard target Resolved x p = legacyCopy target x p.
Proof.
  intros Hq. unfold copyToClipboard, try_catch, mbind, Js_bind. cbn [mret Js_ret].
  by rewrite toast_eq, Hq.
Qed.

(** X26: when the clipboard write rejects and execCommand returns, whatever
    it answers, the call creates exactly one element, a textarea, appends
    it to the body once and removes it again; whether toast then returns or
    throws, the textarea ends detached, and every element the document had
    keeps its tag, attributes and classes, and its parent unless toast's
    assignment of textContent has removed it from the toast element. *)
Theorem fallback_textarea_removed_on_return target ok p b :
  body (dom p) = Some b →
  let p' := (copyToClipboard target Rejected (Returns ok) p).2 in
  let ta := length (dom p) in
  domLog p' = domLog p ++ [Created ta "textarea"; Appended b ta; Removed b ta] ∧
  length (dom p') = S (length (dom p)) ∧
  parentOf (dom p') ta = None ∧
  isConnected (dom p') ta = false ∧
  shape <$> take ta (dom p') = shape <$> dom p ∧
  (∀ h, h < ta → parentOf (dom p') h = parentOf (dom p) h ∨ parentOf (dom p') h = None).
Proof.
  intros Hb p' ta.
  assert (E : p' = (legacyCopy target (Returns ok) p).2) by done.
  rewrite (legacyCopy_eq target ok p b Hb) in E.
  set (q := with_domLog _ _) in E. set (msg := if ok then _ else _) in E.
  destruct (toast_frame msg q) as (Hs & _ & _ & _ & Hlog). rewrite <- E in Hs, Hlog.
  destruct (toast_rest msg q) as (Hlen & _). rewrite <- E in Hlen.
  assert (Hq : dom q = dom p ++ [usedTextarea target]) by done.
  rewrite Hq in Hs, Hlen. rewrite length_app, Nat.add_1_r in Hlen. cbn [length] in Hlen.
  pose proof (body_lt _ _ Hb) as Hblt.
  assert (Hpar : ∀ h, parentOf (dom p') h = parentOf (dom q) h ∨ parentOf (dom p') h = None).
  { intros h. rewrite E.
    destruct (querySelector (SelId "toast") (dom q)) as [el|] eqn:Hel.
    - rewrite (toast_parentOf msg q el h Hel). case_decide; auto.
    - rewrite toast_eq, Hel. by left. }
  assert (Hta : parentOf (dom p') ta = None).
  { destruct (Hpar ta) as [H|H]; [|done]. rewrite H, Hq, parentOf_snoc.
    by rewrite decide_True. }
  split; [by rewrite Hlog|]. split; [by rewrite Hlen|]. split; [done|].
  split; [apply isConnected_detached; [unfold ta; lia|done]|].
  split.
  - rewrite fmap_take, Hs, fmap_app, take_app_length'; [done|by rewrite length_fmap].
  - intros h Hh. destruct (Hpar h) as [H|H]; [left|by right].
    rewrite H, Hq, parentOf_snoc. by rewrite decide_False by (unfold ta in Hh; lia).
Qed.

Lemma fallback_textarea_removed_on_return_witness :
  let p := load Sample.page ∅ None in
  domLog (copyToClipboard (mkCopyTarget "x" "L") Rejected (Returns false) p).2
  = [Created 15 "textarea"; Appended 2 15; Removed 2 15].
Proof.
  intros p.
  refine (proj1 (fallback_textarea_removed_on_return (mkCopyTarget "x" "L") false p 2 _)).
  vm_compute. reflexivity.
Defined.

(** C5 fails on the code: the fallback means to remove its temporary
    textarea, but nothing guards the calls between appendChild and
    removeChild.  On the sample page, with the clipboard write rejected and
    execCommand throwing, the call ends with that error and the textarea
    is still a child of the body, in the document; nothing was removed. *)
Theorem copy_fallback_leaves_textarea :
  let p := load Sample.page ∅ None in
  let r := copyToClipboard (mkCopyTarget "x" "L") Rejected
             (Throws "TypeError: document.execCommand is not a function") p in
  r.1 = Throw "TypeError: document.execCommand is not a function" ∧
  domLog r.2 = [Created 15 "textarea"; Appended 2 15] ∧
  parentOf (dom r.2) 15 = Some 2 ∧
  isConnected (dom r.2) 15 = true ∧
  childrenOf (dom r.2) 2 = childrenOf (dom p) 2 ++ [15].
Proof. vm_compute. repeat split; reflexivity. Qed.

End CopyFacts.

(** ** Theme *)

Section ThemeFacts.

Implicit Types (d : Dom) (h : nat) (e : Element) (p : Page).

Lemma appliedTheme_ext p p' :
  attributes <$> dom p = attributes <$> dom p' → appliedTheme p = appliedTheme p'.
Proof.
  intros H. unfold appliedTheme, documentElement.
  pose proof (length_ext _ _ _ H) as Hl.
  destruct (dom p) as [|? ?] eqn:E, (dom p') as [|? ?] eqn:E'; simpl in *; try done.
  rewrite <- E, <- E'. apply getAttribute_ext.
  by rewrite E, E'.
Qed.

Lemma documentElement_Some d : d ≠ [] → documentElement d = Some 0.
Proof. by destruct d. Qed.

Lemma setTheme_spec theme p :
  dom p ≠ [] →
  let p' := (setTheme theme p).2 in
  localStorage p' !! theme_key = Some theme ∧
  appliedTheme p' = Some theme ∧
  dom p' ≠ [].
Proof.
  intros Hd. pose proof (documentElement_Some _ Hd) as Hroot.
  unfold setTheme, mbind, Js_bind, nonNull, modify_dom, modify.
  rewrite Hroot. cbn [mret Js_ret].
  set (p1 := with_localStorage _ _).
  set (msg := if String.eqb theme "light" then _ else _).
  destruct (toast_frame msg p1) as (Hs & Hl & _).
  cbv zeta in Hs, Hl. set (p' := (toast msg p1).2) in *.
  assert (Hlen : length (dom p1) = length (dom p)).
  { unfold p1, setAttribute. simpl. by rewrite length_alter. }
  assert (Hpos : 0 < length (dom p)) by (destruct (dom p); [done|simpl; lia]).
  split; [|split].
  - rewrite Hl. unfold p1. simpl. by rewrite lookup_insert_eq.
  - rewrite (appliedTheme_ext p' p1 (shape_attributes _ _ Hs)). unfold appliedTheme.
    rewrite documentElement_Some; [|intros Hn; rewrite Hn in Hlen; simpl in Hlen; lia].
    simpl. by apply getAttribute_setAttribute.
  - intros Hn. apply (f_equal length) in Hs. rewrite !length_fmap, Hn, Hlen in Hs.
    simpl in Hs. lia.
Qed.

Lemma initThemeToggle_dom p :
  dom p ≠ [] →
  dom (initThemeToggle p).2 =
  setAttribute 0 "data-theme"
    (if falsy (localStorage p !! theme_key)
     then (if default false (matchMedia_light p) then "light" else "dark")
     else getTheme p) (dom p).
Proof.
  intros Hd. pose proof (documentElement_Some _ Hd) as Hroot.
  unfold initThemeToggle, mbind, Js_bind, gets, nonNull, modify_dom, modify, addEventListener.
  rewrite Hroot. cbn [mret Js_ret].
  destruct (falsy (localStorage p !! theme_key)); simpl;
    repeat (match goal with |- context [match ?x with _ => _ end] => destruct x end; simpl);
    reflexivity.
Qed.

Lemma getTheme_cases p : getTheme p = "light" ∨ getTheme p = "dark".
Proof. unfold getTheme. case_bool_decide; auto. Qed.

(** C6: whatever the storage holds under the theme key, getTheme answers
    "light" or "dark", and it answers "dark" unless the stored value is
    exactly "light" (an absent key included). *)
Theorem getTheme_light_or_dark p :
  (getTheme p = "light" ∨ getTheme p = "dark") ∧
  (localStorage p !! theme_key ≠ Some "light" → getTheme p = "dark").
Proof.
  split; [apply getTheme_cases|].
  intros H. unfold getTheme. by rewrite bool_decide_eq_false_2.
Qed.

Lemma getTheme_light_or_dark_witness :
  getTheme (load [] {[theme_key := "blue"]} None) = "dark".
Proof.
  apply (proj2 (getTheme_light_or_dark (load [] {[theme_key := "blue"]} None))).
  vm_compute. discriminate.
Defined.

Lemma onThemeClick_eq p :
  onThemeClick p =
  setTheme (if String.eqb (getTheme p) "dark" then "light" else "dark") p.
Proof. reflexivity. Qed.

Lemma getTheme_stored p v :
  localStorage p !! theme_key = Some v →
  getTheme p = if String.eqb v "light" then "light" else "dark".
Proof.
  intros H. unfold getTheme. rewrite H.
  destruct (String.eqb_spec v "light") as [->|Hne].
  - by rewrite bool_decide_eq_true_2.
  - rewrite bool_decide_eq_false_2; [done|congruence].
Qed.

(** X27: the theme a toggle starts from is the one getTheme returns,
    light when "light" is stored and dark otherwise.  The first click sets
    the other theme and the second one sets the starting theme again; each
    click stores the theme it set and applies it to the document.  So two
    clicks bring the applied theme back exactly when it was the one
    getTheme returned. *)
Theorem toggle_twice p :
  dom p ≠ [] →
  let t := getTheme p in
  let p1 := (onThemeClick p).2 in
  let p2 := (onThemeClick p1).2 in
  (t = "light" ∨ t = "dark") ∧
  getTheme p1 ≠ t ∧
  localStorage p1 !! theme_key = Some (getTheme p1) ∧
  appliedTheme p1 = Some (getTheme p1) ∧
  getTheme p2 = t ∧
  localStorage p2 !! theme_key = Some t ∧
  appliedTheme p2 = Some t ∧
  (appliedTheme p2 = appliedTheme p ↔ appliedTheme p = Some t).
Proof.
  intros Hd t p1 p2.
  pose proof (getTheme_cases p) as Ht. fold t in Ht.
  unfold p2. rewrite (onThemeClick_eq p1).
  unfold p1 in *. rewrite (onThemeClick_eq p) in *. fold t in p1 |- *.
  set (n1 := if String.eqb t "dark" then "light" else "dark") in *.
  destruct (setTheme_spec n1 p Hd) as (Hs1 & Ha1 & Hd1). cbv zeta in Hs1, Ha1, Hd1.
  set (q1 := (setTheme n1 p).2) in *.
  pose proof (getTheme_stored q1 n1 Hs1) as Hg1.
  set (n2 := if String.eqb (getTheme q1) "dark" then "light" else "dark") in *.
  destruct (setTheme_spec n2 q1 Hd1) as (Hs2 & Ha2 & _). cbv zeta in Hs2, Ha2.
  set (q2 := (setTheme n2 q1).2) in *.
  pose proof (getTheme_stored q2 n2 Hs2) as Hg2.
  assert (Hn1 : getTheme q1 = n1 ∧ n1 ≠ t ∧ n2 = t).
  { unfold n2. rewrite Hg1. unfold n1. destruct Ht as [-> | ->]; simpl; done. }
  destruct Hn1 as (E1 & E2 & E3).
  assert (Ha : appliedTheme q2 = Some t) by (by rewrite Ha2, E3).
  rewrite E1. split; [done|]. split; [done|]. split; [done|]. split; [done|].
  split; [rewrite Hg2, E3; destruct Ht as [-> | ->]; done|].
  split; [by rewrite Hs2, E3|]. split; [done|].
  rewrite Ha. split; congruence.
Qed.

(** C7 fails on the code: the toggle flips what getTheme returns, and
    getTheme, documented as returning the current theme, answers dark when
    nothing is stored, whatever theme startup has applied.  On the sample
    page started with nothing stored and the system preferring light, the
    theme in effect is light; the first click stores and applies "light"
    again and the second one "dark", so two toggles do not bring the theme
    back. *)
Lemma first_toggle_after_system_light :
  let p := (main (load Sample.page ∅ (Some true))).2 in
  let p1 := (onThemeClick p).2 in
  let p2 := (onThemeClick p1).2 in
  appliedTheme p = Some "light" ∧ getTheme p = "dark" ∧
  appliedTheme p1 = Some "light" ∧
  appliedTheme p2 = Some "dark" ∧ localStorage p2 !! theme_key = Some "dark".
Proof. vm_compute. repeat split; reflexivity. Qed.

Lemma toggle_twice_witness :
  let p := load Sample.page {[theme_key := "light"]} None in
  getTheme (onThemeClick (onThemeClick p).2).2 = "light".
Proof.
  intros p.
  refine (proj1 (proj2 (proj2 (proj2 (proj2 (toggle_twice p _)))))).
  vm_compute. discriminate.
Defined.

(** C3, as the code has it: with nothing stored (or the empty string) the
    startup theme is light exactly when the system prefers light; a stored
    non-empty value decides alone, "light" giving light and every other
    value dark whatever the system prefers. *)
Theorem initThemeToggle_applies p :
  dom p ≠ [] →
  let p' := (initThemeToggle p).2 in
  (falsy (localStorage p !! theme_key) = true →
   appliedTheme p' =
   Some (if bool_decide (matchMedia_light p = Some true) then "light" else "dark")) ∧
  (∀ v, localStorage p !! theme_key = Some v → v ≠ "" →
   appliedTheme p' = Some (if bool_decide (v = "light") then "light" else "dark")).
Proof.
  intros Hd p'.
  assert (Happ : ∀ th, dom p' = setAttribute 0 "data-theme" th (dom p) → appliedTheme p' = Some th).
  { intros th E. unfold appliedTheme. rewrite E.
    assert (Hpos : 0 < length (dom p)) by (destruct (dom p); [done|simpl; lia]).
    rewrite documentElement_Some.
    - simpl. by apply getAttribute_setAttribute.
    - intros Hn. apply (f_equal length) in Hn. unfold setAttribute in Hn.
      rewrite length_alter in Hn. simpl in Hn. lia. }
  pose proof (initThemeToggle_dom p Hd) as E. fold p' in E.
  split.
  - intros Hf. rewrite Hf in E. apply Happ. rewrite E. f_equal.
    destruct (matchMedia_light p) as [[]|]; done.
  - intros v Hv Hne. rewrite Hv in E. simpl in E.
    rewrite bool_decide_eq_false_2 in E by done.
    apply Happ. rewrite E. f_equal. unfold getTheme. rewrite Hv.
    repeat case_bool_decide; congruence.
Qed.

Lemma initThemeToggle_applies_witness :
  appliedTheme (initThemeToggle (load Sample.bare {[theme_key := "blue"]} (Some true))).2
  = Some "dark".
Proof.
  refine (proj2 (initThemeToggle_applies
                   (load Sample.bare {[theme_key := "blue"]} (Some true)) _) "blue" _ _).
  - vm_compute. discriminate.
  - vm_compute. reflexivity.
  - discriminate.
Defined.

(** C3 as stated fails: a stored value that is neither "light" nor "dark"
    is not handled like an absent one.  With the system preferring light,
    the stored value "blue" starts the page dark and an empty storage
    starts it light. *)
Lemma stored_invalid_is_not_absent :
  let invalid := load Sample.bare {[theme_key := "blue"]} (Some true) in
  let absent := load Sample.bare ∅ (Some true) in
  appliedTheme (initThemeToggle invalid).2 = Some "dark" ∧
  appliedTheme (initThemeToggle absent).2 = Some "light".
Proof. vm_compute. split; reflexivity. Qed.

End ThemeFacts.

(** ** Section spy *)

Section SortFacts.

Context {A : Type} (cmp : A → A → Q).

Lemma sort_insert_perm x l : sort_insert cmp x l ≡ₚ x :: l.
Proof.
  induction l as [|y r IH]; simpl; [done|].
  destruct (Qle_bool (cmp x y) 0); [done|].
  rewrite IH. apply Permutation_swap.
Qed.

Lemma Array_sort_perm l : Array_sort cmp l ≡ₚ l.
Proof.
  induction l as [|x l IH]; simpl; [done|].
  by rewrite sort_insert_perm, IH.
Qed.

Lemma sort_insert_head x l :
  head (sort_insert cmp x l) =
  match l with
  | [] => Some x
  | y :: _ => if Qle_bool (cmp x y) 0 then Some x else Some y
  end.
Proof. destruct l as [|y r]; simpl; [done|]. by destruct (Qle_bool (cmp x y) 0). Qed.

End SortFacts.

Section RatioFacts.

Lemma or0_eq x : (or0 x == x)%Q.
Proof.
  unfold or0. destruct (Qeq_bool x 0) eqn:E; [|reflexivity].
  apply Qeq_bool_eq in E. by rewrite E.
Qed.

Lemma byRatioDesc_le a b :
  Qle_bool (byRatioDesc a b) 0 = true ↔ (intersectionRatio b <= intersectionRatio a)%Q.
Proof.
  rewrite Qle_bool_iff. unfold byRatioDesc. rewrite !or0_eq. split; intros; lra.
Qed.

(** The first element after sorting is an element of greatest ratio. *)
Lemma sort_head_greatest (l : list Entry) top :
  head (Array_sort byRatioDesc l) = Some top →
  top ∈ l ∧ ∀ e, e ∈ l → (intersectionRatio e <= intersectionRatio top)%Q.
Proof.
  revert top. induction l as [|x l IH]; intros top; simpl; [done|].
  rewrite sort_insert_head.
  destruct (Array_sort byRatioDesc l) as [|y r] eqn:E.
  - intros [= <-]. pose proof (Array_sort_perm byRatioDesc l) as Hp. rewrite E in Hp.
    apply Permutation_nil_l in Hp. subst l. split; [by left|].
    intros e He. apply list_elem_of_singleton in He. subst. apply Qle_refl.
  - destruct (IH y eq_refl) as [Hy Hmax].
    destruct (Qle_bool (byRatioDesc x y) 0) eqn:Hc; intros [= <-].
    + apply byRatioDesc_le in Hc. split; [by left|].
      intros e He. apply elem_of_cons in He as [->|He]; [apply Qle_refl|].
      eapply Qle_trans; [by apply Hmax|done].
    + split; [by right|].
      intros e He. apply elem_of_cons in He as [->|He]; [|by apply Hmax].
      destruct (Qlt_le_dec (intersectionRatio y) (intersectionRatio x)) as [Hlt|Hle]; [|done].
      apply Qlt_le_weak, byRatioDesc_le in Hlt. congruence.
Qed.

(** Stability: entries ahead of the chosen one have a smaller ratio. *)
Lemma sort_head_first (l : list Entry) top :
  head (Array_sort byRatioDesc l) = Some top →
  ∃ l1 l2, l = l1 ++ top :: l2 ∧
    ∀ e, e ∈ l1 → (intersectionRatio e < intersectionRatio top)%Q.
Proof.
  revert top. induction l as [|x l IH]; intros top; simpl; [done|].
  rewrite sort_insert_head.
  destruct (Array_sort byRatioDesc l) as [|y r] eqn:E.
  - intros [= <-]. exists [], l. split; [done|]. intros e He. by apply elem_of_nil in He.
  - destruct (IH y eq_refl) as (l1 & l2 & -> & Hlt).
    destruct (Qle_bool (byRatioDesc x y) 0) eqn:Hc; intros [= <-].
    + exists [], (l1 ++ y :: l2). split; [done|]. intros e He. by apply elem_of_nil in He.
    + exists (x :: l1), l2. split; [done|].
      intros e He. apply elem_of_cons in He as [->|He]; [|by apply Hlt].
      destruct (Qlt_le_dec (intersectionRatio x) (intersectionRatio y)) as [?|Hle]; [done|].
      apply byRatioDesc_le in Hle. congruence.
Qed.

End RatioFacts.

Section JsMapFacts.

Context {V : Type}.
Implicit Types (m : list (string * V)) (k : string) (v : V).

Lemma get_set_eq k v m : JsMap.get k (JsMap.set k v m) = Some v.
Proof.
  induction m as [|[k' v'] r IH]; simpl.
  - by rewrite String.eqb_refl.
  - destruct (String.eqb k' k) eqn:E; simpl; by rewrite E.
Qed.

Lemma get_set_ne k k' v m : k ≠ k' → JsMap.get k' (JsMap.set k v m) = JsMap.get k' m.
Proof.
  intros Hne. induction m as [|[k0 v0] r IH]; simpl.
  - destruct (String.eqb_spec k k'); [done|reflexivity].
  - destruct (String.eqb_spec k0 k) as [->|Hk]; simpl.
    + destruct (String.eqb_spec k k'); [done|reflexivity].
    + destruct (String.eqb_spec k0 k'); [done|apply IH].
Qed.

Lemma keys_get k m : k ∈ JsMap.keys m ↔ is_Some (JsMap.get k m).
Proof.
  unfold JsMap.keys. induction m as [|[k' v'] r IH]; simpl.
  - split; [intros H; by apply elem_of_nil in H|intros [? [=]]].
  - rewrite elem_of_cons, IH. destruct (String.eqb_spec k' k) as [->|Hne].
    + split; eauto.
    + split; [intros [->|?]; done|intros ?; by right].
Qed.

End JsMapFacts.

Section SpyFacts.

Implicit Types (d : Dom) (h l a : nat) (e x : Element) (p : Page) (spy : TocSpy).

Lemma indexLink_get d m a k v :
  JsMap.get k (indexLink d m a) = Some v →
  JsMap.get k m = Some v ∨
  (v = a ∧ k ≠ "" ∧ k = JsString.href_key (getAttribute d a "href")).
Proof.
  unfold indexLink. case_bool_decide as Hk; [by left|].
  destruct (decide (JsString.href_key (getAttribute d a "href") = k)) as [<-|Hne].
  - rewrite get_set_eq. intros [= <-]. by right.
  - rewrite get_set_ne by done. by left.
Qed.

Lemma foldl_indexLink_get d ls m k v :
  JsMap.get k (foldl (indexLink d) m ls) = Some v →
  JsMap.get k m = Some v ∨
  (v ∈ ls ∧ k ≠ "" ∧ k = JsString.href_key (getAttribute d v "href")).
Proof.
  revert m. induction ls as [|a ls IH]; intros m; simpl; [by left|].
  intros H. apply IH in H as [H|(? & ? & ?)].
  - apply indexLink_get in H as [H|(-> & ? & ?)]; [by left|].
    right. split; [by left|done].
  - right. split; [by right|done].
Qed.

(** What initTocSpy has indexed: under a non-empty key, a link of the list
    whose href gives that key. *)
Lemma idToLink_link t d k a :
  JsMap.get k (idToLink (tocSpy t d)) = Some a →
  a ∈ links (tocSpy t d) ∧ k ≠ "" ∧ k = JsString.href_key (getAttribute d a "href").
Proof.
  simpl. intros H. by apply foldl_indexLink_get in H as [[=]|H].
Qed.

Lemma links_NoDup t d : NoDup (links (tocSpy t d)).
Proof. simpl. unfold querySelectorAll_in, handles. apply NoDup_filter, NoDup_seq. Qed.

Lemma links_lt t d l : l ∈ links (tocSpy t d) → l < length d.
Proof.
  simpl. unfold querySelectorAll_in, handles. intros H.
  apply list_elem_of_filter in H as [_ H]. apply elem_of_seq in H. lia.
Qed.

Lemma getElementById_Some id d h :
  getElementById id d = Some h → id ≠ "" ∧ idOf d h = id ∧ h < length d.
Proof.
  unfold getElementById. case_bool_decide as Hid; [done|]. intros H.
  apply querySelector_Some in H as (Hlt & _ & Hm).
  split; [done|]. split; [|done].
  unfold matchesAt in Hm. unfold idOf, getAttribute.
  destruct (d !! h) as [e|]; [|done]. simpl in *.
  apply bool_decide_eq_true in Hm. by rewrite Hm.
Qed.

(** Every observed section carries the id some link is indexed under. *)
Lemma sections_indexed t d s :
  s ∈ sections (tocSpy t d) →
  idOf d s ≠ "" ∧ ∃ a, JsMap.get (idOf d s) (idToLink (tocSpy t d)) = Some a.
Proof.
  simpl. intros H. apply list_elem_of_omap in H as (k & Hk & Hs).
  apply getElementById_Some in Hs as (Hne & <- & _).
  split; [done|]. by apply keys_get in Hk as [a Ha]; exists a.
Qed.

(** For an href that starts with "#", initTocSpy's [replace] and the click
    handler's [slice] remove the same character. *)
Lemma replace_hash_slice1 href :
  JsString.startsWith_hash href = true → JsString.replace_hash href = JsString.slice1 href.
Proof.
  destruct href as [|c r]; simpl; [done|]. by intros ->.
Qed.

Lemma foldl_indexLink_other d ls m k :
  (∀ b, b ∈ ls → JsString.href_key (getAttribute d b "href") ≠ k) →
  JsMap.get k (foldl (indexLink d) m ls) = JsMap.get k m.
Proof.
  revert m. induction ls as [|b ls IH]; intros m Hls; simpl; [done|].
  rewrite IH by (intros b' Hb'; apply Hls; by right).
  unfold indexLink. case_bool_decide; [done|].
  apply get_set_ne. apply Hls. by left.
Qed.

(** The index holds, for a key, the last link whose href gives that key. *)
Lemma idToLink_last t d (before : list nat) a (after : list nat) :
  links (tocSpy t d) = before ++ a :: after →
  JsString.href_key (getAttribute d a "href") ≠ "" →
  (∀ b, b ∈ after →
     JsString.href_key (getAttribute d b "href") ≠ JsString.href_key (getAttribute d a "href")) →
  JsMap.get (JsString.href_key (getAttribute d a "href")) (idToLink (tocSpy t d)) = Some a.
Proof.
  simpl. intros -> Hne Hl2. rewrite foldl_app. simpl.
  rewrite foldl_indexLink_other by done.
  unfold indexLink at 1. rewrite bool_decide_eq_false_2 by done.
  apply get_set_eq.
Qed.

End SpyFacts.

Section ActiveFacts.

Implicit Types (d : Dom) (h l a : nat) (e x : Element) (p : Page) (spy : TocSpy).

Lemma classContains_remove d a c h c' :
  classContains (classList_remove a c d) h c' =
  if decide (h = a ∧ c' = c) then false else classContains d h c'.
Proof.
  unfold classContains, classList_remove.
  destruct (decide (h = a)) as [->|Hne].
  - rewrite list_lookup_alter_eq. destruct (d !! a) as [e|]; simpl; [|by case_decide].
    case_decide as Hc.
    + destruct Hc as [_ ->]. apply bool_decide_eq_false_2.
      rewrite list_elem_of_filter. tauto.
    + apply bool_decide_ext. rewrite list_elem_of_filter. intuition congruence.
  - rewrite list_lookup_alter_ne by done. rewrite decide_False by tauto. done.
Qed.

Lemma classContains_add d a c h :
  classContains (classList_add a c d) h c =
  if decide (h = a) then bool_decide (a < length d) else classContains d h c.
Proof.
  unfold classContains, classList_add.
  destruct (decide (h = a)) as [->|Hne].
  - rewrite list_lookup_alter_eq. destruct (d !! a) as [e|] eqn:E; simpl.
    + rewrite (bool_decide_eq_true_2 (a < length d)) by (by eapply lookup_lt_Some).
      apply bool_decide_eq_true_2.
      destruct (bool_decide (c ∈ classList e)) eqn:Hc.
      * by apply bool_decide_eq_true in Hc.
      * simpl. apply elem_of_app. right. by left.
    + symmetry. apply bool_decide_eq_false_2. apply lookup_ge_None in E. lia.
  - by rewrite list_lookup_alter_ne.
Qed.

Lemma length_clear d ls :
  length (foldl (λ d a, classList_remove a "is-active" d) d ls) = length d.
Proof.
  revert d. induction ls as [|a ls IH]; intros d; simpl; [done|].
  rewrite IH. unfold classList_remove. apply length_alter.
Qed.

Lemma isActive_clear d ls h :
  isActive (foldl (λ d a, classList_remove a "is-active" d) d ls) h =
  if decide (h ∈ ls) then false else isActive d h.
Proof.
  unfold isActive. revert d. induction ls as [|a ls IH]; intros d.
  - destruct (decide (h ∈ [])) as [H|]; [by apply elem_of_nil in H|done].
  - cbn [foldl]. rewrite IH, classContains_remove.
    destruct (decide (h ∈ ls)) as [Hin|Hin], (decide (h ∈ a :: ls)) as [Hin'|Hin'];
      try done.
    + exfalso. apply Hin'. by right.
    + apply elem_of_cons in Hin' as [->|?]; [|done]. by rewrite decide_True.
    + rewrite decide_False; [done|]. intros [-> _]. apply Hin'. by left.
Qed.

Lemma length_setActive spy id d : length (setActive spy id d) = length d.
Proof.
  unfold setActive. destruct (JsMap.get id (idToLink spy)).
  - unfold classList_add. by rewrite length_alter, length_clear.
  - apply length_clear.
Qed.

(** setActive clears every link and then marks the link indexed under the
    id, if there is one. *)
Lemma isActive_setActive spy id d l :
  l ∈ links spy →
  isActive (setActive spy id d) l =
  match JsMap.get id (idToLink spy) with
  | Some a => bool_decide (l = a) && bool_decide (a < length d)
  | None => false
  end.
Proof.
  intros Hl. unfold setActive. destruct (JsMap.get id (idToLink spy)) as [a|].
  - unfold isActive. rewrite classContains_add, length_clear.
    destruct (decide (l = a)) as [->|Hne].
    + by rewrite (bool_decide_eq_true_2 (a = a)).
    + rewrite (bool_decide_eq_false_2 (l = a)) by done. simpl.
      fold (isActive (foldl (λ d a, classList_remove a "is-active" d) d (links spy)) l).
      rewrite isActive_clear. by destruct (decide (l ∈ links spy)).
  - rewrite isActive_clear. by destruct (decide (l ∈ links spy)).
Qed.

Lemma filter_none {A : Type} (P : A → Prop) `{∀ y : A, Decision (P y)} (ys : list A) :
  (∀ y : A, y ∈ ys → ¬ P y) → filter P ys = [].
Proof.
  induction ys as [|y ys IH]; intros Hl; [done|].
  rewrite filter_cons, decide_False by (apply Hl; by left).
  apply IH. intros b Hb. apply Hl. by right.
Qed.

Lemma filter_eq_NoDup a (ls : list nat) :
  NoDup ls → length (filter (λ y : nat, y = a) ls) ≤ 1.
Proof.
  induction 1 as [|y ls' Hy Hnd IH]; [simpl; lia|].
  rewrite filter_cons. destruct (decide (y = a)) as [->|Hne]; [|done].
  rewrite filter_none; [simpl; lia|]. by intros z Hz ->.
Qed.

Lemma activeLinks_setActive spy id d :
  NoDup (links spy) →
  length (activeLinks spy (setActive spy id d)) ≤ 1 ∧
  (JsMap.get id (idToLink spy) = None → activeLinks spy (setActive spy id d) = []).
Proof.
  intros Hnd. unfold activeLinks.
  destruct (JsMap.get id (idToLink spy)) as [a|] eqn:Hg.
  - split; [|done].
    rewrite (filter_iff_in _ (λ l, l = a ∧ a < length d)).
    + destruct (decide (a < length d)) as [Hlt|Hge].
      * rewrite (list_filter_iff _ (λ y : nat, y = a)) by tauto. by apply filter_eq_NoDup.
      * rewrite filter_none; [simpl; lia|]. by intros y _ [_ ?].
    + intros l Hl. rewrite isActive_setActive, Hg by done.
      rewrite andb_true_iff, !bool_decide_eq_true. done.
  - assert (E : filter (λ l, isActive (setActive spy id d) l = true) (links spy) = []).
    { apply filter_none. intros l Hl. by rewrite isActive_setActive, Hg. }
    rewrite E. split; [simpl; lia|done].
Qed.

End ActiveFacts.

Section SpyTheorems.

Implicit Types (d : Dom) (h l a : nat) (e : Entry) (p : Page) (spy : TocSpy).

Lemma onIntersect_eq spy entries d :
  onIntersect spy entries d =
  match head (Array_sort byRatioDesc (filter (λ e, isIntersecting e = true) entries)) with
  | Some top =>
      if bool_decide (idOf d (target top) = "") then d
      else setActive spy (idOf d (target top)) d
  | None => d
  end.
Proof. unfold onIntersect. by destruct (Array_sort _ _). Qed.




Lemma onTocClick_eq spy tgt p :
  onTocClick spy tgt p =
  match (if instanceofHTMLElement (dom p) tgt
         then closest (SelTag "a") (dom p) tgt else None) with
  | None => (Normal false, p)
  | Some a =>
      let href := default "" (getAttribute (dom p) a "href") in
      if JsString.startsWith_hash href then
        match getElementById (JsString.slice1 href) (dom p) with
        | None => (Normal false, p)
        | Some section =>
            (Normal true,
             with_dom (setActive spy (JsString.slice1 href))
               (with_scrolls (λ s, s ++ [ScrollIntoView section "smooth" "start"]) p))
        end
      else (Normal false, p)
  end.
Proof.
  unfold onTocClick, mbind, Js_bind, gets, modify_dom, modify.
  destruct (if instanceofHTMLElement (dom p) tgt then _ else _) as [a|]; [|done].
  simpl. destruct (JsString.startsWith_hash _); [|done]. simpl.
  by destruct (getElementById _ _).
Qed.

(** C2, as the code has it: a click whose target is an HTMLElement inside
    an anchor whose href starts with "#" and names an existing element
    cancels the default action, asks for a smooth scroll to that element
    and calls setActive at once, so the link indexed under the fragment is
    the one active link; it is the clicked anchor when the index holds that
    anchor for the fragment.  A click whose target is not an HTMLElement,
    or with no anchor above it, with an href that does not start with "#",
    or with a fragment that names no element does nothing. *)
Theorem tocClick_activates t p tgt :
  let spy := tocSpy t (dom p) in
  (∀ a href section,
     instanceofHTMLElement (dom p) tgt = true →
     closest (SelTag "a") (dom p) tgt = Some a →
     getAttribute (dom p) a "href" = Some href →
     JsString.startsWith_hash href = true →
     getElementById (JsString.slice1 href) (dom p) = Some section →
     let r := onTocClick spy tgt p in
     r.1 = Normal true ∧
     scrolls r.2 = scrolls p ++ [ScrollIntoView section "smooth" "start"] ∧
     dom r.2 = setActive spy (JsString.slice1 href) (dom p) ∧
     (∀ l, l ∈ links spy →
        isActive (dom r.2) l =
        bool_decide (JsMap.get (JsString.slice1 href) (idToLink spy) = Some l)) ∧
     (JsMap.get (JsString.slice1 href) (idToLink spy) = Some a →
        isActive (dom r.2) a = true ∧
        ∀ l, l ∈ links spy → l ≠ a → isActive (dom r.2) l = false)) ∧
  (closest (SelTag "a") (dom p) tgt = None → onTocClick spy tgt p = (Normal false, p)) ∧
  (∀ a, closest (SelTag "a") (dom p) tgt = Some a →
     JsString.startsWith_hash (default "" (getAttribute (dom p) a "href")) = false →
     onTocClick spy tgt p = (Normal false, p)) ∧
  (∀ a, closest (SelTag "a") (dom p) tgt = Some a →
     getElementById (JsString.slice1 (default "" (getAttribute (dom p) a "href"))) (dom p)
     = None →
     onTocClick spy tgt p = (Normal false, p)) ∧
  (instanceofHTMLElement (dom p) tgt = false → onTocClick spy tgt p = (Normal false, p)).
Proof.
  intros spy. split; [|split; [|split; [|split]]].
  - intros a href section Ht Hc Hh Hs Hg r.
    assert (E : r = (Normal true,
                     with_dom (setActive spy (JsString.slice1 href))
                       (with_scrolls (λ s, s ++ [ScrollIntoView section "smooth" "start"]) p))).
    { unfold r. rewrite onTocClick_eq, Ht, Hc, Hh. simpl. by rewrite Hs, Hg. }
    assert (E1 : r.1 = Normal true) by (by rewrite E).
    assert (Es : scrolls r.2 = scrolls p ++ [ScrollIntoView section "smooth" "start"])
      by (by rewrite E).
    assert (Ed : dom r.2 = setActive spy (JsString.slice1 href) (dom p)) by (by rewrite E).
    clearbody r. clear E.
    assert (Hall : ∀ l, l ∈ links spy →
              isActive (dom r.2) l =
              bool_decide (JsMap.get (JsString.slice1 href) (idToLink spy) = Some l)).
    { intros l Hl. rewrite Ed, isActive_setActive by done.
      destruct (JsMap.get (JsString.slice1 href) (idToLink spy)) as [a'|] eqn:Hget.
      - destruct (idToLink_link t (dom p) _ a' Hget) as (Hal & _).
        rewrite (bool_decide_eq_true_2 (a' < length (dom p))) by (by eapply links_lt).
        rewrite andb_true_r. apply bool_decide_ext. split; [by intros ->|by intros [= ->]].
      - symmetry. by apply bool_decide_eq_false_2. }
    split; [done|]. split; [done|]. split; [done|]. split; [done|].
    intros Hget. destruct (idToLink_link t (dom p) _ a Hget) as (Hal & _). split.
    + rewrite Hall by done. by apply bool_decide_eq_true_2.
    + intros l Hl Hne. rewrite Hall by done. apply bool_decide_eq_false_2.
      rewrite Hget. by intros [= ->].
  - intros Hc. rewrite onTocClick_eq, Hc. by destruct (instanceofHTMLElement _ _).
  - intros a Hc Hs. rewrite onTocClick_eq, Hc.
    destruct (instanceofHTMLElement _ _); [|done]. simpl. by rewrite Hs.
  - intros a Hc Hg. rewrite onTocClick_eq, Hc.
    destruct (instanceofHTMLElement _ _); [|done]. simpl. rewrite Hg.
    by destruct (JsString.startsWith_hash _).
  - intros Ht. by rewrite onTocClick_eq, Ht.
Qed.

Lemma tocClick_activates_witness :
  let p := load Sample.page ∅ None in
  let r := onTocClick Sample.spy 5 p in
  r.1 = Normal true ∧ isActive (dom r.2) 5 = true.
Proof.
  intros p r.
  destruct (proj1 (tocClick_activates 3 p 5) 5 "#flow" 8) as (H1 & _ & _ & _ & H2);
    [vm_compute; reflexivity ..|].
  split; [exact H1|].
  apply H2. vm_compute. reflexivity.
Defined.

(** C2 as stated fails: the second link of this table of contents names a
    section that does not exist; a click on it is not cancelled, scrolls
    nothing and marks nothing.  The same holds for the third link, which
    leaves the page, and, on the page with icons, for a click on the svg
    icon inside a link to an existing section: the icon is not an
    HTMLElement. *)
Lemma unresolved_link_click_not_cancelled :
  let p := load Sample.toc_page ∅ None in
  let spy := tocSpy 2 (dom p) in
  let q := load Sample.icon_page ∅ None in
  isDescendant (dom p) 2 4 = true ∧
  closest (SelTag "a") (dom p) 4 = Some 4 ∧
  getAttribute (dom p) 4 "href" = Some "#missing" ∧
  onTocClick spy 4 p = (Normal false, p) ∧
  isActive (dom p) 4 = false ∧
  onTocClick spy 5 p = (Normal false, p) ∧
  closest (SelTag "a") (dom q) 4 = Some 3 ∧
  getElementById "faq" (dom q) = Some 5 ∧
  onTocClick (tocSpy 2 (dom q)) 4 q = (Normal false, q).
Proof. vm_compute. repeat split; reflexivity. Qed.

Lemma spyStep_dom spy p ev :
  dom (spyStep spy p ev) = dom p ∨
  ∃ id, dom (spyStep spy p ev) = setActive spy id (dom p).
Proof.
  destruct ev as [entries|tgt]; simpl.
  - rewrite onIntersect_eq. destruct (head _) as [top|]; [|by left].
    case_bool_decide; [by left|right; eauto].
  - rewrite onTocClick_eq.
    destruct (if instanceofHTMLElement (dom p) tgt then _ else _) as [a|]; [|by left].
    simpl. destruct (JsString.startsWith_hash _); [|by left].
    destruct (getElementById _ _); [|by left]. right. eauto.
Qed.

(** C10, as the code has it: setActive leaves at most one link active, and
    none when no link is indexed under the id; every event either leaves
    the document alone or ends in setActive.  So after every sequence of
    events at most one link is active, unless no event has activated
    anything yet and the document is still the loaded one; and a table of
    contents loaded with at most one active link keeps at most one
    throughout. *)
Theorem at_most_one_active t p0 evs :
  let spy := tocSpy t (dom p0) in
  (∀ id d,
     length (activeLinks spy (setActive spy id d)) ≤ 1 ∧
     (JsMap.get id (idToLink spy) = None → activeLinks spy (setActive spy id d) = [])) ∧
  (∀ p ev,
     dom (spyStep spy p ev) = dom p ∨
     ∃ id, dom (spyStep spy p ev) = setActive spy id (dom p)) ∧
  (length (activeLinks spy (dom (foldl (spyStep spy) p0 evs))) ≤ 1 ∨
   dom (foldl (spyStep spy) p0 evs) = dom p0) ∧
  (length (activeLinks spy (dom p0)) ≤ 1 →
   length (activeLinks spy (dom (foldl (spyStep spy) p0 evs))) ≤ 1).
Proof.
  intros spy.
  assert (Hset : ∀ id d,
            length (activeLinks spy (setActive spy id d)) ≤ 1 ∧
            (JsMap.get id (idToLink spy) = None → activeLinks spy (setActive spy id d) = [])).
  { intros id d. apply activeLinks_setActive, links_NoDup. }
  split; [done|]. split; [apply spyStep_dom|].
  clearbody spy.
  assert (Hrun : ∀ evs' p, length (activeLinks spy (dom p)) ≤ 1 →
            length (activeLinks spy (dom (foldl (spyStep spy) p evs'))) ≤ 1).
  { induction evs' as [|ev evs' IH]; intros p Hp; simpl; [done|].
    apply IH. destruct (spyStep_dom spy p ev) as [->|[id ->]]; [done|]. apply Hset. }
  split; [|apply Hrun].
  revert p0. induction evs as [|ev evs IH]; intros p; simpl; [by right|].
  destruct (spyStep_dom spy p ev) as [E|[id E]].
  - destruct (IH (spyStep spy p ev)) as [H|H]; [by left|right; by rewrite H].
  - left. apply Hrun. rewrite E. apply Hset.
Qed.

Lemma at_most_one_active_witness :
  let p0 := load Sample.page ∅ None in
  length (activeLinks (tocSpy 3 (dom p0))
            (dom (foldl (spyStep (tocSpy 3 (dom p0))) p0
                    [TocClick 5; Intersection [mkEntry true (1 # 2) 7]; TocClick 6]))) ≤ 1.
Proof.
  intros p0.
  refine (proj2 (proj2 (proj2 (at_most_one_active 3 p0 _))) _).
  vm_compute. lia.
Defined.

(** C10 as stated fails: the events that return before setActive leave
    the markers of the markup alone.  On a page whose markup marks two
    links, an observer callback without an intersecting entry and a click
    on a link that leaves the page keep both marked. *)
Lemma two_marked_links_stay_marked :
  let p0 := load Sample.two_marked_page ∅ None in
  let spy := tocSpy 2 (dom p0) in
  let p := foldl (spyStep spy) p0 [Intersection [mkEntry false 0 6]; TocClick 5] in
  activeLinks spy (dom p) = [3; 4].
Proof. vm_compute. reflexivity. Qed.

End SpyTheorems.

Section SpyStable.

Implicit Types (d : Dom) (h l a : nat) (p : Page) (spy : TocSpy).

Lemma spyView_proj {B : Type} (g : _ → B) d d' :
  spyView <$> d = spyView <$> d' → (g ∘ spyView) <$> d = (g ∘ spyView) <$> d'.
Proof. intros H. by rewrite !(list_fmap_compose spyView g), H. Qed.

Lemma getElementById_ext id d d' :
  parentElement <$> d = parentElement <$> d' →
  matches (SelId id) <$> d = matches (SelId id) <$> d' →
  getElementById id d = getElementById id d'.
Proof.
  intros Hp Hm. unfold getElementById. case_bool_decide; [done|].
  by apply querySelector_ext.
Qed.

Lemma foldl_ext_in {A B : Type} (f g : A → B → A) (ys : list B) (x : A) :
  (∀ x' y, y ∈ ys → f x' y = g x' y) → foldl f x ys = foldl g x ys.
Proof.
  revert x. induction ys as [|y ys IH]; intros x H; simpl; [done|].
  rewrite H by (by left). apply IH. intros x' y' Hy. apply H. by right.
Qed.

Lemma omap_ext_all {A B : Type} (f g : A → option B) (ys : list A) :
  (∀ y, f y = g y) → omap f ys = omap g ys.
Proof.
  intros H. apply list_omap_ext. induction ys as [|y ys IH]; constructor; auto.
Qed.

(** The section spy reads tags, parents, ids and hrefs only: documents that
    agree on those give the same links, index and sections. *)
Lemma tocSpy_ext t d d' :
  spyView <$> d = spyView <$> d' → tocSpy t d = tocSpy t d'.
Proof.
  intros H.
  pose proof (spyView_proj (λ v, v.1.1.2) d d' H) as Hpar.
  pose proof (spyView_proj (λ v, String.eqb v.1.1.1 "a") d d' H) as Htag.
  pose proof (spyView_proj (λ v, v.2) d d' H) as Hhref.
  assert (Hid : ∀ id, matches (SelId id) <$> d = matches (SelId id) <$> d').
  { intros id. exact (spyView_proj (λ v, bool_decide (v.1.2 = Some id)) d d' H). }
  change (parentElement <$> d = parentElement <$> d') in Hpar.
  change (matches (SelTag "a") <$> d = matches (SelTag "a") <$> d') in Htag.
  assert (Hlinks : querySelectorAll_in t (SelTag "a") d = querySelectorAll_in t (SelTag "a") d').
  { unfold querySelectorAll_in, handles, isDescendant. rewrite (length_ext _ _ _ Hpar).
    apply list_filter_iff. intros h.
    by rewrite (ancestors_ext _ _ _ Hpar), (matchesAt_ext _ _ _ _ Htag). }
  assert (Hget : ∀ a, getAttribute d a "href" = getAttribute d' a "href").
  { intros a. unfold getAttribute.
    pose proof (f_equal (λ ys, ys !! a) Hhref) as Hi. cbv beta in Hi.
    rewrite !list_lookup_fmap in Hi.
    destruct (d !! a), (d' !! a); simpl in *; congruence. }
  unfold tocSpy. rewrite <- Hlinks.
  assert (Hfold : foldl (indexLink d) [] (querySelectorAll_in t (SelTag "a") d)
                  = foldl (indexLink d') [] (querySelectorAll_in t (SelTag "a") d)).
  { apply foldl_ext_in. intros m a _. unfold indexLink. by rewrite Hget. }
  rewrite <- Hfold. f_equal.
  apply omap_ext_all. intros id. by apply getElementById_ext.
Qed.

Lemma spyView_setActive spy id d : spyView <$> setActive spy id d = spyView <$> d.
Proof.
  unfold setActive.
  assert (Hc : ∀ ls d0, spyView <$> foldl (λ d a, classList_remove a "is-active" d) d0 ls
                        = spyView <$> d0).
  { induction ls as [|a ls IH]; intros d0; simpl; [done|].
    rewrite IH. unfold classList_remove. by apply fmap_alter_inv. }
  destruct (JsMap.get id (idToLink spy)).
  - unfold classList_add. rewrite fmap_alter_inv; [apply Hc|].
    intros e. by destruct (bool_decide _).
  - apply Hc.
Qed.

Lemma spyView_spyStep spy p ev : spyView <$> dom (spyStep spy p ev) = spyView <$> dom p.
Proof.
  destruct (spyStep_dom spy p ev) as [->|[id ->]]; [done|]. apply spyView_setActive.
Qed.

(** The constants computed at startup stay right for the document as the
    section spy changes it. *)
Lemma tocSpy_after_events t spy p evs :
  tocSpy t (dom (foldl (spyStep spy) p evs)) = tocSpy t (dom p).
Proof.
  apply tocSpy_ext. revert p. induction evs as [|ev evs IH]; intros p; simpl; [done|].
  by rewrite IH, spyView_spyStep.
Qed.

End SpyStable.

(** ** Accordion *)

Section AccordionFacts.

Implicit Types (d : Dom) (h : nat) (e x : Element) (p : Page).

Lemma closest_ext s d d' h :
  parentElement <$> d = parentElement <$> d' →
  matches s <$> d = matches s <$> d' →
  closest s d h = closest s d' h.
Proof.
  intros Hp Hm. unfold closest. rewrite (ancestors_ext _ _ _ Hp). f_equal.
  apply list_filter_iff. intros a. by rewrite (matchesAt_ext _ _ _ _ Hm).
Qed.

Lemma nextElementSibling_ext d d' h :
  parentElement <$> d = parentElement <$> d' →
  nextElementSibling d h = nextElementSibling d' h.
Proof.
  intros Hp. unfold nextElementSibling, handles.
  rewrite (parentOf_ext _ _ _ Hp), (length_ext _ _ _ Hp).
  destruct (parentOf d' h); [|done]. f_equal.
  apply list_filter_iff. intros j. by rewrite (parentOf_ext _ _ _ Hp).
Qed.

Lemma instanceofHTMLElement_ext d d' h :
  isHTMLElement <$> d = isHTMLElement <$> d' →
  instanceofHTMLElement d h = instanceofHTMLElement d' h.
Proof.
  intros H. unfold instanceofHTMLElement.
  assert (Hi : (isHTMLElement <$> d) !! h = (isHTMLElement <$> d') !! h) by (by rewrite H).
  rewrite !list_lookup_fmap in Hi.
  destruct (d !! h), (d' !! h); simpl in *; congruence.
Qed.

Lemma closest_Some s d h a :
  closest s d h = Some a → matchesAt s d a = true ∧ a < length d.
Proof.
  unfold closest. intros H.
  apply head_Some_elem_of, list_elem_of_filter in H as [Hm _].
  apply Is_true_eq_true in Hm. split; [done|].
  unfold matchesAt in Hm. apply lookup_lt_is_Some.
  destruct (d !! a); [eauto|done].
Qed.

Lemma nextElementSibling_Some d h j :
  nextElementSibling d h = Some j → h < j ∧ j < length d ∧ parentOf d j = parentOf d h.
Proof.
  unfold nextElementSibling, handles. destruct (parentOf d h) as [a|]; [|done].
  intros H. apply head_Some_elem_of, list_elem_of_filter in H as [Hp Hin].
  apply elem_of_seq in Hin. apply andb_prop_elim in Hp as [H1 H2].
  apply bool_decide_unpack in H1, H2. repeat split; [done|lia|done].
Qed.

Lemma isHidden_setHidden d h b : h < length d → isHidden (setHidden h b d) h = b.
Proof.
  intros Hlt. unfold isHidden, setHidden. rewrite list_lookup_alter_eq.
  by destruct (lookup_lt_is_Some_2 d h Hlt) as [e ->].
Qed.

(** The handler, case by case. *)
Lemma onAccordionClick_eq tgt p :
  onAccordionClick tgt p =
  match (if instanceofHTMLElement (dom p) tgt
         then closest (SelTagClass "button" "acc__item") (dom p) tgt else None) with
  | None => (Normal (), p)
  | Some btn =>
      match nextElementSibling (dom p) btn with
      | None => (Normal (), p)
      | Some panel =>
          if instanceofHTMLElement (dom p) panel then
            let expanded := bool_decide (getAttribute (dom p) btn "aria-expanded" = Some "true") in
            (Normal (),
             with_dom (λ d, setHidden panel expanded
                              (setAttribute btn "aria-expanded"
                                 (if expanded then "false" else "true") d)) p)
          else (Normal (), p)
      end
  end.
Proof.
  unfold onAccordionClick, mbind, Js_bind, gets, modify_dom, modify.
  destruct (if instanceofHTMLElement (dom p) tgt then _ else _) as [btn|]; [|done].
  destruct (nextElementSibling (dom p) btn) as [panel|]; [|done].
  destruct (instanceofHTMLElement (dom p) panel); [|done]. simpl.
  by destruct p.
Qed.

Lemma accordion_step p tgt btn panel :
  instanceofHTMLElement (dom p) tgt = true →
  closest (SelTagClass "button" "acc__item") (dom p) tgt = Some btn →
  nextElementSibling (dom p) btn = Some panel →
  instanceofHTMLElement (dom p) panel = true →
  let expanded := bool_decide (getAttribute (dom p) btn "aria-expanded" = Some "true") in
  let p' := (onAccordionClick tgt p).2 in
  getAttribute (dom p') btn "aria-expanded" = Some (if expanded then "false" else "true") ∧
  isHidden (dom p') panel = expanded ∧
  (∀ h, h ≠ btn → h ≠ panel → dom p' !! h = dom p !! h) ∧
  instanceofHTMLElement (dom p') tgt = true ∧
  closest (SelTagClass "button" "acc__item") (dom p') tgt = Some btn ∧
  nextElementSibling (dom p') btn = Some panel ∧
  instanceofHTMLElement (dom p') panel = true.
Proof.
  intros Ht Hc Hn Hp expanded p'.
  assert (E : dom p' = setHidden panel expanded
                (setAttribute btn "aria-expanded" (if expanded then "false" else "true") (dom p))).
  { unfold p'. by rewrite onAccordionClick_eq, Ht, Hc, Hn, Hp. }
  destruct (closest_Some _ _ _ _ Hc) as [_ Hbl].
  destruct (nextElementSibling_Some _ _ _ Hn) as (Hlt & Hpl & _).
  assert (Hpar : parentElement <$> dom p' = parentElement <$> dom p).
  { rewrite E. unfold setHidden, setAttribute. by rewrite !fmap_alter_inv. }
  assert (Hhtml : isHTMLElement <$> dom p' = isHTMLElement <$> dom p).
  { rewrite E. unfold setHidden, setAttribute. by rewrite !fmap_alter_inv. }
  assert (Hm : matches (SelTagClass "button" "acc__item") <$> dom p'
               = matches (SelTagClass "button" "acc__item") <$> dom p).
  { rewrite E. unfold setHidden, setAttribute. by rewrite !fmap_alter_inv. }
  repeat split.
  - rewrite E. unfold setHidden.
    rewrite (getAttribute_ext _ (setAttribute btn "aria-expanded"
               (if expanded then "false" else "true") (dom p)))
      by (by apply fmap_alter_inv).
    by apply getAttribute_setAttribute.
  - rewrite E. apply isHidden_setHidden. unfold setAttribute. by rewrite length_alter.
  - intros h Hb Hpn. rewrite E. unfold setHidden, setAttribute.
    by rewrite !list_lookup_alter_ne.
  - by rewrite (instanceofHTMLElement_ext _ _ _ Hhtml).
  - by rewrite (closest_ext _ _ _ _ Hpar Hm).
  - by rewrite (nextElementSibling_ext _ _ _ Hpar).
  - by rewrite (instanceofHTMLElement_ext _ _ _ Hhtml).
Qed.

(** C8, as the code has it: a click whose target is an HTMLElement and
    whose nearest [button.acc__item] is a collapsed trigger followed by an
    HTMLElement panel sets aria-expanded to "true" and shows the panel; the
    same click again sets it to "false" and hides the panel; no other
    element changes.  A click with no such button above it, or whose target
    is not an HTMLElement, changes nothing. *)
Theorem accordion_click p tgt :
  (∀ btn panel,
     instanceofHTMLElement (dom p) tgt = true →
     closest (SelTagClass "button" "acc__item") (dom p) tgt = Some btn →
     nextElementSibling (dom p) btn = Some panel →
     instanceofHTMLElement (dom p) panel = true →
     getAttribute (dom p) btn "aria-expanded" ≠ Some "true" →
     let p1 := (onAccordionClick tgt p).2 in
     let p2 := (onAccordionClick tgt p1).2 in
     getAttribute (dom p1) btn "aria-expanded" = Some "true" ∧
     isHidden (dom p1) panel = false ∧
     getAttribute (dom p2) btn "aria-expanded" = Some "false" ∧
     isHidden (dom p2) panel = true ∧
     (∀ h, h ≠ btn → h ≠ panel → dom p1 !! h = dom p !! h ∧ dom p2 !! h = dom p !! h)) ∧
  (closest (SelTagClass "button" "acc__item") (dom p) tgt = None →
     onAccordionClick tgt p = (Normal (), p)) ∧
  (instanceofHTMLElement (dom p) tgt = false → onAccordionClick tgt p = (Normal (), p)).
Proof.
  split; [|split].
  - intros btn panel Ht Hc Hn Hp Hcol p1 p2.
    destruct (accordion_step p tgt btn panel Ht Hc Hn Hp) as (A1 & H1 & F1 & Ht1 & Hc1 & Hn1 & Hp1).
    fold p1 in A1, H1, F1, Ht1, Hc1, Hn1, Hp1.
    rewrite bool_decide_eq_false_2 in A1, H1 by done.
    destruct (accordion_step p1 tgt btn panel Ht1 Hc1 Hn1 Hp1) as (A2 & H2 & F2 & _).
    fold p2 in A2, H2, F2.
    rewrite bool_decide_eq_true_2 in A2, H2 by done.
    repeat split; try done.
    + by apply F1.
    + rewrite F2 by done. by apply F1.
  - intros Hc. rewrite onAccordionClick_eq, Hc. by destruct (instanceofHTMLElement _ _).
  - intros Ht. by rewrite onAccordionClick_eq, Ht.
Qed.

Lemma accordion_click_witness :
  let p := load Sample.page ∅ None in
  let p1 := (onAccordionClick 10 p).2 in
  getAttribute (dom p1) 10 "aria-expanded" = Some "true" ∧ isHidden (dom p1) 11 = false.
Proof.
  intros p p1.
  destruct (proj1 (accordion_click p 10) 10 11) as (H1 & H2 & _);
    [vm_compute; reflexivity .. | vm_compute; discriminate | ].
  split; [exact H1|exact H2].
Defined.

(** C8 as stated fails: a click on the svg icon inside a collapsed trigger
    is a click on that trigger, but the icon is not an HTMLElement and the
    handler returns: the trigger stays collapsed and its panel hidden. *)
Lemma icon_click_does_not_expand :
  let p := load Sample.icon_page ∅ None in
  closest (SelTagClass "button" "acc__item") (dom p) 7 = Some 6 ∧
  nextElementSibling (dom p) 6 = Some 8 ∧
  getAttribute (dom p) 6 "aria-expanded" = Some "false" ∧
  isHidden (dom p) 8 = true ∧
  onAccordionClick 7 p = (Normal (), p).
Proof. vm_compute. repeat split; reflexivity. Qed.

End AccordionFacts.

(** ** Startup *)

Section StartupFacts.

Implicit Types (d : Dom) (h : nat) (e x : Element) (p : Page).

Lemma querySelector_id_setAttribute i h n v d :
  n ≠ "id" → querySelector (SelId i) (setAttribute h n v d) = querySelector (SelId i) d.
Proof.
  intros Hn. unfold setAttribute. apply querySelector_ext.
  - by apply fmap_alter_inv.
  - apply fmap_alter_inv. intros e. simpl. by rewrite lookup_insert_ne.
Qed.

Lemma initThemeToggle_normal p :
  dom p ≠ [] → (initThemeToggle p).1 = Normal ().
Proof.
  intros Hd. pose proof (documentElement_Some _ Hd) as Hroot.
  unfold initThemeToggle, mbind, Js_bind, gets, nonNull, modify_dom, modify, addEventListener.
  rewrite Hroot. cbn [mret Js_ret].
  destruct (falsy (localStorage p !! theme_key)); simpl;
    repeat (match goal with |- context [match ?x with _ => _ end] => destruct x end; simpl);
    reflexivity.
Qed.

Lemma initTocSpy_result p :
  initTocSpy p =
  match querySelector (SelId "toc") (dom p) with
  | None => (Throw "Missing element: #toc", p)
  | Some t =>
      (Normal (),
       with_listeners (λ ls, ls ++ [mkListener t (OnTocClick (tocSpy t (dom p)))])
         (with_observers
            (λ os, os ++ [mkObserver (tocSpy t (dom p)) thresholds (sections (tocSpy t (dom p)))])
            p))
  end.
Proof.
  unfold initTocSpy, mustQuery, mbind, Js_bind.
  destruct (querySelector (SelId "toc") (dom p)); reflexivity.
Qed.

Lemma initAccordion_normal p : (initAccordion p).1 = Normal ().
Proof.
  unfold initAccordion, mbind, Js_bind, gets. by destruct (querySelector _ _).
Qed.

Lemma bind_normal id label p : (bind id label p).1 = Normal ().
Proof.
  unfold bind, mbind, Js_bind, gets.
  destruct (getElementById _ _); [|done]. by destruct (instanceofHTMLButtonElement _ _).
Qed.


Lemma initCopyButtons_normal p : (initCopyButtons p).1 = Normal ().
Proof.
  unfold initCopyButtons, mbind, Js_bind.
  repeat match goal with
  | |- context [bind ?i ?l ?q] =>
      let H := fresh in
      pose proof (bind_normal i l q) as H; destruct (bind i l q) as [? ?];
      simpl in H; subst
  end.
  unfold gets. destruct (getElementById _ _); [|done].
  by destruct (instanceofHTMLButtonElement _ _).
Qed.

Lemma initQuickScroll_normal p : (initQuickScroll p).1 = Normal ().
Proof.
  unfold initQuickScroll, mbind, Js_bind, gets, addEventListener, modify.
  destruct (getElementById "scrollFlow" (dom p)) as [b1|];
    [destruct (instanceofHTMLButtonElement (dom p) b1)|]; simpl;
    (destruct (getElementById "backTop" (dom p)) as [b2|];
       [destruct (instanceofHTMLButtonElement (dom p) b2)|]); reflexivity.
Qed.

Lemma main_result p :
  dom p ≠ [] →
  (main p).1 =
  match querySelector (SelId "toc") (dom p) with
  | None => Throw "Missing element: #toc"
  | Some _ => Normal ()
  end.
Proof.
  intros Hd. unfold main.
  pose proof (initThemeToggle_normal p Hd) as H1.
  pose proof (initThemeToggle_dom p Hd) as Hd1.
  unfold mbind, Js_bind.
  destruct (initThemeToggle p) as [r1 p1]. simpl in H1, Hd1. subst r1.
  rewrite initTocSpy_result, Hd1, querySelector_id_setAttribute by done.
  destruct (querySelector (SelId "toc") (dom p)) as [t|]; [|done].
  set (p2 := with_listeners _ _).
  pose proof (initAccordion_normal p2) as H3.
  destruct (initAccordion p2) as [r3 p3]. simpl in H3. subst r3.
  pose proof (initCopyButtons_normal p3) as H4.
  destruct (initCopyButtons p3) as [r4 p4]. simpl in H4. subst r4.
  apply initQuickScroll_normal.
Qed.




End StartupFacts.

(** * Further properties of the script *)

(** ** Theme: what is stored is what is read and applied *)

Section ThemeRoundTrip.

Implicit Types (d : Dom) (h : nat) (p : Page).

(** X1: after setTheme the stored value is the theme given, the root
    carries it as data-theme, and getTheme reads it back as light when it
    is "light" and as dark for anything else. *)
Theorem getTheme_after_setTheme theme p :
  dom p ≠ [] →
  let p' := (setTheme theme p).2 in
  getTheme p' = (if String.eqb theme "light" then "light" else "dark") ∧
  localStorage p' !! theme_key = Some theme ∧
  appliedTheme p' = Some theme.
Proof.
  intros Hd p'. destruct (setTheme_spec theme p Hd) as (Hs & Ha & _).
  fold p' in Hs, Ha. split; [by apply getTheme_stored|done].
Qed.

Lemma getTheme_after_setTheme_witness :
  getTheme (setTheme "sepia" (load Sample.page_without_toast ∅ None)).2 = "dark".
Proof.
  refine (proj1 (getTheme_after_setTheme "sepia" (load Sample.page_without_toast ∅ None) _)).
  vm_compute. discriminate.
Defined.

(** X2: a click on the theme button changes what getTheme returns, and a
    page loaded afterwards with the same storage starts with that theme
    applied, whatever the system preference is. *)
Theorem theme_survives_reload p d mm :
  dom p ≠ [] → d ≠ [] →
  let p1 := (onThemeClick p).2 in
  getTheme p1 ≠ getTheme p ∧
  appliedTheme (initThemeToggle (load d (localStorage p1) mm)).2 = Some (getTheme p1).
Proof.
  intros Hd Hd' p1. unfold p1. rewrite onThemeClick_eq.
  set (next := if String.eqb (getTheme p) "dark" then "light" else "dark").
  destruct (setTheme_spec next p Hd) as (Hs & _ & _). cbv zeta in Hs.
  set (q := (setTheme next p).2) in *.
  pose proof (getTheme_stored q next Hs) as Hg.
  assert (Hnext : (next = "light" ∨ next = "dark") ∧ next ≠ getTheme p).
  { unfold next. destruct (getTheme_cases p) as [-> | ->]; simpl; split; auto; done. }
  destruct Hnext as [Hn Hne].
  assert (Hq : getTheme q = next) by (rewrite Hg; destruct Hn as [-> | ->]; done).
  split; [by rewrite Hq|].
  set (r := load d (localStorage q) mm).
  assert (Hr : dom r ≠ []) by done.
  pose proof (initThemeToggle_dom r Hr) as E.
  assert (Hst : localStorage r !! theme_key = Some next) by done.
  rewrite Hst in E.
  assert (Hf : falsy (Some next) = false) by (destruct Hn as [-> | ->]; done).
  rewrite Hf in E.
  assert (Hgr : getTheme r = getTheme q) by done.
  unfold appliedTheme. rewrite E.
  assert (Hpos : 0 < length d) by (destruct d; [done|simpl; lia]).
  rewrite documentElement_Some.
  - simpl. rewrite getAttribute_setAttribute by done. by rewrite Hgr.
  - intros Hnil. apply (f_equal length) in Hnil. unfold setAttribute in Hnil.
    rewrite length_alter in Hnil. simpl in Hnil. lia.
Qed.

Lemma theme_survives_reload_witness :
  let p1 := (onThemeClick (load Sample.page ∅ (Some true))).2 in
  appliedTheme (initThemeToggle (load Sample.bare (localStorage p1) (Some false))).2
  = Some (getTheme p1).
Proof.
  intros p1.
  refine (proj2 (theme_survives_reload (load Sample.page ∅ (Some true)) Sample.bare
                   (Some false) _ _)); vm_compute; discriminate.
Defined.

(** X3: a click on the theme button ends with the toast showing the name
    of the new theme; without a toast element the handler throws, but only
    after the new theme has been applied and stored, and no timer is set. *)
Theorem themeClick_toast p :
  dom p ≠ [] →
  let r := onThemeClick p in
  let message := if String.eqb (getTheme p) "dark" then "主题：亮色" else "主题：暗色" in
  (∀ el, querySelector (SelId "toast") (dom p) = Some el →
     r.1 = Normal () ∧ textOf (dom r.2) el = message ∧ isHidden (dom r.2) el = false) ∧
  (querySelector (SelId "toast") (dom p) = None →
     r.1 = Throw "Missing element: #toast" ∧
     getTheme r.2 ≠ getTheme p ∧
     appliedTheme r.2 = Some (getTheme r.2) ∧
     timers r.2 = timers p).
Proof.
  intros Hd r message. pose proof (documentElement_Some _ Hd) as Hroot.
  assert (E : r = toast (if String.eqb (if String.eqb (getTheme p) "dark" then "light" else "dark") "light"
                         then "主题：亮色" else "主题：暗色")
                (with_localStorage
                   (<[theme_key := if String.eqb (getTheme p) "dark" then "light" else "dark"]>)
                   (with_dom (setAttribute 0 "data-theme"
                                (if String.eqb (getTheme p) "dark" then "light" else "dark")) p))).
  { unfold r. rewrite onThemeClick_eq.
    unfold setTheme, mbind, Js_bind, nonNull, modify_dom, modify. by rewrite Hroot. }
  assert (Emsg : (if String.eqb (if String.eqb (getTheme p) "dark" then "light" else "dark") "light"
                  then "主题：亮色" else "主题：暗色") = message).
  { unfold message. by destruct (getTheme_cases p) as [-> | ->]. }
  rewrite Emsg in E. clear Emsg.
  set (next := if String.eqb (getTheme p) "dark" then "light" else "dark") in *.
  set (q := with_localStorage _ _) in E.
  assert (Hq : ∀ s, querySelector (SelId s) (dom q) = querySelector (SelId s) (dom p)).
  { intros s. unfold q. simpl. by apply querySelector_id_setAttribute. }
  split.
  - intros el Hel. rewrite E, toast_eq, Hq, Hel. cbn [fst snd dom].
    destruct (querySelector_Some _ _ _ Hel) as (Hlt & _).
    assert (Hlt' : el < length (dom q)).
    { unfold q, setAttribute. simpl. by rewrite length_alter. }
    destruct (textOf_toast (dom q) el message Hlt') as [Ht Hh]. done.
  - intros Hnone. rewrite E, toast_eq, Hq, Hnone. cbn [fst snd].
    destruct (setTheme_spec next p Hd) as (Hs & Ha & _). cbv zeta in Hs, Ha.
    assert (Es : (setTheme next p).2 = q).
    { unfold setTheme, mbind, Js_bind, nonNull, modify_dom, modify. rewrite Hroot.
      cbn [mret Js_ret]. fold q. by rewrite toast_eq, Hq, Hnone. }
    rewrite Es in Hs, Ha.
    pose proof (getTheme_stored q next Hs) as Hg.
    assert (Hgq : getTheme q = next ∧ next ≠ getTheme p).
    { rewrite Hg. unfold next. by destruct (getTheme_cases p) as [-> | ->]. }
    destruct Hgq as [Hgq Hne].
    split; [done|]. split; [by rewrite Hgq|]. split; [by rewrite Hgq|done].
Qed.

Lemma themeClick_toast_witness :
  textOf (dom (onThemeClick (load Sample.page ∅ None)).2) 14 = "主题：亮色".
Proof.
  destruct (proj1 (themeClick_toast (load Sample.page ∅ None) ltac:(vm_compute; discriminate))
              14 ltac:(vm_compute; reflexivity)) as (_ & H & _).
  exact H.
Defined.

End ThemeRoundTrip.

(** ** Startup: what main changes and what it registers *)

Section StartupFrame.

Implicit Types (d : Dom) (h : nat) (p q : Page).

Lemma quiet_refl p : quiet p p.
Proof. by repeat split. Qed.

Lemma quiet_trans p q r : quiet p q → quiet q r → quiet p r.
Proof.
  unfold quiet. intros (?&?&?&?&?&?&?&?&?) (?&?&?&?&?&?&?&?&?).
  repeat split; congruence.
Qed.

Lemma quiet_addEventListener el hd p : quiet p (addEventListener el hd p).2.
Proof. by repeat split. Qed.

Lemma initAccordion_quiet p : quiet p (initAccordion p).2.
Proof.
  unfold initAccordion, mbind, Js_bind, gets.
  destruct (querySelector _ _); [apply quiet_addEventListener|apply quiet_refl].
Qed.

Lemma bind_quiet id label p : quiet p (bind id label p).2.
Proof.
  unfold bind, mbind, Js_bind, gets.
  destruct (getElementById _ _); [|apply quiet_refl].
  destruct (instanceofHTMLButtonElement _ _);
    [apply quiet_addEventListener|apply quiet_refl].
Qed.

Lemma initCopyButtons_quiet p : quiet p (initCopyButtons p).2.
Proof.
  unfold initCopyButtons, mbind, Js_bind.
  pose proof (bind_quiet "copySignup" "报名入口" p) as H1.
  pose proof (bind_normal "copySignup" "报名入口" p) as N1.
  destruct (bind "copySignup" "报名入口" p) as [r1 p1]. simpl in *. subst r1.
  pose proof (bind_quiet "copyRepo" "模板仓库" p1) as H2.
  pose proof (bind_normal "copyRepo" "模板仓库" p1) as N2.
  destruct (bind "copyRepo" "模板仓库" p1) as [r2 p2]. simpl in *. subst r2.
  pose proof (bind_quiet "copyChecklist" "交付清单" p2) as H3.
  pose proof (bind_normal "copyChecklist" "交付清单" p2) as N3.
  destruct (bind "copyChecklist" "交付清单" p2) as [r3 p3]. simpl in *. subst r3.
  apply (quiet_trans _ p3); [by repeat (eapply quiet_trans; [eassumption|])|].
  unfold gets. destruct (getElementById _ _); [|apply quiet_refl].
  destruct (instanceofHTMLButtonElement _ _);
    [apply quiet_addEventListener|apply quiet_refl].
Qed.

Lemma initQuickScroll_quiet p : quiet p (initQuickScroll p).2.
Proof.
  unfold initQuickScroll, mbind, Js_bind, gets.
  destruct (getElementById "scrollFlow" (dom p)) as [b1|];
    [destruct (instanceofHTMLButtonElement (dom p) b1)|]; simpl;
    (destruct (getElementById "backTop" (dom p)) as [b2|];
       [destruct (instanceofHTMLButtonElement (dom p) b2)|]); by repeat split.
Qed.

Lemma initTocSpy_quiet p : quiet p (initTocSpy p).2.
Proof.
  rewrite initTocSpy_result. destruct (querySelector _ _); by repeat split.
Qed.

Lemma initThemeToggle_quiet p :
  dom p ≠ [] →
  quiet (with_dom (λ _, dom (initThemeToggle p).2) p) (initThemeToggle p).2.
Proof.
  intros Hd. pose proof (documentElement_Some _ Hd) as Hroot.
  unfold initThemeToggle, mbind, Js_bind, gets, nonNull, modify_dom, modify, addEventListener.
  rewrite Hroot. cbn [mret Js_ret].
  destruct (falsy (localStorage p !! theme_key)); simpl;
    repeat (match goal with |- context [match ?x with _ => _ end] => destruct x end; simpl);
    by repeat split.
Qed.

(** X4: without the table of contents main does what initThemeToggle
    does and stops there with the error of mustQuery: no later initializer
    runs. *)
Theorem main_without_toc p :
  dom p ≠ [] → querySelector (SelId "toc") (dom p) = None →
  main p = (Throw "Missing element: #toc", (initThemeToggle p).2).
Proof.
  intros Hd Hq. unfold main.
  pose proof (initThemeToggle_normal p Hd) as H1.
  pose proof (initThemeToggle_dom p Hd) as Hd1.
  unfold mbind, Js_bind.
  destruct (initThemeToggle p) as [r1 p1]. simpl in H1, Hd1. subst r1.
  rewrite initTocSpy_result, Hd1, querySelector_id_setAttribute by done.
  by rewrite Hq.
Qed.

Lemma main_without_toc_witness :
  let p := load Sample.bare ∅ None in
  main p = (Throw "Missing element: #toc", (initThemeToggle p).2).
Proof.
  intros p. apply main_without_toc; vm_compute; [discriminate|reflexivity].
Defined.

Lemma main_is_quiet p :
  dom p ≠ [] → quiet (with_dom (λ _, dom (initThemeToggle p).2) p) (main p).2.
Proof.
  intros Hd. unfold main, mbind, Js_bind.
  pose proof (initThemeToggle_normal p Hd) as N1.
  pose proof (initThemeToggle_quiet p Hd) as Q1.
  destruct (initThemeToggle p) as [r1 p1]. simpl in N1, Q1 |- *. subst r1.
  pose proof (initTocSpy_quiet p1) as Q2.
  destruct (initTocSpy p1) as [[[]|e] p2]; simpl in Q2 |- *;
    [|by eapply quiet_trans].
  pose proof (initAccordion_normal p2) as N3. pose proof (initAccordion_quiet p2) as Q3.
  destruct (initAccordion p2) as [r3 p3]. simpl in N3, Q3 |- *. subst r3.
  pose proof (initCopyButtons_normal p3) as N4. pose proof (initCopyButtons_quiet p3) as Q4.
  destruct (initCopyButtons p3) as [r4 p4]. simpl in N4, Q4 |- *. subst r4.
  pose proof (initQuickScroll_quiet p4) as Q5.
  repeat (eapply quiet_trans; [eassumption|]). apply quiet_refl.
Qed.

(** X5: of the state of the page main changes only the data-theme of the
    root element, to light or dark, and the listeners and observers; it
    writes nothing to storage, sets no timer, scrolls nothing and creates
    no element. *)
Theorem main_quiet p :
  dom p ≠ [] →
  let p' := (main p).2 in
  (∃ th, (th = "light" ∨ th = "dark") ∧ dom p' = setAttribute 0 "data-theme" th (dom p)) ∧
  localStorage p' = localStorage p ∧ timers p' = timers p ∧ toast_t p' = toast_t p ∧
  next_timer p' = next_timer p ∧ clock p' = clock p ∧ scrolls p' = scrolls p ∧
  domLog p' = domLog p.
Proof.
  intros Hd p'.
  destruct (main_is_quiet p Hd) as (Hdom & Hst & _ & Hti & Hnt & Htt & Hcl & Hsc & Hlog).
  fold p' in Hdom, Hst, Hti, Hnt, Htt, Hcl, Hsc, Hlog. simpl in *.
  pose proof (initThemeToggle_dom p Hd) as E.
  split; [|done].
  eexists. split; [|by rewrite Hdom, E].
  destruct (falsy _); [destruct (default false _); auto|].
  destruct (getTheme_cases p) as [-> | ->]; auto.
Qed.

Lemma main_quiet_witness :
  localStorage (main (load Sample.page ∅ (Some true))).2 = ∅.
Proof.
  refine (proj1 (proj2 (main_quiet (load Sample.page ∅ (Some true)) _))).
  vm_compute. discriminate.
Defined.

End StartupFrame.

Section Registration.

Implicit Types (d : Dom) (h : nat) (p q : Page) (new : list Listener).

Local Ltac none_added :=
  exists []; split; [by rewrite app_nil_r|]; split; [apply sublist_nil_l|constructor].

Local Ltac one_added l :=
  exists [l]; split; [done|]; split; [done|]; constructor; [|constructor].

Lemma initThemeToggle_listeners p :
  dom p ≠ [] →
  ∃ new, listeners (initThemeToggle p).2 = listeners p ++ new ∧
         handler <$> new `sublist_of` [OnThemeClick] ∧
         Forall (registered (dom (initThemeToggle p).2)) new.
Proof.
  intros Hd. pose proof (documentElement_Some _ Hd) as Hroot.
  unfold initThemeToggle, mbind, Js_bind, gets, nonNull, modify_dom, modify, addEventListener.
  rewrite Hroot. cbn [mret Js_ret].
  destruct (falsy (localStorage p !! theme_key)); cbn [fst snd dom with_dom];
    (destruct (getElementById "toggleTheme" _) as [btn|] eqn:Hg;
       [destruct (instanceofHTMLButtonElement _ btn) eqn:Hb|]);
    cbn [modify mret Js_ret snd listeners with_listeners with_dom dom].
  - by one_added (mkListener btn OnThemeClick).
  - none_added.
  - none_added.
  - by one_added (mkListener btn OnThemeClick).
  - none_added.
  - none_added.
Qed.

Lemma initTocSpy_listeners p :
  ∃ new, listeners (initTocSpy p).2 = listeners p ++ new ∧
         (∃ spy, handler <$> new `sublist_of` [OnTocClick spy]) ∧
         Forall (registered (dom p)) new.
Proof.
  rewrite initTocSpy_result. destruct (querySelector _ _) as [t|] eqn:Hq.
  - exists [mkListener t (OnTocClick (tocSpy t (dom p)))]. split; [done|].
    split; [by exists (tocSpy t (dom p))|]. by repeat constructor.
  - exists []. split; [by rewrite app_nil_r|]. split; [|constructor].
    exists (tocSpy 0 []). apply sublist_nil_l.
Qed.

Lemma initAccordion_listeners p :
  ∃ new, listeners (initAccordion p).2 = listeners p ++ new ∧
         handler <$> new `sublist_of` [OnAccordionClick] ∧
         Forall (registered (dom p)) new.
Proof.
  unfold initAccordion, mbind, Js_bind, gets. cbn [fst snd].
  destruct (querySelector _ _) as [root|] eqn:Hq.
  - by one_added (mkListener root OnAccordionClick).
  - none_added.
Qed.

Lemma bind_listeners id label p :
  (id, label) ∈ copyButtons →
  ∃ new, listeners (bind id label p).2 = listeners p ++ new ∧
         (∃ text, handler <$> new `sublist_of` [OnCopyClick (mkCopyTarget text label)]) ∧
         Forall (registered (dom p)) new.
Proof.
  intros Hin. unfold bind, mbind, Js_bind, gets. cbn [fst snd].
  destruct (getElementById _ _) as [btn|] eqn:Hg;
    [destruct (instanceofHTMLButtonElement _ btn) eqn:Hb|].
  - exists [mkListener btn (OnCopyClick (mkCopyTarget
                                           (default "" (getAttribute (dom p) btn "data-copy")) label))].
    split; [done|].
    split; [by exists (default "" (getAttribute (dom p) btn "data-copy"))|].
    constructor; [|constructor]. by exists id.
  - exists []. split; [by rewrite app_nil_r|]. split; [|constructor].
    exists "". apply sublist_nil_l.
  - exists []. split; [by rewrite app_nil_r|]. split; [|constructor].
    exists "". apply sublist_nil_l.
Qed.

Lemma added_trans (Hs1 Hs2 : list Handler) d p q r :
  (∃ new, listeners q = listeners p ++ new ∧ handler <$> new `sublist_of` Hs1 ∧
          Forall (registered d) new) →
  (∃ new, listeners r = listeners q ++ new ∧ handler <$> new `sublist_of` Hs2 ∧
          Forall (registered d) new) →
  ∃ new, listeners r = listeners p ++ new ∧ handler <$> new `sublist_of` (Hs1 ++ Hs2) ∧
         Forall (registered d) new.
Proof.
  intros (n1 & E1 & S1 & F1) (n2 & E2 & S2 & F2). exists (n1 ++ n2).
  split; [by rewrite E2, E1, <- app_assoc|].
  split; [rewrite fmap_app; by apply sublist_app|by apply Forall_app].
Qed.

Lemma initCopyButtons_listeners p :
  ∃ new, listeners (initCopyButtons p).2 = listeners p ++ new ∧
         (∃ t1 t2 t3, handler <$> new `sublist_of`
            [OnCopyClick (mkCopyTarget t1 "报名入口"); OnCopyClick (mkCopyTarget t2 "模板仓库");
             OnCopyClick (mkCopyTarget t3 "交付清单"); OnCopyAllClick]) ∧
         Forall (registered (dom p)) new.
Proof.
  unfold initCopyButtons, mbind, Js_bind.
  pose proof (bind_quiet "copySignup" "报名入口" p) as (D1 & _).
  pose proof (bind_normal "copySignup" "报名入口" p) as N1.
  destruct (bind_listeners "copySignup" "报名入口" p) as (n1 & E1 & [t1 S1] & F1);
    [by left|].
  destruct (bind "copySignup" "报名入口" p) as [r1 p1]. simpl in *. subst r1.
  pose proof (bind_quiet "copyRepo" "模板仓库" p1) as (D2 & _).
  pose proof (bind_normal "copyRepo" "模板仓库" p1) as N2.
  destruct (bind_listeners "copyRepo" "模板仓库" p1) as (n2 & E2 & [t2 S2] & F2);
    [right; by left|].
  destruct (bind "copyRepo" "模板仓库" p1) as [r2 p2]. simpl in *. subst r2.
  pose proof (bind_quiet "copyChecklist" "交付清单" p2) as (D3 & _).
  pose proof (bind_normal "copyChecklist" "交付清单" p2) as N3.
  destruct (bind_listeners "copyChecklist" "交付清单" p2) as (n3 & E3 & [t3 S3] & F3);
    [right; right; by left|].
  destruct (bind "copyChecklist" "交付清单" p2) as [r3 p3]. simpl in *. subst r3.
  rewrite D2, D1 in D3. rewrite D1 in D2. rewrite D2 in F3. rewrite D1 in F2.
  assert (H4 : ∃ new, listeners
                 (match getElementById "copyAllLinks" (dom p3) with
                  | Some all => if instanceofHTMLButtonElement (dom p3) all
                                then addEventListener all OnCopyAllClick else mret ()
                  | None => mret ()
                  end p3).2 = listeners p3 ++ new ∧
               handler <$> new `sublist_of` [OnCopyAllClick] ∧
               Forall (registered (dom p)) new).
  { rewrite <- D3.
    destruct (getElementById _ _) as [btn|] eqn:Hg;
      [destruct (instanceofHTMLButtonElement _ btn) eqn:Hb|].
    - by one_added (mkListener btn OnCopyAllClick).
    - none_added.
    - none_added. }
  pose proof (added_trans _ _ (dom p) p p1 p2 (ex_intro _ n1 (conj E1 (conj S1 F1)))
                (ex_intro _ n2 (conj E2 (conj S2 F2)))) as A12.
  pose proof (added_trans _ _ (dom p) p p2 p3 A12
                (ex_intro _ n3 (conj E3 (conj S3 F3)))) as A123.
  destruct (added_trans _ _ (dom p) p p3 _ A123 H4) as (new & E & S & F).
  exists new. split; [exact E|]. split; [|exact F]. by exists t1, t2, t3.
Qed.

Lemma button_listener (id : string) (hd : Handler) p :
  (∀ el, getElementById id (dom p) = Some el →
         instanceofHTMLButtonElement (dom p) el = true →
         registered (dom p) (mkListener el hd)) →
  ∃ new, listeners
           (match getElementById id (dom p) with
            | Some el => if instanceofHTMLButtonElement (dom p) el
                         then addEventListener el hd else mret ()
            | None => mret ()
            end p).2 = listeners p ++ new ∧
         handler <$> new `sublist_of` [hd] ∧
         Forall (registered (dom p)) new.
Proof.
  intros Hreg.
  destruct (getElementById _ _) as [btn|] eqn:Hg;
    [destruct (instanceofHTMLButtonElement _ btn) eqn:Hb|].
  - one_added (mkListener btn hd). by apply Hreg.
  - none_added.
  - none_added.
Qed.

Lemma button_listener_dom (id : string) (hd : Handler) p :
  dom (match getElementById id (dom p) with
       | Some el => if instanceofHTMLButtonElement (dom p) el
                    then addEventListener el hd else mret ()
       | None => mret ()
       end p).2 = dom p.
Proof.
  destruct (getElementById _ _) as [btn|]; [|done].
  by destruct (instanceofHTMLButtonElement _ btn).
Qed.

Lemma initQuickScroll_listeners p :
  ∃ new, listeners (initQuickScroll p).2 = listeners p ++ new ∧
         handler <$> new `sublist_of` [OnScrollFlowClick; OnBackTopClick] ∧
         Forall (registered (dom p)) new.
Proof.
  unfold initQuickScroll, mbind, Js_bind, gets. cbn [fst snd].
  pose proof (button_listener "scrollFlow" OnScrollFlowClick p) as H1.
  pose proof (button_listener_dom "scrollFlow" OnScrollFlowClick p) as D1.
  assert (N1 : (match getElementById "scrollFlow" (dom p) with
                | Some el => if instanceofHTMLButtonElement (dom p) el
                             then addEventListener el OnScrollFlowClick else mret ()
                | None => mret ()
                end p).1 = Normal ()).
  { destruct (getElementById _ _) as [btn|]; [|done].
    by destruct (instanceofHTMLButtonElement _ btn). }
  match type of N1 with (?m).1 = _ => destruct m as [r1 p1] end.
  cbn [fst snd] in *. subst r1.
  pose proof (button_listener "backTop" OnBackTopClick p1) as H2.
  rewrite D1 in H2.
  apply (added_trans [OnScrollFlowClick] [OnBackTopClick] (dom p) p p1).
  - apply H1. by intros.
  - apply H2. by intros.
Qed.

Lemma initThemeToggle_observers p : observers (initThemeToggle p).2 = observers p.
Proof.
  unfold initThemeToggle, mbind, Js_bind, gets, nonNull, modify_dom, modify, addEventListener.
  destruct (documentElement (dom p)); [|done]. cbn [mret Js_ret].
  destruct (falsy (localStorage p !! theme_key)); simpl;
    repeat (match goal with |- context [match ?x with _ => _ end] => destruct x end; simpl);
    reflexivity.
Qed.

Lemma initAccordion_observers p : observers (initAccordion p).2 = observers p.
Proof. unfold initAccordion, mbind, Js_bind, gets. by destruct (querySelector _ _). Qed.

Lemma bind_observers id label p : observers (bind id label p).2 = observers p.
Proof.
  unfold bind, mbind, Js_bind, gets.
  destruct (getElementById _ _); [|done]. by destruct (instanceofHTMLButtonElement _ _).
Qed.

Lemma initCopyButtons_observers p : observers (initCopyButtons p).2 = observers p.
Proof.
  unfold initCopyButtons, mbind, Js_bind.
  repeat match goal with
  | |- context [bind ?i ?l ?q] =>
      let H := fresh in let N := fresh in
      pose proof (bind_observers i l q) as H; pose proof (bind_normal i l q) as N;
      destruct (bind i l q) as [? ?]; simpl in H, N; subst
  end.
  unfold gets. cbn [fst snd].
  destruct (getElementById _ _); [destruct (instanceofHTMLButtonElement _ _)|];
    simpl; congruence.
Qed.

Lemma initQuickScroll_observers p : observers (initQuickScroll p).2 = observers p.
Proof.
  unfold initQuickScroll, mbind, Js_bind, gets, addEventListener, modify.
  destruct (getElementById "scrollFlow" (dom p)) as [b1|];
    [destruct (instanceofHTMLButtonElement (dom p) b1)|]; simpl;
    (destruct (getElementById "backTop" (dom p)) as [b2|];
       [destruct (instanceofHTMLButtonElement (dom p) b2)|]); reflexivity.
Qed.

Lemma handlers_NoDup spy t1 t2 t3 :
  NoDup [OnThemeClick; OnTocClick spy; OnAccordionClick;
         OnCopyClick (mkCopyTarget t1 "报名入口"); OnCopyClick (mkCopyTarget t2 "模板仓库");
         OnCopyClick (mkCopyTarget t3 "交付清单"); OnCopyAllClick;
         OnScrollFlowClick; OnBackTopClick].
Proof.
  repeat (apply NoDup_cons; split;
          [rewrite ?elem_of_cons, elem_of_nil; intros H;
           repeat (destruct H as [H|H]; [discriminate H|]); exact H|]).
  apply NoDup_nil_2.
Qed.

(** X6: every listener main adds sits on the element its initializer
    looks up by id or selector in the document main leaves, no handler is
    added twice, a copy handler carries the data-copy text its button has
    at startup, and the one observer is the section spy's. *)
Theorem main_registers p :
  dom p ≠ [] →
  let p' := (main p).2 in
  (∃ new, listeners p' = listeners p ++ new ∧
          NoDup (handler <$> new) ∧
          Forall (registered (dom p')) new) ∧
  observers p' = observers p ++
    from_option (λ t, [mkObserver (tocSpy t (dom p')) thresholds
                         (sections (tocSpy t (dom p')))]) []
      (querySelector (SelId "toc") (dom p')).
Proof.
  intros Hd p'. unfold p', main, mbind, Js_bind.
  pose proof (initThemeToggle_normal p Hd) as N1.
  pose proof (initThemeToggle_listeners p Hd) as L1.
  pose proof (initThemeToggle_observers p) as O1.
  destruct (initThemeToggle p) as [r1 p1]. cbn [fst snd] in N1, L1, O1. subst r1.
  rewrite initTocSpy_result.
  pose proof (initTocSpy_listeners p1) as L2. rewrite initTocSpy_result in L2.
  destruct (querySelector (SelId "toc") (dom p1)) as [t|] eqn:Hq.
  - set (p2 := with_listeners _ _) in *. cbn [snd] in L2.
    assert (D2 : dom p2 = dom p1) by done.
    assert (O2 : observers p2 = observers p ++
                   [mkObserver (tocSpy t (dom p1)) thresholds (sections (tocSpy t (dom p1)))]).
    { unfold p2. simpl. by rewrite O1. }
    clearbody p2.
    pose proof (initAccordion_normal p2) as N3.
    pose proof (initAccordion_quiet p2) as (D3 & _).
    pose proof (initAccordion_listeners p2) as L3.
    pose proof (initAccordion_observers p2) as O3.
    destruct (initAccordion p2) as [r3 p3]. cbn [fst snd] in N3, D3, L3, O3. subst r3.
    pose proof (initCopyButtons_normal p3) as N4.
    pose proof (initCopyButtons_quiet p3) as (D4 & _).
    pose proof (initCopyButtons_listeners p3) as L4.
    pose proof (initCopyButtons_observers p3) as O4.
    destruct (initCopyButtons p3) as [r4 p4]. cbn [fst snd] in N4, D4, L4, O4. subst r4.
    pose proof (initQuickScroll_quiet p4) as (D5 & _).
    pose proof (initQuickScroll_listeners p4) as L5.
    pose proof (initQuickScroll_observers p4) as O5.
    destruct (initQuickScroll p4) as [r5 p5]. cbn [fst snd] in D5, L5, O5 |- *.
    assert (E : dom p5 = dom p1) by congruence.
    rewrite E, Hq. cbn [from_option]. split; [|congruence].
    rewrite D4, D3, D2 in L5. rewrite D3, D2 in L4. rewrite D2 in L3.
    destruct L2 as (n2 & E2 & [spy S2] & F2).
    destruct L4 as (n4 & E4 & (t1 & t2 & t3 & S4) & F4).
    pose proof (added_trans _ _ (dom p1) p p1 p2 L1
                  (ex_intro _ n2 (conj E2 (conj S2 F2)))) as A2.
    pose proof (added_trans _ _ (dom p1) p p2 p3 A2 L3) as A3.
    pose proof (added_trans _ _ (dom p1) p p3 p4 A3
                  (ex_intro _ n4 (conj E4 (conj S4 F4)))) as A4.
    destruct (added_trans _ _ (dom p1) p p4 p5 A4 L5) as (new & En & Sn & Fn).
    exists new. split; [exact En|]. split; [|exact Fn].
    eapply sublist_NoDup; [|exact Sn]. simpl. apply handlers_NoDup.
  - cbn [snd]. rewrite Hq. cbn [from_option]. rewrite app_nil_r. split; [|done].
    destruct L1 as (new & En & Sn & Fn). exists new. split; [done|]. split; [|done].
    eapply sublist_NoDup; [|exact Sn]. apply NoDup_singleton.
Qed.

Lemma main_registers_witness :
  let p' := (main (load Sample.page ∅ None)).2 in
  Forall (registered (dom p')) (listeners p') ∧ length (observers p') = 1.
Proof.
  intros p'.
  destruct (main_registers (load Sample.page ∅ None) ltac:(vm_compute; discriminate))
    as [(new & E & _ & F) O].
  fold p' in E, F, O. split.
  - rewrite E. exact F.
  - rewrite O. vm_compute. reflexivity.
Defined.

End Registration.

(** ** setActive, element by element *)

Section SetActiveFacts.

Implicit Types (d : Dom) (h l a : nat) (e : Element) (p : Page) (spy : TocSpy).

Lemma unmark_unmark e : unmark (unmark e) = unmark e.
Proof.
  unfold unmark, with_classList. destruct e; simpl. f_equal.
  apply list_filter_filter_l. by intros.
Qed.

Lemma clear_lookup d ls h :
  foldl (λ d a, classList_remove a "is-active" d) d ls !! h =
  (if decide (h ∈ ls) then unmark else id) <$> d !! h.
Proof.
  revert d. induction ls as [|a ls IH]; intros d.
  - simpl. destruct (decide (h ∈ [])) as [H|]; [by apply elem_of_nil in H|].
    by destruct (d !! h).
  - cbn [foldl]. rewrite IH. unfold classList_remove.
    destruct (decide (h = a)) as [->|Hne].
    + rewrite list_lookup_alter_eq. fold unmark.
      rewrite (decide_True (P := a ∈ a :: ls)) by (by left).
      destruct (d !! a) as [e|]; simpl; [|done].
      destruct (decide (a ∈ ls)); simpl; [by rewrite unmark_unmark|done].
    + rewrite list_lookup_alter_ne by done.
      destruct (decide (h ∈ ls)) as [Hin|Hin].
      * rewrite decide_True; [done|by right].
      * rewrite decide_False; [done|]. intros H. apply elem_of_cons in H. tauto.
Qed.

(** setActive, element by element *)
Lemma setActive_lookup spy id d h :
  setActive spy id d !! h =
  (λ e, let e1 := if decide (h ∈ links spy) then unmark e else e in
        if decide (JsMap.get id (idToLink spy) = Some h) then mark e1 else e1)
    <$> d !! h.
Proof.
  unfold setActive. destruct (JsMap.get id (idToLink spy)) as [a|] eqn:Hg.
  - unfold classList_add. fold mark.
    destruct (decide (h = a)) as [->|Hne].
    + rewrite list_lookup_alter_eq, clear_lookup.
      destruct (d !! a); simpl; [|done]. f_equal.
      destruct (decide (Some a = Some a)); [|done].
      by destruct (decide (a ∈ links spy)).
    + rewrite list_lookup_alter_ne, clear_lookup by done.
      destruct (d !! h); simpl; [|done]. f_equal.
      destruct (decide (Some a = Some h)) as [[= ->]|]; [done|].
      by destruct (decide (h ∈ links spy)).
  - rewrite clear_lookup.
    destruct (d !! h); simpl; [|done]. f_equal.
    destruct (decide (None = Some h)); [done|].
    by destruct (decide (h ∈ links spy)).
Qed.

Lemma mark_mark e : mark (mark e) = mark e.
Proof.
  unfold mark. destruct (bool_decide ("is-active" ∈ classList e)) eqn:E.
  - by rewrite E.
  - simpl. rewrite bool_decide_eq_true_2; [done|]. apply elem_of_app. right. by left.
Qed.

Lemma unmark_mark_unmark e : unmark (mark (unmark e)) = unmark e.
Proof.
  unfold mark. rewrite bool_decide_eq_false_2.
  - unfold unmark, with_classList. destruct e; simpl. f_equal.
    rewrite filter_app, filter_cons, decide_False, filter_nil, app_nil_r by tauto.
    apply list_filter_filter_l. by intros.
  - unfold unmark. simpl. rewrite list_elem_of_filter. tauto.
Qed.

(** X10: calling setActive twice with the same id gives the document
    the first call gave. *)
Theorem setActive_idempotent spy id d :
  setActive spy id (setActive spy id d) = setActive spy id d.
Proof.
  apply list_eq. intros h. rewrite !setActive_lookup.
  destruct (d !! h) as [e|]; simpl; [|done]. f_equal.
  destruct (decide (h ∈ links spy)), (decide (JsMap.get id (idToLink spy) = Some h)).
  - by rewrite unmark_mark_unmark.
  - apply unmark_unmark.
  - apply mark_mark.
  - done.
Qed.

(** X11: setActive changes nothing but class lists, and of these only
    the is-active marker: every other class stays where it is, in order,
    and an element that is neither a link of the table of contents nor the
    link indexed under the id is left as it was. *)
Theorem setActive_frame spy id d :
  let d' := setActive spy id d in
  length d' = length d ∧
  with_classList [] <$> d' = with_classList [] <$> d ∧
  (λ e, filter (λ x, x ≠ "is-active") (classList e)) <$> d' =
  (λ e, filter (λ x, x ≠ "is-active") (classList e)) <$> d ∧
  (∀ h, h ∉ links spy → JsMap.get id (idToLink spy) ≠ Some h → d' !! h = d !! h).
Proof.
  intros d'. split; [apply length_setActive|]. split; [|split].
  - apply list_eq. intros h. rewrite !list_lookup_fmap. unfold d'.
    rewrite setActive_lookup. destruct (d !! h) as [e|]; simpl; [|done]. f_equal.
    destruct (decide (h ∈ links spy)), (decide (JsMap.get id (idToLink spy) = Some h));
      unfold mark, unmark; try case_bool_decide; by destruct e.
  - apply list_eq. intros h. rewrite !list_lookup_fmap. unfold d'.
    rewrite setActive_lookup. destruct (d !! h) as [e|]; simpl; [|done]. f_equal.
    assert (Hm : ∀ e0, filter (λ x, x ≠ "is-active") (classList (mark e0))
                       = filter (λ x, x ≠ "is-active") (classList e0)).
    { intros e0. unfold mark. case_bool_decide; [done|]. simpl.
      by rewrite filter_app, filter_cons, decide_False, filter_nil, app_nil_r by tauto. }
    assert (Hu : ∀ e0, filter (λ x, x ≠ "is-active") (classList (unmark e0))
                       = filter (λ x, x ≠ "is-active") (classList e0)).
    { intros e0. unfold unmark. simpl. apply list_filter_filter_l. by intros. }
    destruct (decide (h ∈ links spy)), (decide (JsMap.get id (idToLink spy) = Some h));
      by rewrite ?Hm, ?Hu.
  - intros h Hl Ha. unfold d'. rewrite setActive_lookup.
    destruct (d !! h); simpl; [|done]. f_equal.
    destruct (decide (h ∈ links spy)); [done|].
    by destruct (decide (JsMap.get id (idToLink spy) = Some h)).
Qed.

End SetActiveFacts.

(** ** The index of the section spy *)

Section IndexFacts.

Implicit Types (d : Dom) (h l a s : nat) (p : Page) (spy : TocSpy).

Lemma keys_set {V : Type} (k : string) (v : V) (m : list (string * V)) :
  JsMap.keys (JsMap.set k v m) =
  if decide (k ∈ JsMap.keys m) then JsMap.keys m else JsMap.keys m ++ [k].
Proof.
  unfold JsMap.keys. induction m as [|[k' v'] r IH].
  - destruct (decide (k ∈ _)) as [H|]; [by apply elem_of_nil in H|done].
  - cbn [JsMap.set]. destruct (String.eqb_spec k' k) as [->|Hne].
    + destruct (decide (k ∈ ((k, v') :: r).*1)) as [|H]; [reflexivity|].
      exfalso. apply H. by left.
    + rewrite fmap_cons, IH. cbn [fst].
      destruct (decide (k ∈ r.*1)) as [Hin|Hin],
        (decide (k ∈ ((k', v') :: r).*1)) as [Hin'|Hin'];
        try reflexivity.
      * exfalso. apply Hin'. by right.
      * apply elem_of_cons in Hin' as [->|?]; done.
Qed.

Lemma keys_NoDup_foldl d ls m :
  NoDup (JsMap.keys m) → NoDup (JsMap.keys (foldl (indexLink d) m ls)).
Proof.
  revert m. induction ls as [|a ls IH]; intros m Hm; simpl; [done|].
  apply IH. unfold indexLink. case_bool_decide; [done|].
  rewrite keys_set. case_decide; [done|].
  apply NoDup_app. split; [done|]. split.
  - intros k Hk Hk'. apply list_elem_of_singleton in Hk'. by subst.
  - apply NoDup_singleton.
Qed.

Lemma omap_NoDup {A B : Type} (f : A → option B) (xs : list A) :
  (∀ x y z, f x = Some z → f y = Some z → x = y) → NoDup xs → NoDup (omap f xs).
Proof.
  intros Hinj. induction 1 as [|x xs Hx Hnd IH]; [constructor|].
  change (omap f (x :: xs)) with (match f x with Some z => z :: omap f xs | None => omap f xs end).
  destruct (f x) as [z|] eqn:Hz; [|done].
  constructor; [|done]. intros Hin.
  apply list_elem_of_omap in Hin as (y & Hy & Hfy).
  rewrite (Hinj x y z Hz Hfy) in Hx. done.
Qed.

Lemma getElementById_connected id d h :
  getElementById id d = Some h → isConnected d h = true.
Proof.
  unfold getElementById. case_bool_decide; [done|]. intros Hq.
  by apply querySelector_Some in Hq as (_ & ? & _).
Qed.

(** X12: the sections handed to the observer are pairwise distinct,
    as are the keys of the index; each section is connected, has a
    non-empty id, and is indexed to a link whose href gives that id. *)
Theorem sections_observed_once t d :
  let spy := tocSpy t d in
  NoDup (sections spy) ∧
  NoDup (JsMap.keys (idToLink spy)) ∧
  ∀ s, s ∈ sections spy →
    isConnected d s = true ∧ idOf d s ≠ "" ∧
    ∃ a, a ∈ links spy ∧ JsMap.get (idOf d s) (idToLink spy) = Some a ∧
         JsString.href_key (getAttribute d a "href") = idOf d s.
Proof.
  intros spy.
  assert (Hk : NoDup (JsMap.keys (idToLink spy))).
  { simpl. apply keys_NoDup_foldl. constructor. }
  split; [|split; [done|]].
  - simpl. apply omap_NoDup; [|exact Hk].
    intros k1 k2 s H1 H2.
    apply getElementById_Some in H1 as (_ & <- & _).
    by apply getElementById_Some in H2 as (_ & <- & _).
  - intros s Hs.
    destruct (sections_indexed t d s Hs) as (Hne & a & Ha).
    destruct (idToLink_link t d _ a Ha) as (Hal & _ & Hkey).
    split; [|split; [done|by exists a]].
    simpl in Hs. apply list_elem_of_omap in Hs as (k & _ & Hg).
    by eapply getElementById_connected.
Qed.

Lemma last_with_key d k (ls : list nat) :
  Exists (λ c, JsString.href_key (getAttribute d c "href") = k) ls →
  ∃ (before : list nat) a (after : list nat), ls = before ++ a :: after ∧
    JsString.href_key (getAttribute d a "href") = k ∧
    ∀ c, c ∈ after → JsString.href_key (getAttribute d c "href") ≠ k.
Proof.
  induction ls as [|x ls IH]; intros Hex; [by apply Exists_nil in Hex|].
  destruct (decide (Exists (λ c, JsString.href_key (getAttribute d c "href") = k) ls))
    as [Hin|Hno].
  - destruct (IH Hin) as (l1 & a & l2 & -> & Ha & Hl2).
    exists (x :: l1), a, l2. done.
  - apply Exists_cons in Hex as [Hx|Hex]; [|done].
    exists [], x, ls. split; [done|]. split; [done|].
    intros c Hc Hck. apply Hno, Exists_exists. eauto.
Qed.

(** X13: a link followed in the table of contents by another link
    with the same key is not in the index, so no call of setActive marks
    it. *)
Theorem shadowed_link_never_active t d (before : list nat) b (after : list nat) c :
  let spy := tocSpy t d in
  links spy = before ++ b :: after →
  c ∈ after →
  JsString.href_key (getAttribute d c "href") = JsString.href_key (getAttribute d b "href") →
  (∀ k, JsMap.get k (idToLink spy) ≠ Some b) ∧
  ∀ id d', isActive (setActive spy id d') b = false.
Proof.
  intros spy Hlinks Hc Hkey.
  assert (Hnd : NoDup (links spy)) by apply links_NoDup.
  assert (Hb : b ∈ links spy) by (rewrite Hlinks; apply elem_of_app; right; by left).
  assert (Hnot : ∀ k, JsMap.get k (idToLink spy) ≠ Some b).
  { intros k Hk. destruct (idToLink_link t d k b Hk) as (_ & Hne & Hkb).
    destruct (last_with_key d k after) as (l1 & a & l2 & Hafter & Ha & Hl2).
    { apply Exists_exists. exists c. split; [done|congruence]. }
    assert (Hget : JsMap.get k (idToLink (tocSpy t d)) = Some a).
    { rewrite <- Ha. apply (idToLink_last t d (before ++ b :: l1) a l2).
      - fold spy. rewrite Hlinks, Hafter. by rewrite <- app_assoc.
      - by rewrite Ha.
      - intros c' Hc'. rewrite Ha. by apply Hl2. }
    fold spy in Hget. rewrite Hk in Hget. injection Hget as <-.
    rewrite Hlinks, Hafter in Hnd. apply NoDup_app in Hnd as (_ & _ & Hnd).
    apply NoDup_cons in Hnd as [Hnin _]. apply Hnin.
    apply elem_of_app. right. by left. }
  split; [done|]. intros id d'. rewrite isActive_setActive by done.
  destruct (JsMap.get id (idToLink spy)) as [a|] eqn:Hg; [|done].
  rewrite bool_decide_eq_false_2; [done|]. intros ->. by apply (Hnot id).
Qed.

Lemma shadowed_link_never_active_witness :
  isActive (setActive (tocSpy 2 Sample.twice_page) "intro" Sample.twice_page) 3 = false.
Proof.
  refine (proj2 (shadowed_link_never_active 2 Sample.twice_page [] 3 [4] 4 _ _ _)
            "intro" Sample.twice_page).
  - vm_compute. reflexivity.
  - by left.
  - vm_compute. reflexivity.
Defined.

End IndexFacts.

(** ** The observer callback: order of the visible entries *)

Section IntersectOrder.

Implicit Types (d : Dom) (e top : Entry) (spy : TocSpy).

Lemma sort_head_is (before after : list Entry) top :
  (∀ e, e ∈ before → (intersectionRatio e < intersectionRatio top)%Q) →
  (∀ e, e ∈ after → (intersectionRatio e <= intersectionRatio top)%Q) →
  head (Array_sort byRatioDesc (before ++ top :: after)) = Some top.
Proof.
  intros Hb Ha. induction before as [|x before IH].
  - cbn [app Array_sort foldr]. rewrite sort_insert_head.
    fold (Array_sort byRatioDesc after).
    destruct (Array_sort byRatioDesc after) as [|y r] eqn:E; [done|].
    destruct (sort_head_greatest after y) as [Hy _]; [by rewrite E|].
    apply Ha, byRatioDesc_le in Hy. by rewrite Hy.
  - cbn [app Array_sort foldr]. rewrite sort_insert_head.
    fold (Array_sort byRatioDesc (before ++ top :: after)).
    specialize (IH (λ e He, Hb e (list_elem_of_further _ _ _ He))).
    destruct (Array_sort byRatioDesc (before ++ top :: after)) as [|y r] eqn:E; [done|].
    injection IH as ->.
    destruct (Qle_bool (byRatioDesc x top) 0) eqn:Hc; [|done].
    apply byRatioDesc_le in Hc.
    pose proof (Hb x ltac:(left)) as Hlt. exfalso. lra.
Qed.

(** X14: among the intersecting entries the callback takes the first
    one of greatest ratio: an entry strictly above every intersecting entry
    before it and not below any after it decides the id passed to
    setActive, and an empty id leaves the document alone. *)
Theorem onIntersect_first_greatest spy (before after : list Entry) top d :
  isIntersecting top = true →
  (∀ e, e ∈ before → isIntersecting e = true →
     (intersectionRatio e < intersectionRatio top)%Q) →
  (∀ e, e ∈ after → isIntersecting e = true →
     (intersectionRatio e <= intersectionRatio top)%Q) →
  onIntersect spy (before ++ top :: after) d =
  if bool_decide (idOf d (target top) = "") then d
  else setActive spy (idOf d (target top)) d.
Proof.
  intros Ht Hb Ha. rewrite onIntersect_eq.
  rewrite filter_app, filter_cons, decide_True by done.
  rewrite sort_head_is; [done| |].
  - intros e He. apply list_elem_of_filter in He as [Hi He]. by apply Hb.
  - intros e He. apply list_elem_of_filter in He as [Hi He]. by apply Ha.
Qed.

Lemma onIntersect_first_greatest_witness :
  onIntersect Sample.spy
    [mkEntry true (1 # 5) 7; mkEntry false (9 # 10) 7; mkEntry true (3 # 5) 8;
     mkEntry true (3 # 5) 7] Sample.page
  = setActive Sample.spy "flow" Sample.page.
Proof.
  apply (onIntersect_first_greatest Sample.spy
           [mkEntry true (1 # 5) 7; mkEntry false (9 # 10) 7]
           [mkEntry true (3 # 5) 7] (mkEntry true (3 # 5) 8) Sample.page).
  - reflexivity.
  - intros e He Hi. repeat (apply elem_of_cons in He as [->|He]);
      [vm_compute; reflexivity|discriminate|by apply elem_of_nil in He].
  - intros e He Hi. repeat (apply elem_of_cons in He as [->|He]);
      [vm_compute; discriminate|by apply elem_of_nil in He].
Defined.

(** Array.prototype.sort with the callback's comparator: the sorted array
    holds the same entries, in order of non-increasing ratio. *)
Lemma sort_insert_sorted x (l : list Entry) :
  StronglySorted (λ a b, (intersectionRatio b <= intersectionRatio a)%Q) l →
  StronglySorted (λ a b, (intersectionRatio b <= intersectionRatio a)%Q)
    (sort_insert byRatioDesc x l).
Proof.
  induction 1 as [|y r Hr IH Hy]; simpl.
  - repeat constructor.
  - destruct (Qle_bool (byRatioDesc x y) 0) eqn:Hc.
    + apply byRatioDesc_le in Hc. constructor; [by constructor|].
      constructor; [done|]. eapply Forall_impl; [exact Hy|].
      intros z Hz. simpl in *. lra.
    + constructor; [done|].
      assert (Hxy : (intersectionRatio x <= intersectionRatio y)%Q).
      { destruct (Qlt_le_dec (intersectionRatio y) (intersectionRatio x)) as [Hlt|]; [|done].
        apply Qlt_le_weak, byRatioDesc_le in Hlt. congruence. }
      rewrite (sort_insert_perm byRatioDesc x r). by constructor.
Qed.

(** X15: the array the callback sorts holds exactly the intersecting
    entries, in order of non-increasing ratio. *)
Theorem visible_sorted (entries : list Entry) :
  let visible := Array_sort byRatioDesc (filter (λ e, isIntersecting e = true) entries) in
  visible ≡ₚ filter (λ e, isIntersecting e = true) entries ∧
  StronglySorted (λ a b, (intersectionRatio b <= intersectionRatio a)%Q) visible.
Proof.
  intros visible. split; [apply Array_sort_perm|].
  unfold visible. generalize (filter (λ e, isIntersecting e = true) entries). intros l.
  induction l as [|x l IH]; simpl; [constructor|].
  by apply sort_insert_sorted.
Qed.

End IntersectOrder.

(** ** Keys of links and clicks in the table of contents *)

Section StringFacts.

Implicit Types (s t u p : string) (ps : list string) (a : ascii).

Lemma append_cons a s t : String a s +:+ t = String a (s +:+ t).
Proof. reflexivity. Qed.

Lemma append_nil_r s : s +:+ "" = s.
Proof. induction s as [|a s IH]; [done|]. by rewrite append_cons, IH. Qed.

Lemma append_assoc s t u : (s +:+ t) +:+ u = s +:+ (t +:+ u).
Proof. induction s as [|a s IH]; [done|]. by rewrite !append_cons, IH. Qed.

Lemma rev_app_spec s t : String.rev_app s t = String.rev s +:+ t.
Proof.
  unfold String.rev. revert t. induction s as [|a s IH]; intros t; [done|].
  cbn [String.rev_app]. rewrite (IH (String a "")), IH, append_assoc. done.
Qed.

Lemma rev_cons a s : String.rev (String a s) = String.rev s +:+ String a "".
Proof. unfold String.rev at 1. cbn [String.rev_app]. apply rev_app_spec. Qed.

Lemma rev_append s t : String.rev (s +:+ t) = String.rev t +:+ String.rev s.
Proof.
  induction s as [|a s IH].
  - by rewrite append_nil_r.
  - by rewrite append_cons, !rev_cons, IH, append_assoc.
Qed.

Lemma rev_involutive s : String.rev (String.rev s) = s.
Proof.
  induction s as [|a s IH]; [done|]. by rewrite rev_cons, rev_append, IH.
Qed.

Lemma length_append s t : String.length (s +:+ t) = String.length s + String.length t.
Proof.
  induction s as [|a s IH]; [done|]. rewrite append_cons. simpl. by rewrite IH.
Qed.

Lemma length_rev s : String.length (String.rev s) = String.length s.
Proof.
  induction s as [|a s IH]; [done|]. rewrite rev_cons, length_append, IH. simpl. lia.
Qed.

(** [strip_prefix] finds [r] exactly when the string is the prefix followed by [r]. *)
Lemma strip_prefix_Some p s r : JsString.strip_prefix p s = Some r ↔ s = p +:+ r.
Proof.
  revert s. induction p as [|a p IH]; intros s; simpl.
  - split; [by intros [= ->]|by intros ->].
  - destruct s as [|b s]; [split; intros [=]|].
    destruct (Ascii.eqb_spec a b) as [->|Hne].
    + rewrite IH. split; [by intros ->|by intros [= ->]].
    + split; [done|intros [= ? _]; done].
Qed.

Lemma strip_any_Some ps s r :
  JsString.strip_any ps s = Some r → ∃ p, p ∈ ps ∧ s = p +:+ r.
Proof.
  induction ps as [|p ps IH]; simpl; [done|].
  destruct (JsString.strip_prefix p s) as [r'|] eqn:E.
  - intros [= ->]. apply strip_prefix_Some in E. exists p. split; [by left|done].
  - intros H. destruct (IH H) as (p' & Hp' & ->). exists p'. split; [by right|done].
Qed.

Lemma strip_any_None ps s p r :
  JsString.strip_any ps s = None → p ∈ ps → s ≠ p +:+ r.
Proof.
  induction ps as [|q ps IH]; simpl; intros Hn Hp; [by apply elem_of_nil in Hp|].
  destruct (JsString.strip_prefix q s) as [r'|] eqn:E; [done|].
  apply elem_of_cons in Hp as [->|Hp]; [|by apply IH].
  intros Hs. apply strip_prefix_Some in Hs. congruence.
Qed.

(** What [strip_all] returns is the string less a prefix, and, with fuel
    for every character, starts with none of the patterns. *)
Lemma strip_all_suffix n ps s : ∃ w, s = w +:+ JsString.strip_all n ps s.
Proof.
  revert s. induction n as [|n IH]; intros s; simpl; [by exists ""|].
  destruct (JsString.strip_any ps s) as [r|] eqn:E; [|by exists ""].
  apply strip_any_Some in E as (p & _ & ->).
  destruct (IH r) as (w & Hw). exists (p +:+ w). by rewrite append_assoc, <- Hw.
Qed.

Lemma strip_all_clean n ps s :
  Forall (λ p, p ≠ "") ps → String.length s ≤ n →
  JsString.strip_any ps (JsString.strip_all n ps s) = None.
Proof.
  intros Hps. revert s. induction n as [|n IH]; intros s Hn; simpl.
  - destruct s; [|simpl in Hn; lia]. clear Hn.
    induction Hps as [|p ps Hp _ IHps]; simpl; [done|]. by destruct p.
  - destruct (JsString.strip_any ps s) as [r|] eqn:E; [|done].
    apply IH. apply strip_any_Some in E as (p & Hp & ->).
    rewrite length_append in Hn.
    rewrite Forall_forall in Hps. specialize (Hps p Hp).
    destruct p; [done|]. simpl in Hn. lia.
Qed.

Lemma strip_all_id n ps s :
  JsString.strip_any ps s = None → JsString.strip_all n ps s = s.
Proof. intros H. destruct n; simpl; [done|]. by rewrite H. Qed.

Lemma white_space_nonempty : Forall (λ p, p ≠ "") JsString.white_space.
Proof. unfold JsString.white_space. simpl. repeat (constructor; [discriminate|]). constructor. Qed.

Lemma rev_white_space_nonempty : Forall (λ p, p ≠ "") (map String.rev JsString.white_space).
Proof. unfold JsString.white_space. simpl. repeat (constructor; [discriminate|]). constructor. Qed.

Lemma trim_clean s : cleanEnds (JsString.trim s).
Proof.
  unfold JsString.trim, JsString.trimStart, JsString.trimEnd, cleanEnds.
  pose proof (strip_all_clean (String.length s) _ s white_space_nonempty ltac:(lia)) as Hs.
  set (t := JsString.strip_all (String.length s) JsString.white_space s) in *.
  pose proof (strip_all_clean (String.length t) _ (String.rev t)
                rev_white_space_nonempty ltac:(rewrite length_rev; lia)) as He.
  destruct (strip_all_suffix (String.length t) (map String.rev JsString.white_space)
              (String.rev t)) as (w & Hw).
  set (u := JsString.strip_all (String.length t) _ (String.rev t)) in *.
  rewrite rev_involutive. split; [|done].
  apply (f_equal String.rev) in Hw. rewrite rev_involutive, rev_append in Hw.
  destruct (JsString.strip_any JsString.white_space (String.rev u)) as [r|] eqn:Hr; [|done].
  apply strip_any_Some in Hr as (p & Hp & Hsp).
  exfalso. apply (strip_any_None _ t p (r +:+ String.rev w) Hs Hp).
  by rewrite Hw, Hsp, append_assoc.
Qed.

Lemma trim_id s : cleanEnds s → JsString.trim s = s.
Proof.
  intros [Hs He]. unfold JsString.trim, JsString.trimStart, JsString.trimEnd.
  rewrite (strip_all_id _ _ s Hs), (strip_all_id _ _ _ He). apply rev_involutive.
Qed.

Lemma href_key_hash href :
  JsString.startsWith_hash href = true → cleanEnds (JsString.slice1 href) →
  JsString.href_key (Some href) = JsString.slice1 href.
Proof.
  intros Hh Hc. unfold JsString.href_key. simpl.
  rewrite replace_hash_slice1 by done. by apply trim_id.
Qed.

(** X16: the key of a link has no white space at either end, trimming
    a key again changes nothing, and an href whose text without its first
    "#" has clean ends is indexed under exactly that text. *)
Theorem href_key_clean href :
  cleanEnds (JsString.href_key href) ∧
  JsString.trim (JsString.href_key href) = JsString.href_key href ∧
  (cleanEnds (JsString.replace_hash (default "" href)) →
   JsString.href_key href = JsString.replace_hash (default "" href)).
Proof.
  unfold JsString.href_key. split; [apply trim_clean|]. split.
  - apply trim_id, trim_clean.
  - apply trim_id.
Qed.

End StringFacts.

Section ClickFacts.

Implicit Types (d : Dom) (h a : nat) (p : Page).

(** X17: a click whose target is an HTMLElement, on or inside a link
    whose href is "#" followed by the id of an existing element, without
    white space at its ends, and which is the last link of the table of
    contents with that key, cancels the default action, scrolls to the
    element and leaves the clicked link as the only active one. *)
Theorem tocClick_marks_clicked t p tgt (before : list nat) a (after : list nat) href section :
  let spy := tocSpy t (dom p) in
  instanceofHTMLElement (dom p) tgt = true →
  closest (SelTag "a") (dom p) tgt = Some a →
  links spy = before ++ a :: after →
  getAttribute (dom p) a "href" = Some href →
  JsString.startsWith_hash href = true →
  cleanEnds (JsString.slice1 href) →
  (∀ c, c ∈ after →
     JsString.href_key (getAttribute (dom p) c "href") ≠ JsString.slice1 href) →
  getElementById (JsString.slice1 href) (dom p) = Some section →
  let r := onTocClick spy tgt p in
  r.1 = Normal true ∧
  scrolls r.2 = scrolls p ++ [ScrollIntoView section "smooth" "start"] ∧
  activeLinks spy (dom r.2) = [a].
Proof.
  intros spy Ht Hc Hlinks Hhref Hs Hclean Hafter Hg r.
  assert (E : r = (Normal true,
                   with_dom (setActive spy (JsString.slice1 href))
                     (with_scrolls (λ s, s ++ [ScrollIntoView section "smooth" "start"]) p))).
  { unfold r. rewrite onTocClick_eq, Ht, Hc, Hhref. simpl. by rewrite Hs, Hg. }
  assert (Hkey : JsString.href_key (getAttribute (dom p) a "href") = JsString.slice1 href).
  { rewrite Hhref. by apply href_key_hash. }
  assert (Hne : JsString.slice1 href ≠ "").
  { by apply getElementById_Some in Hg as (? & _). }
  assert (Hget : JsMap.get (JsString.slice1 href) (idToLink spy) = Some a).
  { rewrite <- Hkey. apply (idToLink_last t (dom p) before a after); [done|..].
    - by rewrite Hkey.
    - intros c Hcin. rewrite Hkey. by apply Hafter. }
  assert (Hal : a ∈ links spy) by (rewrite Hlinks; apply elem_of_app; right; by left).
  rewrite E. split; [done|]. split; [done|].
  change (activeLinks spy (setActive spy (JsString.slice1 href) (dom p)) = [a]).
  unfold activeLinks.
  rewrite (filter_iff_in _ (λ l, l = a)).
  - pose proof (links_NoDup t (dom p)) as Hnd. fold spy in Hnd.
    rewrite Hlinks in Hnd |- *. apply NoDup_app in Hnd as (_ & Hba & Hnd).
    apply NoDup_cons in Hnd as [Ha _].
    rewrite filter_app, filter_cons, decide_True by done.
    rewrite (filter_none _ before), (filter_none _ after); [done| |].
    + intros y Hy Heq. subst y. done.
    + intros y Hy Heq. subst y. apply (Hba a Hy). by left.
  - intros l Hl. rewrite isActive_setActive, Hget by done.
    rewrite (bool_decide_eq_true_2 (a < length (dom p))) by (by eapply links_lt).
    rewrite andb_true_r. apply bool_decide_eq_true.
Qed.

Lemma tocClick_marks_clicked_witness :
  let p := load Sample.page ∅ None in
  activeLinks (tocSpy 3 (dom p)) (dom (onTocClick (tocSpy 3 (dom p)) 5 p).2) = [5].
Proof.
  intros p.
  refine (proj2 (proj2 (tocClick_marks_clicked 3 p 5 [4] 5 [6] "#flow" 8 _ _ _ _ _ _ _ _)));
    try (vm_compute; reflexivity).
  - split; vm_compute; reflexivity.
  - intros c Hc. apply list_elem_of_singleton in Hc. subst c. vm_compute. discriminate.
Defined.

End ClickFacts.

(** ** Accordion and toast: what a call touches *)

Section AccordionRoundTrip.

Implicit Types (d : Dom) (h : nat) (e : Element) (p : Page).

Lemma onAccordionClick_trigger p tgt btn panel :
  instanceofHTMLElement (dom p) tgt = true →
  closest (SelTagClass "button" "acc__item") (dom p) tgt = Some btn →
  nextElementSibling (dom p) btn = Some panel →
  instanceofHTMLElement (dom p) panel = true →
  onAccordionClick tgt p =
  (Normal (),
   with_dom (λ d, setHidden panel
                    (bool_decide (getAttribute (dom p) btn "aria-expanded" = Some "true"))
                    (setAttribute btn "aria-expanded"
                       (if bool_decide (getAttribute (dom p) btn "aria-expanded" = Some "true")
                        then "false" else "true") d)) p).
Proof. intros Ht Hc Hn Hp. by rewrite onAccordionClick_eq, Ht, Hc, Hn, Hp. Qed.

(** X18: on a trigger whose next sibling is an HTMLElement and whose
    aria-expanded agrees with that panel, one click whose target is an
    HTMLElement on or inside the trigger flips both, and a second click on
    the same target gives back the page as it was, field by field. *)
Theorem accordion_two_clicks_restore p tgt btn panel (expanded : bool) :
  instanceofHTMLElement (dom p) tgt = true →
  closest (SelTagClass "button" "acc__item") (dom p) tgt = Some btn →
  nextElementSibling (dom p) btn = Some panel →
  instanceofHTMLElement (dom p) panel = true →
  getAttribute (dom p) btn "aria-expanded" = Some (if expanded then "true" else "false") →
  isHidden (dom p) panel = negb expanded →
  let p1 := (onAccordionClick tgt p).2 in
  getAttribute (dom p1) btn "aria-expanded" = Some (if expanded then "false" else "true") ∧
  isHidden (dom p1) panel = expanded ∧
  (onAccordionClick tgt p1).2 = p.
Proof.
  intros Ht Hc Hn Hp Ha Hh p1.
  destruct (accordion_step p tgt btn panel Ht Hc Hn Hp) as (A1 & H1 & F1 & Ht1 & Hc1 & Hn1 & Hp1).
  fold p1 in A1, H1, F1, Ht1, Hc1, Hn1, Hp1.
  assert (Hx : bool_decide (getAttribute (dom p) btn "aria-expanded" = Some "true") = expanded).
  { rewrite Ha. by destruct expanded. }
  rewrite Hx in A1, H1.
  split; [done|]. split; [done|].
  rewrite (onAccordionClick_trigger p1 tgt btn panel Ht1 Hc1 Hn1 Hp1). cbn [snd].
  assert (Hx1 : bool_decide (getAttribute (dom p1) btn "aria-expanded" = Some "true")
                = negb expanded).
  { rewrite A1. by destruct expanded. }
  rewrite Hx1.
  assert (E1 : p1 = with_dom (λ d, setHidden panel expanded
                          (setAttribute btn "aria-expanded"
                             (if expanded then "false" else "true") d)) p).
  { unfold p1. rewrite (onAccordionClick_trigger p tgt btn panel Ht Hc Hn Hp), Hx. done. }
  destruct (nextElementSibling_Some _ _ _ Hn) as (Hlt & _ & _).
  apply Page_ext; rewrite E1; try reflexivity.
  cbn [dom with_dom]. apply list_eq. intros h.
  unfold setHidden, setAttribute.
  destruct (decide (h = panel)) as [->|Hnp].
  - rewrite list_lookup_alter_eq, list_lookup_alter_ne by lia.
    rewrite list_lookup_alter_eq, list_lookup_alter_ne by lia.
    unfold isHidden in Hh. destruct (dom p !! panel) as [e|]; [|done].
    simpl in *. destruct e; simpl in *. by subst.
  - rewrite list_lookup_alter_ne by done.
    destruct (decide (h = btn)) as [->|Hnb].
    + rewrite list_lookup_alter_eq, list_lookup_alter_ne by lia.
      rewrite list_lookup_alter_eq.
      unfold getAttribute in Ha. destruct (dom p !! btn) as [e|]; [|done].
      simpl in *. f_equal. destruct e as [tg ih pa attrs cl hi tx va]; simpl in *.
      unfold with_attributes; simpl. f_equal.
      rewrite insert_insert_eq. apply insert_id. rewrite Ha. by destruct expanded.
    + by rewrite !list_lookup_alter_ne by done.
Qed.

Lemma accordion_two_clicks_restore_witness :
  let p := load Sample.page ∅ None in
  (onAccordionClick 10 (onAccordionClick 10 p).2).2 = p.
Proof.
  intros p.
  refine (proj2 (proj2 (accordion_two_clicks_restore p 10 10 11 false _ _ _ _ _ _)));
    vm_compute; reflexivity.
Defined.

(** X19: a click in the accordion never throws and touches nothing
    but the aria-expanded attribute and the hidden flag; it changes nothing
    at all when its target is not an HTMLElement, or when the trigger is
    followed by no element or by one that is not an HTMLElement. *)
Theorem accordion_frame p tgt :
  let r := onAccordionClick tgt p in
  r.1 = Normal () ∧
  (λ e, (tagName e, parentElement e, classList e, textContent e, value e, isHTMLElement e,
         delete "aria-expanded" (attributes e))) <$> dom r.2 =
  (λ e, (tagName e, parentElement e, classList e, textContent e, value e, isHTMLElement e,
         delete "aria-expanded" (attributes e))) <$> dom p ∧
  with_dom (λ _, dom p) r.2 = p ∧
  (instanceofHTMLElement (dom p) tgt = false → r.2 = p) ∧
  (∀ btn, closest (SelTagClass "button" "acc__item") (dom p) tgt = Some btn →
     nextElementSibling (dom p) btn = None ∨
     (∃ panel, nextElementSibling (dom p) btn = Some panel ∧
               instanceofHTMLElement (dom p) panel = false) →
     r.2 = p).
Proof.
  intros r. unfold r. rewrite onAccordionClick_eq.
  assert (Hp : with_dom (λ _, dom p) p = p) by (by destruct p).
  destruct (instanceofHTMLElement (dom p) tgt) eqn:Ht; [|by repeat split].
  destruct (closest _ _ _) as [btn|] eqn:Hc; [|by repeat split].
  destruct (nextElementSibling _ _) as [panel|] eqn:Hn.
  2:{ split; [done|]. split; [done|]. split; [done|]. split; [done|]. by intros. }
  destruct (instanceofHTMLElement (dom p) panel) eqn:Hpn.
  2:{ split; [done|]. split; [done|]. split; [done|]. split; [done|]. by intros. }
  split; [done|]. split; [|split; [|split]].
  - cbn [snd dom with_dom]. unfold setHidden, setAttribute.
    rewrite fmap_alter_inv by done. apply fmap_alter_inv. intros e. simpl.
    by rewrite delete_insert_eq.
  - cbn [snd]. by destruct p.
  - done.
  - intros btn' [= <-] [Hnone|(panel' & Hsome & Hfalse)]; [congruence|].
    rewrite Hn in Hsome. injection Hsome as <-. congruence.
Qed.

End AccordionRoundTrip.

Section ToastFrame.

Implicit Types (d : Dom) (h : nat) (e : Element) (p : Page).

(** X20: toast gives the toast element its message and shows it; the
    elements that were its children lose their parent, and nothing else of
    any other element changes; no element changes its tag, attributes,
    classes or value; storage, listeners, observers, scroll requests and
    the clock stay as they were, and the handle it keeps is the one
    setTimeout has just returned. *)
Theorem toast_replaces_children msg p el :
  querySelector (SelId "toast") (dom p) = Some el →
  let p' := (toast msg p).2 in
  textOf (dom p') el = msg ∧ isHidden (dom p') el = false ∧
  (∀ h, h ≠ el →
     dom p' !! h =
     (λ e, if bool_decide (parentElement e = Some el) then with_parent None e else e)
       <$> dom p !! h) ∧
  (∀ h, parentOf (dom p') h =
        if decide (parentOf (dom p) h = Some el) then None else parentOf (dom p) h) ∧
  shape <$> dom p' = shape <$> dom p ∧
  value <$> dom p' = value <$> dom p ∧
  localStorage p' = localStorage p ∧ listeners p' = listeners p ∧
  observers p' = observers p ∧ scrolls p' = scrolls p ∧ domLog p' = domLog p ∧
  clock p' = clock p ∧ next_timer p' = S (next_timer p) ∧ toast_t p' = next_timer p.
Proof.
  intros Hq p'.
  pose proof (toast_parentOf msg p el) as Hpar.
  destruct (toast_frame msg p) as (Hs & Hst & Hl & Hsc & Hlog).
  destruct (toast_rest msg p) as (_ & Ho & _ & Hc).
  apply querySelector_Some in Hq as Hel. destruct Hel as (Hlt & _).
  unfold p' in *. revert Hpar. rewrite toast_eq, Hq.
  cbn [snd dom localStorage listeners observers scrolls domLog clock next_timer toast_t].
  intros Hpar.
  destruct (textOf_toast (dom p) el msg Hlt) as [Ht Hh].
  split; [done|]. split; [done|]. split; [|split; [|split; [|split]]].
  - intros h Hne. unfold setHidden.
    rewrite list_lookup_alter_ne, setTextContent_lookup by done.
    destruct (dom p !! h); simpl; [|done]. by rewrite decide_False.
  - intros h. by apply Hpar.
  - unfold setHidden. by rewrite fmap_alter_inv, shape_setTextContent.
  - unfold setHidden. rewrite fmap_alter_inv by done.
    apply list_eq. intros i. rewrite !list_lookup_fmap, setTextContent_lookup.
    destruct (dom p !! i) as [e|]; simpl; [|done]. f_equal.
    destruct (decide (i = el)); case_bool_decide; by destruct e.
  - done.
Qed.

Lemma toast_replaces_children_witness :
  let p := load (Sample.page ++ [Sample.el "span" (Some 14) [] [] false]) ∅ None in
  parentOf (dom p) 15 = Some 14 ∧
  parentOf (dom (toast "hi" p).2) 15 = None ∧
  parentOf (dom (toast "hi" p).2) 14 = Some 2.
Proof.
  intros p. split; [reflexivity|].
  pose proof (proj1 (proj2 (proj2 (proj2
    (toast_replaces_children "hi" p 14 ltac:(vm_compute; reflexivity)))))) as H.
  split; [exact (H 15)|exact (H 14)].
Defined.

End ToastFrame.

(** ** The page under every sequence of events *)

Section KeepsFacts.

Implicit Types (d : Dom) (h t : nat) (p q r : Page).

Lemma oneTimer_fields p q :
  timers q = timers p → toast_t q = toast_t p → next_timer q = next_timer p →
  oneTimer p → oneTimer q.
Proof. unfold oneTimer. intros -> -> ->. done. Qed.

Lemma spyView_parent d d' :
  spyView <$> d = spyView <$> d' → parentElement <$> d = parentElement <$> d'.
Proof. exact (spyView_proj (λ v, v.1.1.2) d d'). Qed.

Lemma spyView_skeleton d d' :
  skeleton <$> d = skeleton <$> d' → spyView <$> d = spyView <$> d'.
Proof.
  exact (skeleton_proj (λ s, (s.1.1.1.1, s.1.1.2, s.1.2 !! "id", s.1.2 !! "href")) d d').
Qed.

Lemma spyView_matches_id i d d' :
  spyView <$> d = spyView <$> d' → matches (SelId i) <$> d = matches (SelId i) <$> d'.
Proof. exact (spyView_proj (λ v, bool_decide (v.1.2 = Some i)) d d'). Qed.

Lemma spyView_matches_tag tag d d' :
  spyView <$> d = spyView <$> d' → matches (SelTag tag) <$> d = matches (SelTag tag) <$> d'.
Proof. exact (spyView_proj (λ v, String.eqb v.1.1.1 tag) d d'). Qed.

(** *** What the handlers keep of a page *)

Lemma keeps_refl t p : keeps t p p.
Proof.
  do 3 (split; [done|]). intros Hok. do 4 (split; [done|]). by rewrite firstn_all.
Qed.

Lemma keeps_trans t p q r : keeps t p q → keeps t q r → keeps t p r.
Proof.
  intros (L1 & O1 & M1 & K1) (L2 & O2 & M2 & K2).
  split; [congruence|]. split; [congruence|]. split; [congruence|].
  intros Hp. destruct (K1 Hp) as (Hq & B1 & Q1 & T1 & V1).
  destruct (K2 Hq) as (Hr & B2 & Q2 & T2 & V2).
  split; [done|]. split; [congruence|]. split; [congruence|]. split; [congruence|].
  assert (N1 : length (dom p) ≤ length (dom q)).
  { apply (f_equal length) in V1. rewrite !length_fmap, length_take in V1. lia. }
  rewrite <- V1, !fmap_take, <- V2, fmap_take, take_take. f_equal. lia.
Qed.

(** A change that the section spy cannot see *)
Lemma view_ok t p q :
  spyView <$> dom q = spyView <$> dom p → (oneTimer p → oneTimer q) →
  pageOk p →
  pageOk q ∧ body (dom q) = body (dom p) ∧
  querySelector (SelId "toast") (dom q) = querySelector (SelId "toast") (dom p) ∧
  tocSpy t (dom q) = tocSpy t (dom p) ∧
  spyView <$> take (length (dom p)) (dom q) = spyView <$> dom p.
Proof.
  intros Hv Hone' (Hwf & Hd & Hone & Hleaf).
  pose proof (spyView_parent _ _ Hv) as Hpar.
  pose proof (length_ext _ _ _ Hv) as Hlen.
  assert (Hb : body (dom q) = body (dom p)).
  { apply body_ext; [done|by apply spyView_matches_tag]. }
  assert (Hq : querySelector (SelId "toast") (dom q) = querySelector (SelId "toast") (dom p)).
  { apply querySelector_ext; [done|by apply spyView_matches_id]. }
  split; [|split; [done|split; [done|split; [by apply tocSpy_ext|]]]].
  2: { by rewrite <- Hlen, firstn_all. }
  split; [|split; [|split]].
  - eapply wellFormed_ext; [symmetry; exact Hpar|done].
  - intros Hnil. rewrite Hnil in Hlen. by destruct (dom p).
  - auto.
  - intros el Hel. rewrite Hq in Hel. destruct (Hleaf el Hel) as [H1 H2].
    rewrite Hb. split; [done|]. intros h. by rewrite (parentOf_ext _ _ h Hpar).
Qed.

Lemma keeps_view' t p q :
  spyView <$> dom q = spyView <$> dom p →
  (oneTimer p → oneTimer q) →
  listeners q = listeners p → observers q = observers p →
  matchMedia_light q = matchMedia_light p →
  keeps t p q.
Proof.
  intros Hv Hone Hl Ho Hm. do 3 (split; [done|]). by apply view_ok.
Qed.

Lemma keeps_view t p q :
  spyView <$> dom q = spyView <$> dom p →
  timers q = timers p → toast_t q = toast_t p → next_timer q = next_timer p →
  listeners q = listeners p → observers q = observers p →
  matchMedia_light q = matchMedia_light p →
  keeps t p q.
Proof.
  intros Hv Ht Htt Hn Hl Ho Hm. apply keeps_view'; try done. by apply oneTimer_fields.
Qed.

Lemma tocSpy_snoc t d x :
  wellFormed d → matches (SelTag "a") x = false → attributes x !! "id" = None →
  tocSpy t (d ++ [x]) = tocSpy t d.
Proof.
  intros Hwf Hx Hid.
  assert (Hlinks : querySelectorAll_in t (SelTag "a") (d ++ [x])
                   = querySelectorAll_in t (SelTag "a") d).
  { unfold querySelectorAll_in. rewrite handles_snoc, filter_app, filter_singleton; [|exact []].
    rewrite decide_False.
    - rewrite app_nil_r. apply filter_iff_in. intros h Hh. apply elem_of_seq in Hh.
      unfold isDescendant. rewrite ancestors_snoc by (assumption || lia).
      by rewrite matchesAt_snoc by lia.
    - unfold matchesAt. rewrite list_lookup_middle by done. cbn [from_option].
      rewrite Hx, andb_false_r. simpl. tauto. }
  unfold tocSpy. rewrite Hlinks.
  assert (Hfold : foldl (indexLink (d ++ [x])) [] (querySelectorAll_in t (SelTag "a") d)
                  = foldl (indexLink d) [] (querySelectorAll_in t (SelTag "a") d)).
  { apply foldl_ext_in. intros m a Ha. unfold indexLink, getAttribute.
    unfold querySelectorAll_in, handles in Ha.
    apply list_elem_of_filter in Ha as [_ Ha]. apply elem_of_seq in Ha.
    by rewrite lookup_app_l by lia. }
  rewrite Hfold. f_equal.
  apply omap_ext_all. intros id. by apply getElementById_snoc.
Qed.

(** A textarea more on the heap, detached or a child of the body *)
Lemma keeps_snoc t p q x :
  dom q = dom p ++ [x] → tagName x = "textarea" → attributes x !! "id" = None →
  (∀ a, parentElement x = Some a → body (dom p) = Some a) →
  timers q = timers p → toast_t q = toast_t p → next_timer q = next_timer p →
  listeners q = listeners p → observers q = observers p →
  matchMedia_light q = matchMedia_light p →
  keeps t p q.
Proof.
  intros Hd Htag Hid Hx Ht Htt Hn Hl Ho Hm. do 3 (split; [done|]).
  intros (Hwf & Hne & Hone & Hleaf). rewrite Hd.
  assert (Hb : body (dom p ++ [x]) = body (dom p)).
  { apply body_snoc. by rewrite Htag. }
  assert (Hq : querySelector (SelId "toast") (dom p ++ [x])
               = querySelector (SelId "toast") (dom p)).
  { apply querySelector_snoc; [done|]. simpl. rewrite Hid. by apply bool_decide_eq_false_2. }
  split; [|split; [done|split; [done|split; [|by rewrite take_app_length]]]].
  - split; [|split; [|split]].
    + rewrite Hd. apply wellFormed_snoc; [done|]. intros a Ha. by apply body_lt, Hx.
    + rewrite Hd. by destruct (dom p).
    + by eapply oneTimer_fields.
    + rewrite Hd. intros el Hel. rewrite Hq in Hel. destruct (Hleaf el Hel) as [H1 H2].
      rewrite Hb. split; [done|]. intros h. rewrite parentOf_snoc.
      case_decide; [|done]. intros Hp. apply Hx in Hp. congruence.
  - apply tocSpy_snoc; [done| |done]. simpl. by rewrite Htag.
Qed.

Lemma keeps_toast t msg p : keeps t p (toast msg p).2.
Proof.
  destruct (toast_frame msg p) as (_ & _ & Hl & _).
  destruct (toast_rest msg p) as (_ & Ho & Hm & _).
  do 3 (split; [done|]). intros Hok. apply view_ok; [|exact (oneTimer_step p (CallToast msg))|done].
  apply spyView_skeleton, toast_leaf. by destruct Hok as (_ & _ & _ & ?).
Qed.

(** *** How the heap grows *)

Lemma grows_refl d : grows d d.
Proof.
  split; [done|]. split.
  - intros h e He. exists e. by auto 10.
  - intros h e' Hh He. apply lookup_lt_Some in He. lia.
Qed.

Lemma grows_trans d1 d2 d3 : grows d1 d2 → grows d2 d3 → grows d1 d3.
Proof.
  intros (N1 & O1 & F1) (N2 & O2 & F2). split; [lia|]. split.
  - intros h e He. destruct (O1 h e He) as (e1 & He1 & Ht1 & Hi1 & Hh1 & Hp1).
    destruct (O2 h e1 He1) as (e2 & He2 & Ht2 & Hi2 & Hh2 & Hp2).
    exists e2. split; [done|]. split; [congruence|]. split; [congruence|].
    split; [congruence|]. destruct Hp2 as [Hp2|Hp2]; [|by right]. rewrite Hp2. done.
  - intros h e3 Hh He3. destruct (decide (h < length d2)) as [Hlt|Hge].
    + destruct (lookup_lt_is_Some_2 d2 h Hlt) as [e2 He2].
      destruct (F1 h e2 Hh He2) as [Ht Hp].
      destruct (O2 h e2 He2) as (e3' & He3' & Ht' & _ & _ & Hp').
      rewrite He3 in He3'. injection He3' as <-.
      split; [congruence|]. destruct Hp' as [Hp'|Hp']; [|by left].
      rewrite Hp'. destruct Hp as [Hp|(b & Hp & Hb)]; [by left|].
      right. exists b. split; [done|]. unfold matchesAt in *.
      destruct (d2 !! b) as [eb|] eqn:Heb; [|done].
      destruct (O2 b eb Heb) as (eb' & -> & Htb & _). simpl in *. by rewrite Htb.
    + apply (F2 h e3); [lia|done].
Qed.

(** Tags, ids and hrefs as they were, and each parent as it was or gone *)
Lemma grows_cut d d' :
  shape <$> d' = shape <$> d →
  (∀ j, parentOf d' j = parentOf d j ∨ parentOf d' j = None) →
  grows d d'.
Proof.
  intros Hs Hpar. pose proof (length_ext _ _ _ Hs) as Hlen.
  split; [lia|]. split.
  - intros h e He.
    assert (Hi : (shape <$> d') !! h = (shape <$> d) !! h) by (by rewrite Hs).
    rewrite !list_lookup_fmap, He in Hi.
    destruct (d' !! h) as [e'|] eqn:He'; [|done]. injection Hi as H1 H2 H3 H4.
    exists e'. split; [done|]. split; [done|]. rewrite H3. split; [done|]. split; [done|].
    specialize (Hpar h). unfold parentOf in Hpar. by rewrite He, He' in Hpar.
  - intros h e' Hh He'. apply lookup_lt_Some in He'. lia.
Qed.

Lemma grows_view d d' : spyView <$> d' = spyView <$> d → grows d d'.
Proof.
  intros Hv. pose proof (length_ext _ _ _ Hv) as Hlen.
  split; [lia|]. split.
  - intros h e He.
    assert (Hi : (spyView <$> d') !! h = (spyView <$> d) !! h) by (by rewrite Hv).
    rewrite !list_lookup_fmap, He in Hi.
    destruct (d' !! h) as [e'|] eqn:He'; [|done]. injection Hi as H1 H2 H3 H4.
    exists e'. by auto 10.
  - intros h e' Hh He'. apply lookup_lt_Some in He'. lia.
Qed.

Lemma grows_snoc d x :
  tagName x = "textarea" →
  (∀ a, parentElement x = Some a → body d = Some a) →
  grows d (d ++ [x]).
Proof.
  intros Htag Hx. split; [rewrite length_app; lia|]. split.
  - intros h e He. exists e. rewrite lookup_app_l by (by eapply lookup_lt_Some). by auto 10.
  - intros h e' Hh He'.
    assert (h = length d) as ->.
    { apply lookup_lt_Some in He'. rewrite length_app in He'. simpl in He'. lia. }
    rewrite list_lookup_middle in He' by done. injection He' as <-.
    split; [done|]. destruct (parentElement x) as [a|] eqn:Ha; [|by left].
    right. exists a. split; [done|]. specialize (Hx a eq_refl).
    rewrite matchesAt_snoc by (by eapply body_lt). by apply body_tag.
Qed.

Lemma grows_toast msg p : grows (dom p) (dom (toast msg p).2).
Proof.
  destruct (toast_frame msg p) as (Hs & _).
  apply grows_cut; [done|]. intros j.
  destruct (querySelector (SelId "toast") (dom p)) as [el|] eqn:Hq.
  - rewrite (toast_parentOf msg p el j Hq). case_decide; auto.
  - left. by rewrite toast_eq, Hq.
Qed.

Lemma spyView_setAttribute h name v d :
  name ≠ "id" → name ≠ "href" → spyView <$> setAttribute h name v d = spyView <$> d.
Proof.
  intros H1 H2. unfold setAttribute. apply fmap_alter_inv. intros e.
  unfold spyView. simpl. by rewrite !lookup_insert_ne.
Qed.

Lemma spyView_setHidden h b d : spyView <$> setHidden h b d = spyView <$> d.
Proof. unfold setHidden. by apply fmap_alter_inv. Qed.

Lemma setTheme_eq theme p :
  dom p ≠ [] →
  setTheme theme p =
  toast (if String.eqb theme "light" then "主题：亮色" else "主题：暗色")
    (with_localStorage (<[theme_key := theme]>)
       (with_dom (setAttribute 0 "data-theme" theme) p)).
Proof.
  intros Hd. pose proof (documentElement_Some _ Hd) as Hroot.
  unfold setTheme, mbind, Js_bind, nonNull, modify_dom, modify. by rewrite Hroot.
Qed.

Lemma setTheme_no_root theme p : dom p = [] → (setTheme theme p).2 = p.
Proof.
  intros Hd. unfold setTheme, mbind, Js_bind, nonNull, documentElement. by rewrite Hd.
Qed.

Lemma toast_storage msg p : localStorage (toast msg p).2 = localStorage p.
Proof. by destruct (toast_frame msg p) as (_ & ? & _). Qed.

Lemma toast_scrolls msg p : scrolls (toast msg p).2 = scrolls p.
Proof. by destruct (toast_frame msg p) as (_ & _ & _ & ? & _). Qed.

(** The copy, path by path *)
Lemma copy_paths target w x p :
  let r := copyToClipboard target w x p in
  (∃ msg, r.2 = (toast msg p).2) ∨
  (∃ q, dom q = dom p ++ [usedTextarea target] ∧
        timers q = timers p ∧ toast_t q = toast_t p ∧ next_timer q = next_timer p ∧
        listeners q = listeners p ∧ observers q = observers p ∧
        matchMedia_light q = matchMedia_light p ∧ localStorage q = localStorage p ∧
        scrolls q = scrolls p ∧ clock q = clock p ∧
        (r.2 = q ∨ ∃ msg, r.2 = (toast msg q).2)) ∨
  (∃ b, body (dom p) = Some b ∧ dom r.2 = dom p ++ [attachedTextarea b target] ∧
        timers r.2 = timers p ∧ toast_t r.2 = toast_t p ∧ next_timer r.2 = next_timer p ∧
        listeners r.2 = listeners p ∧ observers r.2 = observers p ∧
        matchMedia_light r.2 = matchMedia_light p ∧ localStorage r.2 = localStorage p ∧
        scrolls r.2 = scrolls p ∧ clock r.2 = clock p).
Proof.
  intros r.
  assert (Hleg : w = Rejected ∨ querySelector (SelId "toast") (dom p) = None →
                 r = legacyCopy target x p).
  { intros H. unfold r, copyToClipboard, try_catch, mbind, Js_bind.
    destruct w; cbn [mret Js_ret throw]; [|done].
    destruct H as [|Hq]; [done|]. by rewrite toast_eq, Hq. }
  assert (Hfall : r = legacyCopy target x p →
    (∃ q, dom q = dom p ++ [usedTextarea target] ∧
        timers q = timers p ∧ toast_t q = toast_t p ∧ next_timer q = next_timer p ∧
        listeners q = listeners p ∧ observers q = observers p ∧
        matchMedia_light q = matchMedia_light p ∧ localStorage q = localStorage p ∧
        scrolls q = scrolls p ∧ clock q = clock p ∧
        (r.2 = q ∨ ∃ msg, r.2 = (toast msg q).2)) ∨
    (∃ b, body (dom p) = Some b ∧ dom r.2 = dom p ++ [attachedTextarea b target] ∧
        timers r.2 = timers p ∧ toast_t r.2 = toast_t p ∧ next_timer r.2 = next_timer p ∧
        listeners r.2 = listeners p ∧ observers r.2 = observers p ∧
        matchMedia_light r.2 = matchMedia_light p ∧ localStorage r.2 = localStorage p ∧
        scrolls r.2 = scrolls p ∧ clock r.2 = clock p)).
  { intros ->. destruct (body (dom p)) as [b|] eqn:Hb.
    - destruct x as [ok|e].
      + left. rewrite (legacyCopy_eq target ok p b Hb). set (q0 := with_domLog _ _).
        exists q0. do 10 (split; [done|]). right. by eexists.
      + right. exists b. by rewrite (legacyCopy_throws target e p b Hb).
    - left. rewrite (legacyCopy_nobody target x p Hb). cbn [snd].
      set (q0 := with_domLog _ _). exists q0. do 10 (split; [done|]). by left. }
  destruct w.
  - destruct (querySelector (SelId "toast") (dom p)) as [el|] eqn:Hq.
    + left. unfold r. rewrite (copy_resolved target x p el Hq). by eexists.
    + right. apply Hfall, Hleg. by right.
  - right. apply Hfall, Hleg. by left.
Qed.

Section Effects.

Context (t : nat) (spy : TocSpy).

Lemma themeClick_keeps p :
  keeps t p (onThemeClick p).2 ∧ grows (dom p) (dom (onThemeClick p).2) ∧
  scrolls (onThemeClick p).2 = scrolls p.
Proof.
  rewrite onThemeClick_eq. set (next := if String.eqb _ _ then _ else _).
  destruct (decide (dom p = [])) as [Hd|Hd].
  - rewrite setTheme_no_root by done. split; [apply keeps_refl|]. split; [apply grows_refl|done].
  - rewrite setTheme_eq by done. rewrite toast_scrolls. split; [|split; [|done]].
    + eapply keeps_trans; [|apply keeps_toast].
      apply keeps_view; try done. simpl. by apply spyView_setAttribute.
    + eapply grows_trans; [|apply grows_toast].
      apply grows_view. simpl. by apply spyView_setAttribute.
Qed.

Lemma tocClick_keeps tgt p :
  keeps t p (onTocClick spy tgt p).2 ∧ grows (dom p) (dom (onTocClick spy tgt p).2) ∧
  localStorage (onTocClick spy tgt p).2 = localStorage p ∧
  ∃ new, scrolls (onTocClick spy tgt p).2 = scrolls p ++ new ∧ Forall smooth new.
Proof.
  assert (Hsame : keeps t p p ∧ grows (dom p) (dom p) ∧ localStorage p = localStorage p ∧
                  ∃ new, scrolls p = scrolls p ++ new ∧ Forall smooth new).
  { split; [apply keeps_refl|]. split; [apply grows_refl|]. split; [done|].
    exists []. by rewrite app_nil_r. }
  rewrite onTocClick_eq.
  destruct (if instanceofHTMLElement (dom p) tgt then _ else _) as [a|]; [|exact Hsame].
  cbv zeta. destruct (JsString.startsWith_hash _); [|exact Hsame].
  destruct (getElementById _ _) as [target|]; [|exact Hsame].
  split; [|split; [|split; [done|]]].
  - apply keeps_view; try done. simpl. apply spyView_setActive.
  - apply grows_view. simpl. apply spyView_setActive.
  - exists [ScrollIntoView target "smooth" "start"]. split; [done|].
    by repeat constructor.
Qed.

Lemma intersect_keeps entries p :
  keeps t p (with_dom (onIntersect spy entries) p) ∧
  grows (dom p) (dom (with_dom (onIntersect spy entries) p)).
Proof.
  assert (Hv : spyView <$> onIntersect spy entries (dom p) = spyView <$> dom p).
  { rewrite onIntersect_eq.
    destruct (head _); [|done]. case_bool_decide; [done|]. apply spyView_setActive. }
  split; [by apply keeps_view|by apply grows_view].
Qed.

Lemma accordion_keeps tgt p :
  keeps t p (onAccordionClick tgt p).2 ∧ grows (dom p) (dom (onAccordionClick tgt p).2) ∧
  localStorage (onAccordionClick tgt p).2 = localStorage p ∧
  scrolls (onAccordionClick tgt p).2 = scrolls p.
Proof.
  assert (Hsame : keeps t p p ∧ grows (dom p) (dom p) ∧ localStorage p = localStorage p ∧
                  scrolls p = scrolls p).
  { split; [apply keeps_refl|]. split; [apply grows_refl|done]. }
  rewrite onAccordionClick_eq.
  destruct (if instanceofHTMLElement (dom p) tgt then _ else _) as [btn|]; [|exact Hsame].
  destruct (nextElementSibling _ _) as [panel|]; [|exact Hsame].
  destruct (instanceofHTMLElement (dom p) panel); [|exact Hsame].
  assert (Hv : ∀ v b, spyView <$> setHidden panel b (setAttribute btn "aria-expanded" v (dom p))
                      = spyView <$> dom p).
  { intros v b. by rewrite spyView_setHidden, spyView_setAttribute. }
  split; [|split; [|done]].
  - apply keeps_view; try done. simpl. apply Hv.
  - apply grows_view. simpl. apply Hv.
Qed.

Lemma copy_keeps c p :
  keeps t p (copyStep p c) ∧ grows (dom p) (dom (copyStep p c)) ∧
  localStorage (copyStep p c) = localStorage p ∧
  scrolls (copyStep p c) = scrolls p ∧ clock (copyStep p c) = clock p.
Proof.
  destruct c as [[target w] x]. unfold copyStep. cbn [fst snd].
  assert (Hta : ∀ a, parentElement (usedTextarea target) = Some a → body (dom p) = Some a)
    by done.
  destruct (copy_paths target w x p)
    as [(msg & ->) | [(q & Hd & Ht & Htt & Hn & Hl & Ho & Hm & Hs & Hsc & Hc & Hr)
                     | (b & Hb & Hd & Ht & Htt & Hn & Hl & Ho & Hm & Hs & Hsc & Hc)]].
  - rewrite toast_storage, toast_scrolls.
    split; [apply keeps_toast|]. split; [apply grows_toast|]. split; [done|].
    split; [done|]. by destruct (toast_rest msg p) as (_ & _ & _ & ?).
  - assert (Hk : keeps t p q) by (by apply (keeps_snoc t p q (usedTextarea target))).
    assert (Hg : grows (dom p) (dom q)) by (rewrite Hd; by apply grows_snoc).
    destruct Hr as [-> | (msg & ->)]; [done|].
    rewrite toast_storage, toast_scrolls.
    split; [eapply keeps_trans; [exact Hk|apply keeps_toast]|].
    split; [eapply grows_trans; [exact Hg|apply grows_toast]|].
    split; [done|]. split; [done|]. destruct (toast_rest msg q) as (_ & _ & _ & ?). congruence.
  - assert (Hat : ∀ a, parentElement (attachedTextarea b target) = Some a →
                       body (dom p) = Some a).
    { intros a Ha. simpl in Ha. congruence. }
    split; [by apply (keeps_snoc t p _ (attachedTextarea b target))|].
    split; [rewrite Hd; by apply grows_snoc|done].
Qed.

Lemma scrollFlow_keeps p :
  keeps t p (onScrollFlowClick p).2 ∧ grows (dom p) (dom (onScrollFlowClick p).2) ∧
  localStorage (onScrollFlowClick p).2 = localStorage p ∧
  ∃ new, scrolls (onScrollFlowClick p).2 = scrolls p ++ new ∧ Forall smooth new.
Proof.
  unfold onScrollFlowClick, mbind, Js_bind, gets. cbn [fst snd].
  destruct (getElementById _ _) as [flow|].
  - split; [by apply keeps_view|]. split; [apply grows_refl|]. split; [done|].
    exists [ScrollIntoView flow "smooth" "start"]. split; [done|]. by repeat constructor.
  - split; [apply keeps_refl|]. split; [apply grows_refl|]. split; [done|].
    exists []. by rewrite app_nil_r.
Qed.

Lemma backTop_keeps p :
  keeps t p (onBackTopClick p).2 ∧ grows (dom p) (dom (onBackTopClick p).2) ∧
  localStorage (onBackTopClick p).2 = localStorage p ∧
  ∃ new, scrolls (onBackTopClick p).2 = scrolls p ++ new ∧ Forall smooth new.
Proof.
  split; [by apply keeps_view|]. split; [apply grows_refl|]. split; [done|].
  exists [ScrollTo 0 "smooth"]. split; [done|]. by repeat constructor.
Qed.

Lemma fireTimer_keeps id p :
  keeps t p (fireTimer id p).2 ∧ grows (dom p) (dom (fireTimer id p).2) ∧
  localStorage (fireTimer id p).2 = localStorage p ∧
  scrolls (fireTimer id p).2 = scrolls p.
Proof.
  assert (Hf : listeners (fireTimer id p).2 = listeners p ∧
               observers (fireTimer id p).2 = observers p ∧
               matchMedia_light (fireTimer id p).2 = matchMedia_light p ∧
               localStorage (fireTimer id p).2 = localStorage p ∧
               scrolls (fireTimer id p).2 = scrolls p).
  { unfold fireTimer. by destruct (filter _ _). }
  destruct Hf as (Hl & Ho & Hm & Hs & Hsc).
  assert (Hv : spyView <$> dom (fireTimer id p).2 = spyView <$> dom p).
  { unfold fireTimer. destruct (filter _ _); [done|]. simpl. apply spyView_setHidden. }
  split; [|split; [by apply grows_view|done]].
  apply keeps_view'; try done. apply (oneTimer_step p (TimerFires id)).
Qed.

Lemma pageStep_keeps p ev :
  keeps t p (pageStep spy p ev) ∧ grows (dom p) (dom (pageStep spy p ev)).
Proof.
  destruct ev; simpl.
  - split; apply themeClick_keeps.
  - split; apply tocClick_keeps.
  - apply intersect_keeps.
  - split; apply accordion_keeps.
  - split; apply copy_keeps.
  - split; apply scrollFlow_keeps.
  - split; apply backTop_keeps.
  - split; apply fireTimer_keeps.
  - split; [by apply keeps_view|apply grows_refl].
Qed.

Lemma pageStep_storage p ev :
  ev ≠ ThemeClicked → localStorage (pageStep spy p ev) = localStorage p.
Proof.
  destruct ev; simpl; try done; intros _.
  - apply tocClick_keeps.
  - apply accordion_keeps.
  - apply copy_keeps.
  - apply scrollFlow_keeps.
  - apply fireTimer_keeps.
Qed.

Lemma pageStep_scrolls p ev :
  (∃ new, scrolls (pageStep spy p ev) = scrolls p ++ new ∧ Forall smooth new) ∧
  match ev with
  | TocClicked _ | ScrollFlowClicked | BackTopClicked => True
  | _ => scrolls (pageStep spy p ev) = scrolls p
  end.
Proof.
  assert (Hnil : ∀ q, scrolls q = scrolls p →
                      ∃ new, scrolls q = scrolls p ++ new ∧ Forall smooth new).
  { intros q ->. exists []. by rewrite app_nil_r. }
  destruct ev; simpl.
  - split; [apply Hnil|]; apply themeClick_keeps.
  - split; [|done]. apply tocClick_keeps.
  - split; [by apply Hnil|done].
  - split; [apply Hnil|]; apply accordion_keeps.
  - split; [apply Hnil|]; apply copy_keeps.
  - split; [|done]. apply scrollFlow_keeps.
  - split; [|done]. apply backTop_keeps.
  - split; [apply Hnil|]; apply fireTimer_keeps.
  - split; [by apply Hnil|done].
Qed.

End Effects.

End KeepsFacts.

Section RunFacts.

Implicit Types (d : Dom) (h t : nat) (p q : Page).

Lemma themeClick_storage p :
  localStorage (onThemeClick p).2 = localStorage p ∨
  ∃ th, (th = "light" ∨ th = "dark") ∧
        localStorage (onThemeClick p).2 = <[theme_key := th]> (localStorage p).
Proof.
  rewrite onThemeClick_eq.
  destruct (decide (dom p = [])) as [Hd|Hd].
  - left. by rewrite setTheme_no_root.
  - right. rewrite setTheme_eq by done. rewrite toast_storage.
    exists (if String.eqb (getTheme p) "dark" then "light" else "dark").
    split; [destruct (String.eqb _ _); auto|done].
Qed.

Lemma sample_toastLeaf : toastLeaf Sample.page.
Proof.
  intros el Hel. vm_compute in Hel. injection Hel as <-.
  split; [vm_compute; discriminate|]. intros h.
  do 15 (destruct h as [|h]; [vm_compute; discriminate|]).
  vm_compute. discriminate.
Qed.

Lemma sample_pageOk : pageOk (load Sample.page ∅ None).
Proof.
  split; [apply sample_wellFormed|]. split; [done|].
  split; [apply oneTimer_load|apply sample_toastLeaf].
Qed.

Lemma run_keeps t spy p evs :
  keeps t p (foldl (pageStep spy) p evs) ∧ grows (dom p) (dom (foldl (pageStep spy) p evs)).
Proof.
  revert p. induction evs as [|ev evs IH]; intros p; simpl.
  - split; [apply keeps_refl|apply grows_refl].
  - destruct (pageStep_keeps t spy p ev) as [K1 G1].
    destruct (IH (pageStep spy p ev)) as [K2 G2].
    split; [by eapply keeps_trans|by eapply grows_trans].
Qed.

(** X21: whatever events follow each other on a well-formed page whose
    toast element is an empty box and which has at most the toast's timer
    pending (clicks, observer callbacks, settled copies whatever the legacy
    command does, timer callbacks, time passing), the page stays so, no
    listener or observer is added or removed, and the index the section spy
    would build from the current document is the one it built before. *)
Theorem page_invariants t spy p evs :
  pageOk p →
  let p' := foldl (pageStep spy) p evs in
  pageOk p' ∧
  listeners p' = listeners p ∧
  observers p' = observers p ∧
  tocSpy t (dom p') = tocSpy t (dom p).
Proof.
  intros Hok p'. destruct (run_keeps t spy p evs) as [(Hl & Ho & _ & Hk) _].
  destruct (Hk Hok) as (H1 & _ & _ & H2 & _). auto.
Qed.

Lemma page_invariants_witness :
  pageOk (load Sample.page ∅ None) ∧
  let p' := foldl (pageStep Sample.spy) (load Sample.page ∅ None)
              [ThemeClicked; CopySettled (mkCopyTarget "x" "y", Rejected, Throws "no");
               TocClicked 5; AccordionClicked 10; TimePassed 3000; ToastTimerFired 2] in
  pageOk p' ∧
  listeners p' = listeners (load Sample.page ∅ None) ∧
  observers p' = observers (load Sample.page ∅ None) ∧
  tocSpy 3 (dom p') = tocSpy 3 (dom (load Sample.page ∅ None)).
Proof.
  split; [apply sample_pageOk|].
  apply (page_invariants 3 Sample.spy (load Sample.page ∅ None)). apply sample_pageOk.
Defined.

(** X22: whatever events follow each other on whatever page, the heap
    never shrinks; every element the page had keeps its tag, id and href,
    and its parent unless an assignment of textContent has taken it out of
    the toast element, after which it has none; whatever the heap has
    gained is a textarea, without a parent or left in a body element by a
    copy that threw.  On a page the handlers are written for, every
    element it had keeps its parent too. *)
Theorem tree_changes_only_by_toast_and_copy spy p evs :
  let p' := foldl (pageStep spy) p evs in
  length (dom p) ≤ length (dom p') ∧
  (∀ h e, dom p !! h = Some e →
     ∃ e', dom p' !! h = Some e' ∧ tagName e' = tagName e ∧
           attributes e' !! "id" = attributes e !! "id" ∧
           attributes e' !! "href" = attributes e !! "href" ∧
           (parentElement e' = parentElement e ∨ parentElement e' = None)) ∧
  (∀ h e', length (dom p) ≤ h → dom p' !! h = Some e' →
     tagName e' = "textarea" ∧
     (parentElement e' = None ∨
      ∃ b, parentElement e' = Some b ∧ matchesAt (SelTag "body") (dom p') b = true)) ∧
  (pageOk p → spyView <$> take (length (dom p)) (dom p') = spyView <$> dom p).
Proof.
  intros p'. destruct (run_keeps 0 spy p evs) as [(_ & _ & _ & Hk) (G1 & G2 & G3)].
  split; [done|]. split; [done|]. split; [done|].
  intros Hok. by destruct (Hk Hok) as (_ & _ & _ & _ & ?).
Qed.

Lemma tree_changes_only_by_toast_and_copy_witness :
  let p := load Sample.page ∅ None in
  let p' := foldl (pageStep Sample.spy) p
              [CopySettled (mkCopyTarget "x" "y", Rejected, Throws "no"); ThemeClicked] in
  spyView <$> take (length (dom p)) (dom p') = spyView <$> dom p.
Proof.
  intros p p'.
  exact (proj2 (proj2 (proj2 (tree_changes_only_by_toast_and_copy Sample.spy p
           [CopySettled (mkCopyTarget "x" "y", Rejected, Throws "no"); ThemeClicked])))
         sample_pageOk).
Defined.

(** X23: every scroll the script asks for is smooth, to the start of
    an element or to the top of the page, and only a click in the table of
    contents or on a quick-scroll button asks for one. *)
Theorem scrolls_are_smooth spy p evs :
  let p' := foldl (pageStep spy) p evs in
  (∃ new, scrolls p' = scrolls p ++ new ∧ Forall smooth new) ∧
  (Forall (λ ev, match ev with
                 | TocClicked _ | ScrollFlowClicked | BackTopClicked => False
                 | _ => True
                 end) evs → scrolls p' = scrolls p).
Proof.
  intros p'. split.
  - unfold p'. clear p'. revert p. induction evs as [|ev evs IH]; intros p; simpl.
    + exists []. by rewrite app_nil_r.
    + destruct (proj1 (pageStep_scrolls 0 spy p ev)) as (n1 & E1 & F1).
      destruct (IH (pageStep spy p ev)) as (n2 & E2 & F2).
      exists (n1 ++ n2). split; [by rewrite E2, E1, app_assoc|by apply Forall_app].
  - unfold p'. clear p'. revert p. induction evs as [|ev evs IH]; intros p Hall; [done|].
    apply Forall_cons in Hall as [Hev Hall]. simpl. rewrite IH by done.
    pose proof (proj2 (pageStep_scrolls 0 spy p ev)) as Hs. by destruct ev.
Qed.

(** X24: only a click on the theme button writes to local storage,
    and it writes only the theme key, with the value light or dark. *)
Theorem storage_written_by_theme_only spy p evs :
  let p' := foldl (pageStep spy) p evs in
  (∀ k, k ≠ theme_key → localStorage p' !! k = localStorage p !! k) ∧
  (localStorage p' !! theme_key = localStorage p !! theme_key ∨
   localStorage p' !! theme_key = Some "light" ∨
   localStorage p' !! theme_key = Some "dark") ∧
  (ThemeClicked ∉ evs → localStorage p' = localStorage p).
Proof.
  revert p. induction evs as [|ev evs IH]; intros p; simpl; [by auto|].
  destruct (IH (pageStep spy p ev)) as (Hk & Ht & Hn).
  assert (ev = ThemeClicked ∨ ev ≠ ThemeClicked) as [->|Hev]
    by (destruct ev; auto; right; discriminate).
  - simpl in *. split; [|split].
    + intros k Hne. rewrite Hk by done.
      destruct (themeClick_storage p) as [->|(th & _ & ->)]; [done|].
      by rewrite lookup_insert_ne.
    + destruct Ht as [Ht|Ht]; [|by right]. rewrite Ht.
      destruct (themeClick_storage p) as [->|(th & [-> | ->] & ->)]; [by left|..];
        rewrite lookup_insert_eq; auto.
    + intros Hnot. exfalso. apply Hnot. left.
  - pose proof (pageStep_storage 0 spy p ev Hev) as Hs. rewrite Hs in *.
    split; [done|]. split; [done|].
    intros Hnot. apply Hn. intros Hin. apply Hnot. by right.
Qed.

End RunFacts.

(** ** Clipboard copy: outcome and overlapping calls *)

Section CopyOutcome.

Implicit Types (d : Dom) (h : nat) (p q : Page) (c : CopyCall).

Lemma keeps_ready t b el p q : keeps t p q → copyReady b el p → copyReady b el q.
Proof.
  intros (_ & _ & _ & Hk) (Hok & Hb & Hq). destruct (Hk Hok) as (Hok' & Hb' & Hq' & _).
  split; [done|]. split; congruence.
Qed.

Lemma toast_ready b el msg p :
  copyReady b el p →
  (toast msg p).1 = Normal () ∧
  textOf (dom (toast msg p).2) el = msg ∧
  isHidden (dom (toast msg p).2) el = false ∧
  timers (toast msg p).2 = [mkTimer (next_timer p) (clock p + 2200) el] ∧
  toast_t (toast msg p).2 = next_timer p ∧
  clock (toast msg p).2 = clock p ∧
  domLog (toast msg p).2 = domLog p ∧
  length (dom (toast msg p).2) = length (dom p).
Proof.
  intros ((_ & _ & Hone & _) & Hb & Hq).
  destruct (toast_timers msg p el Hone Hq) as (Ht & Hid & Hn).
  destruct (toast_frame msg p) as (_ & _ & _ & _ & Hlog).
  destruct (toast_rest msg p) as (Hlen & _ & _ & Hclock).
  destruct (querySelector_Some _ _ _ Hq) as (Hlt & _).
  destruct (textOf_toast (dom p) el msg Hlt) as (Htext & Hhid).
  assert (Hdom : dom (toast msg p).2 = setHidden el false (setTextContent el msg (dom p))).
  { by rewrite toast_eq, Hq. }
  rewrite <- Hdom in Htext, Hhid.
  split; [by rewrite toast_eq, Hq|done].
Qed.

Lemma copyToClipboard_ready b el target w x p :
  copyReady b el p →
  let r := copyToClipboard target w x p in
  (∀ ok, w = Resolved ∨ x = Returns ok →
     r.1 = Normal () ∧
     textOf (dom r.2) el = copyMessage target w ok ∧
     isHidden (dom r.2) el = false ∧
     timers r.2 = [mkTimer (toast_t r.2) (clock p + 2200) el] ∧
     toast_t r.2 = next_timer p) ∧
  (w = Resolved → domLog r.2 = domLog p ∧ length (dom r.2) = length (dom p)) ∧
  (∀ e, w = Rejected → x = Throws e →
     r.1 = Throw e ∧ dom r.2 = dom p ++ [attachedTextarea b target] ∧
     domLog r.2 = domLog p ++ [Created (length (dom p)) "textarea";
                               Appended b (length (dom p))] ∧
     timers r.2 = timers p) ∧
  clock r.2 = clock p ∧
  copyReady b el r.2.
Proof.
  intros Hr r.
  assert (Hready : copyReady b el r.2).
  { apply (keeps_ready 0 b el p); [|done].
    apply (copy_keeps 0 (target, w, x) p). }
  assert (Hclock : clock r.2 = clock p) by apply (copy_keeps 0 (target, w, x) p).
  assert (Hres : w = Resolved → r = toast (label target +:+ "：已复制") p).
  { intros ->. apply (copy_resolved target x p el), Hr. }
  destruct (toast_ready b el (label target +:+ "：已复制") p Hr)
    as (T1 & T2 & T3 & T4 & T5 & T6 & T7 & T8).
  split; [|split; [|split; [|done]]].
  - intros ok Hw. destruct w.
    + rewrite Hres by done. rewrite T5. by destruct ok.
    + destruct Hw as [Hw|Hw]; [done|]. subst x.
      assert (E : r = legacyCopy target (Returns ok) p) by done.
      destruct Hr as (Hok & Hb & Hq).
      rewrite (legacyCopy_eq target ok p b Hb) in E.
      set (q := with_domLog _ _) in E. set (msg := if ok then _ else _) in E.
      assert (Hq2 : copyReady b el q).
      { apply (keeps_ready 0 b el p); [|done].
        by apply (keeps_snoc 0 p q (usedTextarea target)). }
      destruct (toast_ready b el msg q Hq2) as (H1 & H2 & H3 & H4 & H5 & _).
      rewrite E, H5. split; [done|]. split; [|done].
      rewrite H2. unfold msg, copyMessage. by destruct ok.
  - intros Hw. by rewrite Hres.
  - intros e -> ->. destruct Hr as (_ & Hb & _).
    assert (E : r = legacyCopy target (Throws e) p) by done.
    rewrite (legacyCopy_throws target e p b Hb) in E. by rewrite E.
Qed.

Lemma sample_ready : copyReady 2 14 (load Sample.page ∅ None).
Proof. split; [apply sample_pageOk|]. split; vm_compute; reflexivity. Qed.

(** X7: on a page with a body and an empty toast element, a copy whose
    write resolves, or whose legacy command returns, returns normally with
    the toast visible and showing the label with "copied", or "copy failed"
    when the write was rejected and the command answered false, and exactly
    the new auto-hide timer is pending; a resolved write creates no
    element; a rejected write whose legacy command throws ends with that
    error, sets no timer and leaves the textarea a child of the body; in
    every case the page is ready for the next call. *)
Theorem copy_outcome b el target w x p :
  copyReady b el p →
  let r := copyToClipboard target w x p in
  (∀ ok, w = Resolved ∨ x = Returns ok →
     r.1 = Normal () ∧
     textOf (dom r.2) el = copyMessage target w ok ∧
     isHidden (dom r.2) el = false ∧
     timers r.2 = [mkTimer (next_timer p) (clock p + 2200) el]) ∧
  (w = Resolved → domLog r.2 = domLog p ∧ length (dom r.2) = length (dom p)) ∧
  (∀ e, w = Rejected → x = Throws e →
     r.1 = Throw e ∧ dom r.2 = dom p ++ [attachedTextarea b target] ∧
     domLog r.2 = domLog p ++ [Created (length (dom p)) "textarea";
                               Appended b (length (dom p))] ∧
     timers r.2 = timers p) ∧
  copyReady b el r.2.
Proof.
  intros Hr r.
  destruct (copyToClipboard_ready b el target w x p Hr) as (H1 & H2 & H3 & _ & H5).
  split; [|done]. intros ok Hw. destruct (H1 ok Hw) as (A1 & A2 & A3 & A4 & A5).
  fold r in A4, A5. rewrite A5 in A4. done.
Qed.

Lemma copy_outcome_witness :
  let p := load Sample.page ∅ None in
  textOf (dom (copyToClipboard (mkCopyTarget "x" "L") Rejected (Returns false) p).2) 14
  = "L：复制失败（请手动复制）".
Proof.
  intros p.
  refine (proj1 (proj2 (proj1 (copy_outcome 2 14 (mkCopyTarget "x" "L") Rejected
                                 (Returns false) p sample_ready) false _))).
  by right.
Defined.

(** X8: whatever has happened on the page before (clicks, other
    copies, timers, time passing), when a copy settles whose write resolved
    or whose legacy command returned, the toast shows the message of that
    copy, and the one pending timer is the toast's and is due 2200 ms after
    the moment this copy settled. *)
Theorem copies_last_wins spy b el evs target w ok p :
  copyReady b el p →
  let q := foldl (pageStep spy) p evs in
  let p' := copyStep q (target, w, Returns ok) in
  textOf (dom p') el = copyMessage target w ok ∧
  isHidden (dom p') el = false ∧
  timers p' = [mkTimer (toast_t p') (clock q + 2200) el] ∧
  clock p' = clock q.
Proof.
  intros Hr q p'.
  assert (Hq : copyReady b el q).
  { apply (keeps_ready 0 b el p); [|done]. apply (run_keeps 0 spy p evs). }
  destruct (copyToClipboard_ready b el target w (Returns ok) q Hq) as (H1 & _ & _ & H4 & _).
  destruct (H1 ok (or_intror eq_refl)) as (_ & A2 & A3 & A4 & _). done.
Qed.

Lemma copies_last_wins_witness :
  let p := load Sample.page ∅ None in
  let q := foldl (pageStep Sample.spy) p
             [CopySettled (mkCopyTarget "a" "A", Rejected, Returns false);
              TimePassed 1000; ThemeClicked; TimePassed 500] in
  let p' := copyStep q (mkCopyTarget "b" "B", Resolved, Returns true) in
  textOf (dom p') 14 = "B：已复制" ∧ isHidden (dom p') 14 = false ∧
  timers p' = [mkTimer (toast_t p') (clock q + 2200) 14] ∧ clock p' = clock q.
Proof.
  intros p q p'.
  exact (copies_last_wins Sample.spy 2 14
           [CopySettled (mkCopyTarget "a" "A", Rejected, Returns false);
            TimePassed 1000; ThemeClicked; TimePassed 500]
           (mkCopyTarget "b" "B") Resolved true p sample_ready).
Defined.

(** X9: without a toast element copyToClipboard throws however the
    write ended, a resolved write falling into the catch block too, and no
    timer is set: when the legacy command returns, the error is that of
    mustQuery and the page ends with the detached textarea; when it throws,
    the error is its own and the textarea is left a child of the body. *)
Theorem copy_without_toast b target w x p :
  wellFormed (dom p) → body (dom p) = Some b →
  querySelector (SelId "toast") (dom p) = None →
  let r := copyToClipboard target w x p in
  (∀ ok, x = Returns ok →
     r.1 = Throw "Missing element: #toast" ∧
     dom r.2 = dom p ++ [usedTextarea target] ∧
     domLog r.2 = domLog p ++ [Created (length (dom p)) "textarea";
                               Appended b (length (dom p)); Removed b (length (dom p))]) ∧
  (∀ e, x = Throws e →
     r.1 = Throw e ∧
     dom r.2 = dom p ++ [attachedTextarea b target] ∧
     domLog r.2 = domLog p ++ [Created (length (dom p)) "textarea";
                               Appended b (length (dom p))]) ∧
  timers r.2 = timers p.
Proof.
  intros Hwf Hb Hq r.
  assert (E : r = legacyCopy target x p).
  { unfold r, copyToClipboard, try_catch, mbind, Js_bind.
    destruct w; cbn [mret Js_ret throw]; [|done]. by rewrite toast_eq, Hq. }
  destruct x as [ok|e].
  - rewrite (legacyCopy_eq target ok p b Hb) in E.
    set (q := with_domLog _ _) in E.
    assert (Hq' : querySelector (SelId "toast") (dom q) = None).
    { change (querySelector (SelId "toast") (dom p ++ [usedTextarea target]) = None).
      by rewrite querySelector_snoc. }
    rewrite toast_eq, Hq' in E. rewrite E.
    split; [by intros ok' _|]. split; [by intros e [=]|done].
  - rewrite (legacyCopy_throws target e p b Hb) in E. rewrite E.
    split; [by intros ok [=]|]. split; [|done]. by intros e' [= <-].
Qed.

Lemma copy_without_toast_witness :
  (copyToClipboard (mkCopyTarget "x" "L") Resolved (Returns true)
     (load Sample.page_without_toast ∅ None)).1 = Throw "Missing element: #toast".
Proof.
  refine (proj1 (proj1 (copy_without_toast 2 (mkCopyTarget "x" "L") Resolved (Returns true)
                   (load Sample.page_without_toast ∅ None) _ _ _) true eq_refl)).
  - intros h a Ha. apply (sample_wellFormed h a).
    revert Ha. unfold parentOf. simpl dom.
    unfold Sample.page_without_toast. rewrite lookup_take.
    case_decide; [done|]. by intros [=].
  - vm_compute. reflexivity.
  - vm_compute. reflexivity.
Defined.

End CopyOutcome.

(** ** From startup to any later moment *)

Section StartupThenEvents.

Implicit Types (d : Dom) (h t : nat) (p q : Page).

Lemma main_pageOk p : pageOk p → pageOk (main p).2.
Proof.
  intros Hok. pose proof Hok as (_ & Hd & _).
  destruct (main_is_quiet p Hd) as (Hdom & _ & _ & Hti & Hnt & Htt & _). simpl in *.
  pose proof (initThemeToggle_dom p Hd) as E. rewrite E in Hdom.
  apply (view_ok 0 p); [|by apply oneTimer_fields|done].
  rewrite Hdom. by apply spyView_setAttribute.
Qed.

Lemma main_spy_registered p t :
  dom p ≠ [] → querySelector (SelId "toc") (dom p) = Some t →
  let spy := tocSpy t (dom (main p).2) in
  mkListener t (OnTocClick spy) ∈ listeners (main p).2 ∧
  mkObserver spy thresholds (sections spy) ∈ observers (main p).2.
Proof.
  intros Hd Hq.
  destruct (main_is_quiet p Hd) as (Hdom & _). simpl in Hdom. rewrite Hdom.
  revert Hdom. unfold main, mbind, Js_bind.
  pose proof (initThemeToggle_normal p Hd) as N1.
  pose proof (initThemeToggle_dom p Hd) as D1.
  destruct (initThemeToggle p) as [r1 p1]. cbn [fst snd] in N1, D1 |- *. subst r1.
  rewrite initTocSpy_result.
  assert (Hq1 : querySelector (SelId "toc") (dom p1) = Some t).
  { by rewrite D1, querySelector_id_setAttribute. }
  rewrite Hq1.
  set (spy := tocSpy t (dom p1)). set (p2 := with_listeners _ _).
  assert (L2 : mkListener t (OnTocClick spy) ∈ listeners p2).
  { unfold p2. simpl. apply elem_of_app. right. by left. }
  assert (O2 : mkObserver spy thresholds (sections spy) ∈ observers p2).
  { unfold p2. simpl. apply elem_of_app. right. by left. }
  clearbody p2.
  pose proof (initAccordion_normal p2) as N3.
  destruct (initAccordion_listeners p2) as (n3 & E3 & _).
  pose proof (initAccordion_observers p2) as O3.
  destruct (initAccordion p2) as [r3 p3]. cbn [fst snd] in N3, E3, O3. subst r3.
  pose proof (initCopyButtons_normal p3) as N4.
  destruct (initCopyButtons_listeners p3) as (n4 & E4 & _).
  pose proof (initCopyButtons_observers p3) as O4.
  destruct (initCopyButtons p3) as [r4 p4]. cbn [fst snd] in N4, E4, O4. subst r4.
  destruct (initQuickScroll_listeners p4) as (n5 & E5 & _).
  pose proof (initQuickScroll_observers p4) as O5.
  destruct (initQuickScroll p4) as [r5 p5]. cbn [fst snd] in E5, O5 |- *.
  intros _. split.
  - rewrite E5, E4, E3. do 3 (apply elem_of_app; left). exact L2.
  - by rewrite O5, O4, O3.
Qed.

(** X25: on a well-formed page with a table of contents and an empty
    toast element main completes and leaves the page fit for events; the
    click listener of the table of contents and the observer hold the index
    built from that document, and after any events, copies whose legacy
    command throws among them, this index is still what the current
    document gives, with the listeners and observers main registered. *)
Theorem startup_then_events p t evs :
  pageOk p → querySelector (SelId "toc") (dom p) = Some t →
  let p1 := (main p).2 in
  let spy := tocSpy t (dom p1) in
  let p' := foldl (pageStep spy) p1 evs in
  (main p).1 = Normal () ∧
  mkListener t (OnTocClick spy) ∈ listeners p1 ∧
  mkObserver spy thresholds (sections spy) ∈ observers p1 ∧
  pageOk p' ∧
  listeners p' = listeners p1 ∧ observers p' = observers p1 ∧
  tocSpy t (dom p') = spy.
Proof.
  intros Hok Hq p1 spy p'.
  pose proof (main_pageOk p Hok) as Hok1. fold p1 in Hok1.
  destruct Hok as (_ & Hd & _).
  destruct (main_spy_registered p t Hd Hq) as [Hl Ho]. fold p1 spy in Hl, Ho.
  destruct (run_keeps t spy p1 evs) as [(Hl' & Ho' & _ & Hk) _].
  destruct (Hk Hok1) as (Hok' & _ & _ & Hs & _). fold p' in Hl', Ho', Hok', Hs.
  split; [by rewrite main_result, Hq|]. auto 10.
Qed.

Lemma startup_then_events_witness :
  let p1 := (main (load Sample.page ∅ None)).2 in
  let spy := tocSpy 3 (dom p1) in
  tocSpy 3 (dom (foldl (pageStep spy) p1
                   [TocClicked 5; ThemeClicked;
                    CopySettled (mkCopyTarget "x" "y", Rejected, Throws "no")])) = spy.
Proof.
  intros p1 spy.
  refine (proj2 (proj2 (proj2 (proj2 (proj2 (proj2
            (startup_then_events (load Sample.page ∅ None) 3 _ sample_pageOk _))))))).
  vm_compute. reflexivity.
Defined.

End StartupThenEvents.
